(** * Markdown-to-Notion block converter: shallow embedding and verification

    The repository holds two copies of a markdown converter:

    - [parse_inline_formatting] and [markdown_to_blocks] in
      success-factory/scripts/notion/notion_client.py (module [NotionClient]);
    - [parse_inline_formatting] and [markdown_to_notion_blocks] in
      zerochurn-factory/.factory-upstream/scripts/sync-problem-to-notion.py
      (module [SyncProblem]).

    Python strings are modelled as lists of 8-bit characters (code points
    0..255, the Latin-1 range); dictionaries with a fixed key set as records
    and inductive types; the [while] loops over the index [i] as fuelled
    recursion in an error monad whose failures are [IndexError] and
    [OutOfFuel]. *)

From Stdlib Require Import Ascii String List Arith Bool Lia.
Import ListNotations.

(** ** Python strings *)

Module Py.

Definition str := list ascii.

(** String literals of the source are written ["..."%string] and coerced. *)
Definition lit (s : string) : str := list_ascii_of_string s.

(** [a == b] on strings *)
Fixpoint eqb (a b : str) : bool :=
  match a, b with
  | [], [] => true
  | c :: a', d :: b' => Ascii.eqb c d && eqb a' b'
  | _, _ => false
  end.

(** [s.startswith(p)] *)
Fixpoint startswith (s p : str) {struct p} : bool :=
  match p, s with
  | [], _ => true
  | _ :: _, [] => false
  | c :: p', d :: s' => Ascii.eqb c d && startswith s' p'
  end.

(** [s.endswith(p)] *)
Definition endswith (s p : str) : bool := startswith (rev s) (rev p).

(** Whitespace as [str.isspace] and the regex class [\s] see it on code
    points below 256: tab, LF, VT, FF, CR, the separators 0x1C..0x1F, space,
    NEL (0x85) and the no-break space (0xA0). *)
Definition isspace (c : ascii) : bool :=
  let n := nat_of_ascii c in
  ((9 <=? n) && (n <=? 13)) || ((28 <=? n) && (n <=? 32))
  || (n =? 133) || (n =? 160).

(** Decimal digits as the regex class [\d] sees them on code points below
    256: the characters 0 to 9. *)
Definition isdigit (c : ascii) : bool :=
  let n := nat_of_ascii c in (48 <=? n) && (n <=? 57).

(** [s.lstrip()], [s.rstrip()] and [s.strip()] *)
Fixpoint lstrip (s : str) : str :=
  match s with
  | [] => []
  | c :: s' => if isspace c then lstrip s' else s
  end.

Definition rstrip (s : str) : str := rev (lstrip (rev s)).

Definition strip (s : str) : str := rstrip (lstrip s).

(** [s[n:]] for a literal [n >= 0] *)
Definition slice_from (n : nat) (s : str) : str := skipn n s.

(** [s[:n]] for a literal [n >= 0] *)
Definition slice_to (n : nat) (s : str) : str := firstn n s.

(** [s[a:-b]] for literals [a, b > 0]: the characters from index [a] up to
    index [len(s) - b] excluded, nothing when the bounds cross. *)
Definition slice_between (a b : nat) (s : str) : str :=
  firstn (length s - b - a) (skipn a s).

(** [s.split('\n')]: always at least one field. *)
Fixpoint split (sep : ascii) (s : str) : list str :=
  match s with
  | [] => [[]]
  | c :: s' =>
    if Ascii.eqb c sep then [] :: split sep s'
    else match split sep s' with
         | [] => [[c]]
         | l :: ls => (c :: l) :: ls
         end
  end.

(** [sep.join(parts)] *)
Fixpoint join (sep : str) (parts : list str) : str :=
  match parts with
  | [] => []
  | [p] => p
  | p :: ps => p ++ sep ++ join sep ps
  end.

(** [not s] on a string or a list *)
Definition is_empty {A} (s : list A) : bool :=
  match s with
  | [] => true
  | _ :: _ => false
  end.

(** The newline character ['\n'] *)
Definition nl : ascii := "010"%char.

(** [x in xs] on a list of strings *)
Definition contains (xs : list str) (x : str) : bool := existsb (eqb x) xs.

(** The outcome of a statement sequence: a value, an [IndexError] raised by
    a subscript, or the iteration budget of the model exhausted. *)
Inductive result (A : Type) : Type :=
| Ok (a : A)
| IndexError
| OutOfFuel.

Arguments Ok {A} a.
Arguments IndexError {A}.
Arguments OutOfFuel {A}.

Definition bind {A B} (m : result A) (f : A -> result B) : result B :=
  match m with
  | Ok a => f a
  | IndexError => IndexError
  | OutOfFuel => OutOfFuel
  end.

(** [xs[i]] with [i >= 0] *)
Definition getitem {A} (xs : list A) (i : nat) : result A :=
  match nth_error xs i with
  | Some x => Ok x
  | None => IndexError
  end.

End Py.

Notation "x <- m ;; k" := (Py.bind m (fun x => k))
  (at level 61, m at next level, right associativity).
Notation "' pat <- m ;; k" :=
  (Py.bind m (fun x => match x with pat => k end))
  (at level 61, pat pattern, m at next level, right associativity).

Coercion Py.lit : string >-> Py.str.

(** ** The fragment of Python's [re] used by the scripts *)

Module Re.

Import Py.

(** One-character items: a literal, a negated class [[^...]], [\d], [\s]. *)
Inductive cset :=
| Chr (c : ascii)
| NoneOf (cs : list ascii)
| Digit
| Space.

Definition in_cset (cs : cset) (c : ascii) : bool :=
  match cs with
  | Chr d => Ascii.eqb c d
  | NoneOf ds => negb (existsb (Ascii.eqb c) ds)
  | Digit => isdigit c
  | Space => isspace c
  end.

(** Patterns: one item, a greedy [+] on an item, sequence, ordered choice. *)
Inductive regex :=
| One (cs : cset)
| Plus (cs : cset)
| Cat (r1 r2 : regex)
| Alt (r1 r2 : regex).

(** Greedy repetition with backtracking: take as many characters as
    possible, then give them back one at a time until the continuation
    succeeds. *)
Fixpoint plus_bt {A} (p : ascii -> bool) (s : str) (k : str -> option A)
  : option A :=
  match s with
  | [] => None
  | c :: s' =>
    if p c then
      match plus_bt p s' k with
      | Some x => Some x
      | None => k s'
      end
    else None
  end.

(** The backtracking matcher: [bt r s k] matches [r] at the head of [s] and
    hands the rest to [k]; the first success in priority order wins. *)
Fixpoint bt {A} (r : regex) (s : str) (k : str -> option A) : option A :=
  match r with
  | One cs =>
    match s with
    | c :: s' => if in_cset cs c then k s' else None
    | [] => None
    end
  | Plus cs => plus_bt (in_cset cs) s k
  | Cat r1 r2 => bt r1 s (fun s' => bt r2 s' k)
  | Alt r1 r2 =>
    match bt r1 s k with
    | Some x => Some x
    | None => bt r2 s k
    end
  end.

(** [re.match(r, s)]: the matched text and what follows it. *)
Definition rmatch (r : regex) (s : str) : option (str * str) :=
  match bt r s Some with
  | Some rest => Some (firstn (length s - length rest) s, rest)
  | None => None
  end.

(** Whether [re.match(r, s)] is a match object. *)
Definition matches (r : regex) (s : str) : bool :=
  match rmatch r s with
  | Some _ => true
  | None => false
  end.

(** [re.findall(r, s)] for a pattern that is one group: scan from the left;
    at a match record its text and go on after it, else skip one character.
    No pattern of this fragment matches the empty string, so [length s]
    rounds are enough (lemma [findall_from_enough]). *)
Fixpoint findall_from (fuel : nat) (r : regex) (s : str) : list str :=
  match fuel with
  | 0 => []
  | S fuel' =>
    match s with
    | [] => []
    | _ :: tl =>
      match rmatch r s with
      | Some (m, rest) => m :: findall_from fuel' r rest
      | None => findall_from fuel' r tl
      end
    end
  end.

Definition findall (r : regex) (s : str) : list str :=
  findall_from (length s) r s.

(** [re.sub('^' + r, '', s)]: the anchor lets only a match at the start of
    the string be replaced. *)
Definition sub_at_start (r : regex) (s : str) : str :=
  match rmatch r s with
  | Some (_, rest) => rest
  | None => s
  end.

End Re.

Open Scope string_scope.
Open Scope nat_scope.
Open Scope list_scope.

(** ** The Notion objects built by the scripts *)

Module Notion.

Import Py.

(** The ["annotations"] dictionary of a rich-text object. *)
Module Ann.

Record t := mk {
  bold : bool;
  italic : bool;
  code : bool;
  strikethrough : bool;
  underline : bool;
  color : str
}.

Definition set_bold (a : t) : t :=
  mk true (italic a) (code a) (strikethrough a) (underline a) (color a).

Definition set_italic (a : t) : t :=
  mk (bold a) true (code a) (strikethrough a) (underline a) (color a).

Definition set_code (a : t) : t :=
  mk (bold a) (italic a) true (strikethrough a) (underline a) (color a).

End Ann.

(** A rich-text object [{"type": "text", "text": {"content": c},
    "annotations": a}]; the objects inside code blocks have no
    ["annotations"] key. *)
Record rich_text := mk_text {
  content : str;
  annotations : option Ann.t
}.

(** A block object, by its ["type"]. *)
Inductive block :=
| heading_2 (rt : list rich_text)
| heading_3 (rt : list rich_text)
| divider
| quote (rt : list rich_text)
| to_do (rt : list rich_text) (checked : bool)
| bulleted_list_item (rt : list rich_text)
| numbered_list_item (rt : list rich_text)
| code (rt : list rich_text) (language : str)
| paragraph (rt : list rich_text).

(** The rich-text list a block carries, if its type has one. *)
Definition block_rich_text (b : block) : option (list rich_text) :=
  match b with
  | divider => None
  | heading_2 rt | heading_3 rt | quote rt | to_do rt _
  | bulleted_list_item rt | numbered_list_item rt | code rt _
  | paragraph rt => Some rt
  end.

(** The pattern of both copies of [parse_inline_formatting]:
    [(`[^`]+`|\*\*[^*]+\*\*|\*[^*]+\*|_[^_]+_|[^`*_]+)]. *)
Definition pattern : Re.regex :=
  let bq := "`"%char in
  let st := "*"%char in
  let us := "_"%char in
  Re.Alt (Re.Cat (Re.One (Re.Chr bq))
            (Re.Cat (Re.Plus (Re.NoneOf [bq])) (Re.One (Re.Chr bq))))
 (Re.Alt (Re.Cat (Re.One (Re.Chr st)) (Re.Cat (Re.One (Re.Chr st))
            (Re.Cat (Re.Plus (Re.NoneOf [st]))
               (Re.Cat (Re.One (Re.Chr st)) (Re.One (Re.Chr st))))))
 (Re.Alt (Re.Cat (Re.One (Re.Chr st))
            (Re.Cat (Re.Plus (Re.NoneOf [st])) (Re.One (Re.Chr st))))
 (Re.Alt (Re.Cat (Re.One (Re.Chr us))
            (Re.Cat (Re.Plus (Re.NoneOf [us])) (Re.One (Re.Chr us))))
         (Re.Plus (Re.NoneOf [bq; st; us]))))).

(** The pattern of the numbered-list rule, [^\d+\.\s]; the anchor is
    carried by [Re.rmatch] and [Re.sub_at_start]. *)
Definition numbered : Re.regex :=
  Re.Cat (Re.Plus Re.Digit)
    (Re.Cat (Re.One (Re.Chr "."%char)) (Re.One Re.Space)).

(** The table loop, the same text in both copies:
    [while i < len(lines) and lines[i].startswith('|'):
         table_lines.append(lines[i]); i += 1]. *)
Fixpoint table_loop (fuel : nat) (lines : list str) (i : nat)
  (table_lines : list str) : result (nat * list str) :=
  if i <? length lines then
    line <- getitem lines i ;;
    if startswith line "|" then
      match fuel with
      | 0 => OutOfFuel
      | S fuel' =>
        l <- getitem lines i ;;
        table_loop fuel' lines (i + 1) (table_lines ++ [l])
      end
    else Ok (i, table_lines)
  else Ok (i, table_lines).

(** The fence loop, the same text in both copies:
    [while i < len(lines) and not lines[i].startswith('```'):
         code_lines.append(lines[i]); i += 1]. *)
Fixpoint code_loop (fuel : nat) (lines : list str) (i : nat)
  (code_lines : list str) : result (nat * list str) :=
  if i <? length lines then
    line <- getitem lines i ;;
    if negb (startswith line "```") then
      match fuel with
      | 0 => OutOfFuel
      | S fuel' =>
        l <- getitem lines i ;;
        code_loop fuel' lines (i + 1) (code_lines ++ [l])
      end
    else Ok (i, code_lines)
  else Ok (i, code_lines).

(** The body of a code block: [[{"type": "text", "text": {"content":
    '\n'.join(ls)[:2000]}}]]. *)
Definition code_text (ls : list str) : list rich_text :=
  [mk_text (slice_to 2000 (join [nl] ls)) None].

(** [x or "plain text"] on strings *)
Definition or_else (x d : str) : str :=
  match x with
  | [] => d
  | _ :: _ => x
  end.

(** The branch of a fence line, the same in both copies up to the list
    [valid_langs]. *)
Definition fence (valid_langs : list str) (fuel : nat) (lines : list str)
  (i : nat) (line : str) (blocks : list block) : result (nat * list block) :=
  let lang := or_else (strip (slice_from 3 line)) "plain text" in
  let code_lines := [] in
  let i := i + 1 in
  '(i, code_lines) <- code_loop fuel lines i code_lines ;;
  let i := i + 1 in
  Ok (i, blocks ++ [code (code_text code_lines)
                      (if contains valid_langs lang then lang
                       else "plain text")]).

(** The branch of a table line, the same in both copies. *)
Definition table (fuel : nat) (lines : list str) (i : nat)
  (blocks : list block) : result (nat * list block) :=
  let table_lines := [] in
  '(i, table_lines) <- table_loop fuel lines i table_lines ;;
  Ok (i, blocks ++ [code (code_text table_lines) "plain text"]).

(** The main loop [while i < len(lines): ...] over a loop body. *)
Fixpoint while_loop
  (body : list str -> nat -> list block -> result (nat * list block))
  (fuel : nat) (lines : list str) (i : nat) (blocks : list block)
  : result (list block) :=
  if i <? length lines then
    match fuel with
    | 0 => OutOfFuel
    | S fuel' =>
      '(i', blocks') <- body lines i blocks ;;
      while_loop body fuel' lines i' blocks'
    end
  else Ok blocks.

End Notion.

(** ** notion_client.py *)

Module NotionClient.

Import Py Notion.

(** One round of the [for part in parts] loop, after the [if not part]
    guard: the dictionary appended to [rich_text]. *)
Definition rich_text_of_part (part : str) : rich_text :=
  let annotations := Ann.mk false false false false false "default" in
  let content := part in
  let '(content, annotations) :=
    if startswith part "`" && endswith part "`" then
      (slice_between 1 1 part, Ann.set_code annotations)
    else if startswith part "**" && endswith part "**" then
      (slice_between 2 2 part, Ann.set_bold annotations)
    else if (startswith part "*" && endswith part "*")
            || (startswith part "_" && endswith part "_") then
      (slice_between 1 1 part, Ann.set_italic annotations)
    else (content, annotations) in
  mk_text (slice_to 2000 content) (Some annotations).

Definition parse_inline_formatting (text : str) : list rich_text :=
  let rich_text := [] in
  let parts := Re.findall pattern text in
  let rich_text :=
    fold_left
      (fun rich_text part =>
         if is_empty part then rich_text
         else rich_text ++ [rich_text_of_part part])
      parts rich_text in
  if is_empty rich_text then
    rich_text ++
      [mk_text (slice_to 2000 text)
         (Some (Ann.mk false false false false false "default"))]
  else rich_text.

Definition valid_langs : list str :=
  ["javascript" : str; "python" : str; "json" : str; "bash" : str;
   "sql" : str; "typescript" : str; "html" : str; "css" : str; "go" : str;
   "ruby" : str; "java" : str].

(** One round of the [while] loop of [markdown_to_blocks]: the new value of
    [i] and of [blocks]. *)
Definition loop_body (fuel : nat) (lines : list str) (i : nat)
  (blocks : list block) : result (nat * list block) :=
  line <- getitem lines i ;;
  if is_empty (strip line) then Ok (i + 1, blocks)
  else if startswith line "# " then Ok (i + 1, blocks)
  else if startswith line "## " then
    Ok (i + 1,
        blocks ++
          [heading_2 (parse_inline_formatting (strip (slice_from 3 line)))])
  else if startswith line "### " then
    Ok (i + 1,
        blocks ++
          [heading_3 (parse_inline_formatting (strip (slice_from 4 line)))])
  else if startswith line "#### " then
    Ok (i + 1,
        blocks ++
          [heading_3 (parse_inline_formatting (strip (slice_from 5 line)))])
  else if eqb (strip line) "---" then Ok (i + 1, blocks ++ [divider])
  else if startswith line "> " then
    Ok (i + 1,
        blocks ++
          [quote (parse_inline_formatting (strip (slice_from 2 line)))])
  else if startswith line "- [ ] " || startswith line "- [x] " then
    let checked := startswith line "- [x] " in
    Ok (i + 1,
        blocks ++
          [to_do (parse_inline_formatting (strip (slice_from 6 line)))
             checked])
  else if startswith line "- " || startswith line "* " then
    Ok (i + 1,
        blocks ++
          [bulleted_list_item
             (parse_inline_formatting (strip (slice_from 2 line)))])
  else if Re.matches numbered line then
    let text := Re.sub_at_start numbered line in
    Ok (i + 1,
        blocks ++ [numbered_list_item (parse_inline_formatting (strip text))])
  else if startswith line "|" then table fuel lines i blocks
  else if startswith line "```" then
    fence valid_langs fuel lines i line blocks
  else
    let text := strip line in
    let blocks :=
      if negb (is_empty text) then
        blocks ++ [paragraph (parse_inline_formatting text)]
      else blocks in
    Ok (i + 1, blocks).

(** [markdown_to_blocks] with [fuel] rounds allowed to each loop. *)
Definition markdown_to_blocks_within (fuel : nat) (markdown : str)
  : result (list block) :=
  let blocks := [] in
  let lines := split nl markdown in
  let i := 0 in
  while_loop (loop_body fuel) fuel lines i blocks.

(** No loop runs more rounds than there are lines (theorem
    [markdown_to_blocks_total]). *)
Definition markdown_to_blocks (markdown : str) : result (list block) :=
  markdown_to_blocks_within (length (split nl markdown)) markdown.

End NotionClient.

(** ** sync-problem-to-notion.py *)

Module SyncProblem.

Import Py Notion.

(** One round of the [for part in parts] loop, after the [if not part]
    guard: the dictionary appended to [rich_text]. *)
Definition rich_text_of_part (part : str) : rich_text :=
  if startswith part "`" && endswith part "`" then
    let content := slice_between 1 1 part in
    mk_text (slice_to 2000 content)
      (Some (Ann.mk false false true false false "default"))
  else if startswith part "**" && endswith part "**" then
    let content := slice_between 2 2 part in
    mk_text (slice_to 2000 content)
      (Some (Ann.mk true false false false false "default"))
  else if (startswith part "*" && endswith part "*")
          || (startswith part "_" && endswith part "_") then
    let content := slice_between 1 1 part in
    mk_text (slice_to 2000 content)
      (Some (Ann.mk false true false false false "default"))
  else
    mk_text (slice_to 2000 part)
      (Some (Ann.mk false false false false false "default")).

Definition parse_inline_formatting (text : str) : list rich_text :=
  let rich_text := [] in
  let parts := Re.findall pattern text in
  let rich_text :=
    fold_left
      (fun rich_text part =>
         if is_empty part then rich_text
         else rich_text ++ [rich_text_of_part part])
      parts rich_text in
  if is_empty rich_text then
    rich_text ++
      [mk_text (slice_to 2000 text)
         (Some (Ann.mk false false false false false "default"))]
  else rich_text.

Definition valid_langs : list str :=
  ["javascript" : str; "python" : str; "json" : str; "bash" : str;
   "sql" : str; "typescript" : str; "html" : str; "css" : str].

(** One round of the [while] loop of [markdown_to_notion_blocks]. The
    bullet rule comes before the checkbox rule and ends with [i += 1;
    continue] whether or not it appended a block. *)
Definition loop_body (fuel : nat) (lines : list str) (i : nat)
  (blocks : list block) : result (nat * list block) :=
  line <- getitem lines i ;;
  if is_empty (strip line) then Ok (i + 1, blocks)
  else if startswith line "# " then Ok (i + 1, blocks)
  else if startswith line "## " then
    Ok (i + 1,
        blocks ++
          [heading_2 (parse_inline_formatting (strip (slice_from 3 line)))])
  else if startswith line "### " then
    Ok (i + 1,
        blocks ++
          [heading_3 (parse_inline_formatting (strip (slice_from 4 line)))])
  else if startswith line "#### " then
    Ok (i + 1,
        blocks ++
          [heading_3 (parse_inline_formatting (strip (slice_from 5 line)))])
  else if eqb (strip line) "---" then Ok (i + 1, blocks ++ [divider])
  else if startswith line "> " then
    let quote_text := strip (slice_from 2 line) in
    Ok (i + 1, blocks ++ [quote (parse_inline_formatting quote_text)])
  else if startswith line "- " || startswith line "* " then
    let bullet_text := strip (slice_from 2 line) in
    let blocks :=
      if negb (startswith bullet_text "[ ]" || startswith bullet_text "[x]")
      then
        blocks ++ [bulleted_list_item (parse_inline_formatting bullet_text)]
      else blocks in
    Ok (i + 1, blocks)
  else if startswith line "- [ ] " || startswith line "- [x] " then
    let checked := startswith line "- [x] " in
    let todo_text := strip (slice_from 6 line) in
    Ok (i + 1,
        blocks ++ [to_do (parse_inline_formatting todo_text) checked])
  else if startswith line "|" then table fuel lines i blocks
  else if startswith line "```" then
    fence valid_langs fuel lines i line blocks
  else
    let text := strip line in
    let blocks :=
      if negb (is_empty text) then
        blocks ++ [paragraph (parse_inline_formatting text)]
      else blocks in
    Ok (i + 1, blocks).

(** [markdown_to_notion_blocks] with [fuel] rounds allowed to each loop. *)
Definition markdown_to_notion_blocks_within (fuel : nat) (markdown : str)
  : result (list block) :=
  let blocks := [] in
  let lines := split nl markdown in
  let i := 0 in
  while_loop (loop_body fuel) fuel lines i blocks.

Definition markdown_to_notion_blocks (markdown : str)
  : result (list block) :=
  markdown_to_notion_blocks_within (length (split nl markdown)) markdown.

End SyncProblem.


(** ** Vocabulary of the specification *)

Module Spec.

Import Py Notion.

(** A text span by its style: plain, bold, italic or code. *)
Definition plain (c : str) : rich_text :=
  mk_text c (Some (Ann.mk false false false false false "default")).

Definition bold (c : str) : rich_text :=
  mk_text c (Some (Ann.mk true false false false false "default")).

Definition italic (c : str) : rich_text :=
  mk_text c (Some (Ann.mk false true false false false "default")).

Definition code_span (c : str) : rich_text :=
  mk_text c (Some (Ann.mk false false true false false "default")).

(** A span is plain when it has annotations and no style flag is set. *)
Definition is_plain (t : rich_text) : bool :=
  match annotations t with
  | Some a => negb (Ann.bold a || Ann.italic a || Ann.code a)
  | None => false
  end.

(** Whether two neighbours in a span list are both plain. *)
Fixpoint adjacent_plain (ts : list rich_text) : bool :=
  match ts with
  | t :: (u :: _) as ts' => (is_plain t && is_plain u) || adjacent_plain ts'
  | _ => false
  end.

(** The text contents of a span list, concatenated. *)
Definition contents (ts : list rich_text) : str :=
  concat (map content ts).

(** The three delimiter characters of the inline dialect. *)
Definition is_delim (c : ascii) : bool :=
  Ascii.eqb c "`" || Ascii.eqb c "*" || Ascii.eqb c "_".

Definition nodelim (c : ascii) : bool := negb (is_delim c).

(** The longest prefix of [ls] whose elements satisfy [p]. *)
Fixpoint takewhile {A} (p : A -> bool) (ls : list A) : list A :=
  match ls with
  | [] => []
  | l :: ls' => if p l then l :: takewhile p ls' else []
  end.

Fixpoint dropwhile {A} (p : A -> bool) (ls : list A) : list A :=
  match ls with
  | [] => []
  | l :: ls' => if p l then dropwhile p ls' else ls
  end.

(** The maximal run of lines starting with ['|'] from index [i] on. *)
Definition table_run (lines : list str) (i : nat) : list str :=
  takewhile (fun l => startswith l "|") (skipn i lines).

(** The lines of a fenced run opened at index [i]: those after the opening
    fence up to the next line starting with three backticks. *)
Definition fence_run (lines : list str) (i : nat) : list str :=
  takewhile (fun l => negb (startswith l "```")) (skipn (i + 1) lines).

(** The language tag of a fence line as the specification words it: the
    text after the fence, trimmed; ["plain text"] when that is empty or not
    in the allow-list. *)
Definition fence_language (allow : list str) (line : str) : str :=
  let tag := strip (slice_from 3 line) in
  if is_empty tag || negb (contains allow tag) then "plain text" else tag.

(** Every span list of the block is non-empty. *)
Definition spans_nonempty (b : block) : Prop :=
  forall rt, block_rich_text b = Some rt -> rt <> [].

(** Every text content of the block has at most 2000 characters. *)
Definition contents_bounded (b : block) : Prop :=
  forall rt t, block_rich_text b = Some rt -> In t rt ->
  length (content t) <= 2000.

(** Both invariants of an emitted block. *)
Definition good (b : block) : Prop := spans_nonempty b /\ contents_bounded b.

(** The lines on which the two copies of the converter take different
    branches: a bullet line whose trimmed remainder starts with a checkbox,
    a numbered-list line, a fence tagged go, ruby or java. *)
Definition copies_differ_on (line : str) : bool :=
  ((startswith line "- " || startswith line "* ")
   && (startswith (strip (slice_from 2 line)) "[ ]"
       || startswith (strip (slice_from 2 line)) "[x]"))
  || Re.matches numbered line
  || (startswith line "```"
      && contains ["go" : str; "ruby" : str; "java" : str]
           (strip (slice_from 3 line))).

(** Inputs used as examples. *)
Definition span_example : str := "Hello **bold** and `code` and *italic*".

Definition stray : str := "a*b".

Definition hello_world : str := "hello world".

Definition stars : str := repeat "*"%char 2001.


Definition long_row : str := "|"%char :: repeat "a"%char 2000.

Definition unterminated_fence : str :=
  lit "```python" ++ [nl] ++ lit "x = 1".

Definition three_rows : str :=
  lit "|a|b|" ++ [nl] ++ lit "|-|-|" ++ [nl] ++ lit "|1|2|".

Definition two_rows_apart : str :=
  lit "|a|b|" ++ [nl] ++ [nl] ++ lit "|1|2|".

Definition ruby_fence : str :=
  lit "```ruby" ++ [nl] ++ lit "x = 1" ++ [nl] ++ lit "```".

Definition python_fence : str :=
  lit "```python" ++ [nl] ++ lit "x = 1" ++ [nl] ++ lit "```".

Definition agreeing_document : str :=
  lit "## Title" ++ [nl] ++ lit "- item" ++ [nl] ++ lit "```python"
  ++ [nl] ++ lit "x = 1" ++ [nl] ++ lit "```" ++ [nl] ++ lit "|a|b|".

End Spec.

(** ** Further vocabulary: what a user of the converter relies on *)

Module Props.

Import Py Notion Spec.

(** The blocks of a line converted on its own. *)
Definition line_blocks (l : str) : list block :=
  match NotionClient.markdown_to_blocks l with
  | Ok bs => bs
  | _ => []
  end.

(** A line that opens neither a table run nor a fenced run. *)
Definition one_line_rule (l : str) : bool :=
  negb (startswith l "|") && negb (startswith l "```").

(** The language of a code block is ["plain text"] or in the allow-list. *)
Definition language_ok (allow : list str) (b : block) : Prop :=
  match b with
  | code _ language => language = lit "plain text"
                       \/ contains allow language = true
  | _ => True
  end.

(** A checklist item or a numbered item. *)
Definition is_list_extra (b : block) : bool :=
  match b with
  | to_do _ _ | numbered_list_item _ => true
  | _ => false
  end.

(** No character of [s] is [c]. *)
Definition lacks (c : ascii) (s : str) : bool :=
  forallb (fun d => negb (Ascii.eqb d c)) s.

(** The test of the fence loop: the line is not a fence line. *)
Definition inside_fence (l : str) : bool := negb (startswith l "```").

(** A fence closed by a line with text behind the backticks. *)
Definition closed_fence_lines : list str :=
  [lit "intro"; lit "```python"; lit "x = 1"; lit "|y|"; lit "``` end";
   lit "after"].

(** A document without tables and fences. *)
Definition plain_document : str :=
  lit "## Title" ++ [nl] ++ lit "first line" ++ [nl] ++ lit "second line"
  ++ [nl] ++ [nl] ++ lit "- item".

End Props.

(** ** The callers: pages written through the Notion API *)

Module Api.

Import Py Notion.

Inductive http_method := GET | POST | PATCH | DELETE.

(** [range(start, stop, step)] for a step above zero: [start],
    [start + step], ... below [stop]. *)
Fixpoint range_from (fuel start stop step : nat) : list nat :=
  match fuel with
  | 0 => []
  | S fuel' =>
    if start <? stop then start :: range_from fuel' (start + step) stop step
    else []
  end.

Definition range (start stop step : nat) : list nat :=
  range_from (stop - start) start stop step.

(** [xs[i:j]] for [0 <= i <= j] *)
Definition slice {A} (i j : nat) (xs : list A) : list A :=
  firstn (j - i) (skipn i xs).

(** [bool(xs)] for an argument that is [None] or a list *)
Definition truthy {A} (xs : option (list A)) : bool :=
  match xs with
  | Some (_ :: _) => true
  | _ => false
  end.

Definition the_list {A} (xs : option (list A)) : list A :=
  match xs with
  | Some l => l
  | None => []
  end.

Section Client.

(** A properties dictionary, passed through as it is. *)
Variable props : Type.

(** [bool(properties)] *)
Variable props_truthy : props -> bool.

(** The JSON object of an answer, with the lookups the scripts make:
    the key ["id"] (absent: [None]), [bool(result)],
    [existing.get("results", [])], [existing.get("has_more", False)]. *)
Variable response : Type.
Variable resp_id : response -> option str.
Variable resp_truthy : response -> bool.
Variable resp_results : response -> list response.
Variable resp_has_more : response -> bool.

(** The [data] argument of [notion_request]. *)
Inductive payload :=
| page_data (database_id : str) (properties : props)
    (children : option (list block))
| problem_page (title priority : str) (children : list block)
| problem_properties (title priority : str)
| properties_data (properties : props)
| children_data (batch : list block)
| child_page (parent_id name : str) (children : option (list block))
| no_data.

Record request := mk_request {
  method : http_method;
  endpoint : str;
  token : str;
  data : payload
}.

(** The remote side: its answer to a request after the requests made so
    far, [None] when [notion_request] raises. *)
Variable server : list request -> request -> option response.

(** The outcome of a call: a value, an exception, or a loop cut off by the
    budget of the model. *)
Inductive outcome (A : Type) :=
| Returned (a : A)
| Raised
| Unfinished.

Arguments Returned {A} a.
Arguments Raised {A}.
Arguments Unfinished {A}.

(** A computation that makes requests: from the log of the requests so far
    to the new log and the outcome. *)
Definition M (A : Type) : Type := list request -> list request * outcome A.

Definition ret {A} (a : A) : M A := fun log => (log, Returned a).

Definition raise {A} : M A := fun log => (log, Raised).

Definition unfinished {A} : M A := fun log => (log, Unfinished).

Definition bind {A B} (m : M A) (f : A -> M B) : M B :=
  fun log =>
    match m log with
    | (log', Returned a) => f a log'
    | (log', Raised) => (log', Raised)
    | (log', Unfinished) => (log', Unfinished)
    end.

(** [try: m except: pass] *)
Definition try_pass (m : M unit) : M unit :=
  fun log =>
    match m log with
    | (log', Raised) => (log', Returned tt)
    | r => r
    end.

(** [for x in xs: f(x)] *)
Fixpoint for_each {A} (xs : list A) (f : A -> M unit) : M unit :=
  match xs with
  | [] => ret tt
  | x :: xs' => bind (f x) (fun _ => for_each xs' f)
  end.

Definition notion_request (method : http_method) (endpoint token : str)
  (data : payload) : M response :=
  fun log =>
    let rq := mk_request method endpoint token data in
    (log ++ [rq],
     match server log rq with
     | Some r => Returned r
     | None => Raised
     end).

(** [result["id"]] *)
Definition subscript_id (r : response) : M str :=
  match resp_id r with
  | Some i => ret i
  | None => raise
  end.

(** The loop that appends the blocks from index [start] on, 100 at a
    time. *)
Definition append_batches (start : nat) (token page_id : str)
  (blocks : list block) : M unit :=
  for_each (range start (length blocks) 100)
    (fun i =>
       let batch := slice i (i + 100) blocks in
       bind (notion_request PATCH
               (lit "/blocks/" ++ page_id ++ lit "/children") token
               (children_data batch))
            (fun _ => ret tt)).

(** [create_page] of notion_client.py *)
Definition create_page (token database_id : str) (properties : props)
  (blocks : option (list block)) : M response :=
  let children :=
    if truthy blocks then Some (slice 0 100 (the_list blocks)) else None in
  bind (notion_request POST (lit "/pages") token
          (page_data database_id properties children))
    (fun result =>
       bind (if truthy blocks && (100 <? length (the_list blocks)) then
               bind (subscript_id result)
                 (fun page_id =>
                    append_batches 100 token page_id (the_list blocks))
             else ret tt)
         (fun _ => ret result)).

(** The loop [while has_more] of [update_page]: list the children of the
    page, delete each, go on while the answer says there are more. *)
Fixpoint delete_children (fuel : nat) (token page_id : str) : M unit :=
  match fuel with
  | 0 => unfinished
  | S fuel' =>
    bind (notion_request GET
            (lit "/blocks/" ++ page_id ++ lit "/children?page_size=100")
            token no_data)
      (fun existing =>
         bind (for_each (resp_results existing)
                 (fun block =>
                    try_pass
                      (bind (subscript_id block)
                         (fun id =>
                            bind (notion_request DELETE
                                    (lit "/blocks/" ++ id) token no_data)
                              (fun _ => ret tt)))))
           (fun _ =>
              if resp_has_more existing
              then delete_children fuel' token page_id
              else ret tt))
  end.

(** [update_page] of notion_client.py; it returns the answer to the
    properties request when there is one and it is not empty, else the
    dictionary [{"id": page_id, "status": "updated"}], here [inr page_id]. *)
Definition update_page (fuel : nat) (token page_id : str)
  (properties : option props) (blocks : option (list block))
  (replace_blocks : bool) : M (response + str) :=
  let result := None in
  bind (match properties with
        | Some p =>
          if props_truthy p then
            bind (notion_request PATCH (lit "/pages/" ++ page_id) token
                    (properties_data p))
              (fun r => ret (Some r))
          else ret result
        | None => ret result
        end)
    (fun result =>
       bind (if truthy blocks then
               bind (if replace_blocks
                     then delete_children fuel token page_id
                     else ret tt)
                 (fun _ => append_batches 0 token page_id (the_list blocks))
             else ret tt)
         (fun _ =>
            ret (match result with
                 | Some r => if resp_truthy r then inl r else inr page_id
                 | None => inr page_id
                 end))).

(** [create_notion_page] of sync-problem-to-notion.py, with [title] and
    [priority] for [data["title"]] and [data["priority"]]. Its page data,
    [problem_page], has the parent [PROBLEM_DOCS_DATABASE_ID], the
    properties Name, Status "Not started", Priority and Tags "Problem Doc",
    and always the key ["children"]. *)
Definition create_notion_page (token title priority : str)
  (blocks : list block) : M response :=
  bind (notion_request POST (lit "/pages") token
          (problem_page title priority (slice 0 100 blocks)))
    (fun result =>
       bind (if 100 <? length blocks then
               bind (subscript_id result)
                 (fun page_id => append_batches 100 token page_id blocks)
             else ret tt)
         (fun _ => ret result)).

(** The deletion loop of [update_notion_page]: as in [update_page], but
    the handler of a failed DELETE formats [block['id']] again, so a block
    without that key ends the loop with the exception. *)
Fixpoint delete_children_sync (fuel : nat) (token page_id : str) : M unit :=
  match fuel with
  | 0 => unfinished
  | S fuel' =>
    bind (notion_request GET
            (lit "/blocks/" ++ page_id ++ lit "/children?page_size=100")
            token no_data)
      (fun existing =>
         bind (for_each (resp_results existing)
                 (fun block =>
                    bind (subscript_id block)
                      (fun id =>
                         try_pass
                           (bind (notion_request DELETE
                                    (lit "/blocks/" ++ id) token no_data)
                              (fun _ => ret tt)))))
           (fun _ =>
              if resp_has_more existing
              then delete_children_sync fuel' token page_id
              else ret tt))
  end.

(** [update_notion_page] of sync-problem-to-notion.py; the messages it
    prints are left out. *)
Definition update_notion_page (fuel : nat) (token page_id title priority : str)
  (blocks : list block) : M response :=
  bind (notion_request PATCH (lit "/pages/" ++ page_id) token
          (problem_properties title priority))
    (fun result =>
       bind (try_pass (delete_children_sync fuel token page_id))
         (fun _ =>
            bind (match blocks with
                  | _ :: _ => append_batches 0 token page_id blocks
                  | [] => ret tt
                  end)
              (fun _ => ret result))).

(** The blocks a request carries. *)
Definition children_of (rq : request) : list block :=
  match data rq with
  | page_data _ _ (Some c) => c
  | problem_page _ _ c => c
  | children_data b => b
  | child_page _ _ (Some c) => c
  | _ => []
  end.

(** All the blocks sent by the requests of a log, in order. *)
Definition sent (log : list request) : list block :=
  concat (map children_of log).

(** [log'] is [log] followed by requests that all satisfy [Q]. *)
Definition extends (Q : request -> Prop) (log log' : list request) : Prop :=
  exists new, log' = log ++ new /\ Forall Q new.

(** However [m] ends, it has only added requests that satisfy [Q]. *)
Definition grows {A} (Q : request -> Prop) (m : M A) : Prop :=
  forall log log' out, m log = (log', out) -> extends Q log log'.

(** [m] returns from every log, with a value that satisfies [P]. *)
Definition returns {A} (P : A -> Prop) (m : M A) : Prop :=
  forall log, exists log' a, m log = (log', Returned a) /\ P a.

(** A request that lists or deletes blocks and carries no data. *)
Definition clears (rq : request) : Prop :=
  (method rq = GET \/ method rq = DELETE) /\ data rq = no_data.

End Client.

Arguments Returned {A} a.
Arguments Raised {A}.
Arguments Unfinished {A}.

(** 250 blocks, and a remote side that answers every request with the
    page id ["p1"]; one that fails on the third request. *)
Definition many_blocks : list block := repeat divider 250.

Definition always_answers (log : list (request unit))
  (rq : request unit) : option str := Some (lit "p1").

Definition fails_third (log : list (request unit))
  (rq : request unit) : option str :=
  if length log <? 2 then Some (lit "p1") else None.

(** A remote side that fails on every DELETE request, one that fails on
    every GET request. *)
Definition fails_deletes (log : list (request unit))
  (rq : request unit) : option str :=
  match method unit rq with
  | DELETE => None
  | _ => Some (lit "p1")
  end.


(** Answers read as a listing of two blocks, the first without an id. *)
Definition two_children (r : str) : list str := [lit ""; lit "b2"].

Definition id_unless_empty (r : str) : option str :=
  match r with
  | [] => None
  | _ => Some r
  end.

End Api.

(** create-page.py: a page under a parent page. *)
Module CreatePage.

Import Py Notion.

Section Client.

Variable props : Type.
Variable response : Type.

(** [result["id"]] and [result.get("id")]; [result.get("url")] *)
Variable resp_id : response -> option str.
Variable resp_url : response -> option str.

Variable server :
  list (Api.request props) -> Api.request props -> option response.

(** What [get_notion_token()] gives in the environment of the call: the
    token, or [None] when it raises. *)
Variable get_notion_token : option str.

(** The dictionary that [create_page] returns. *)
Record created := mk_created {
  status : str;
  page_id : option str;
  url : option str;
  name : str
}.

(** A result of the converter inside a computation that makes requests. *)
Definition lift {A} (r : result A) : Api.M props A :=
  match r with
  | Ok a => Api.ret props a
  | IndexError => Api.raise props
  | OutOfFuel => Api.unfinished props
  end.

(** [create_page] of create-page.py; [body] is [None] or a string, and the
    body is converted once before the POST request and once after it. *)
Definition create_page (parent_id name : str) (body : option str)
  : Api.M props created :=
  Api.bind props
    (match get_notion_token with
     | Some t => Api.ret props t
     | None => Api.raise props
     end)
    (fun token =>
       Api.bind props
         (if Api.truthy body then
            Api.bind props
              (lift (NotionClient.markdown_to_blocks (Api.the_list body)))
              (fun blocks => Api.ret props (Some (Api.slice 0 100 blocks)))
          else Api.ret props None)
         (fun children =>
            Api.bind props
              (Api.notion_request props response server Api.POST
                 (lit "/pages") token
                 (Api.child_page props parent_id name children))
              (fun result =>
                 Api.bind props
                   (if Api.truthy body then
                      Api.bind props
                        (lift (NotionClient.markdown_to_blocks
                                 (Api.the_list body)))
                        (fun blocks =>
                           if 100 <? length blocks then
                             Api.bind props
                               (Api.subscript_id props response resp_id
                                  result)
                               (fun page_id =>
                                  Api.append_batches props response server
                                    100 token page_id blocks)
                           else Api.ret props tt)
                    else Api.ret props tt)
                   (fun _ =>
                      Api.ret props
                        (mk_created (lit "success") (resp_id result)
                           (resp_url result) name))))).

End Client.

(** A body of 250 lines, each of them a divider. *)
Definition long_body : str :=
  lit "---" ++ concat (repeat (nl :: lit "---") 249).

End CreatePage.

Import Py Notion Spec Props.

(** ** Python strings: basic facts *)

Lemma eqb_refl (a : str) : Py.eqb a a = true.
Proof.
  induction a as [|c a IH]; simpl; [reflexivity|].
  now rewrite Ascii.eqb_refl.
Qed.

Lemma eqb_eq (a b : str) : Py.eqb a b = true <-> a = b.
Proof.
  split.
  - revert b; induction a as [|c a IH]; intros [|d b]; simpl; try easy.
    intros H; apply andb_true_iff in H as [Hc Hab].
    apply Ascii.eqb_eq in Hc; subst; f_equal; auto.
  - intros ->; apply eqb_refl.
Qed.

Lemma startswith_app (p r : str) : startswith (p ++ r) p = true.
Proof.
  induction p as [|c p IH]; simpl; [reflexivity|].
  now rewrite Ascii.eqb_refl.
Qed.

Lemma startswith_inv (s p : str) :
  startswith s p = true -> exists r, s = p ++ r.
Proof.
  revert s; induction p as [|c p IH]; intros s H; simpl in *.
  - now exists s.
  - destruct s as [|d s]; [discriminate|].
    apply andb_true_iff in H as [Hc Hs].
    apply Ascii.eqb_eq in Hc; subst d.
    destruct (IH _ Hs) as [r ->]; now exists r.
Qed.

Lemma lstrip_snoc (x : str) (c : ascii) :
  lstrip (x ++ [c]) =
  match lstrip x with
  | [] => if isspace c then [] else [c]
  | l => l ++ [c]
  end.
Proof.
  induction x as [|d x IH]; simpl.
  - destruct (isspace c); reflexivity.
  - destruct (isspace d); [exact IH | reflexivity].
Qed.

(** [rstrip] goes through a string from its head: a character is kept when
    it is not a space or something is left behind it. *)
Lemma rstrip_cons (c : ascii) (s : str) :
  rstrip (c :: s) =
  match rstrip s with
  | [] => if isspace c then [] else [c]
  | r => c :: r
  end.
Proof.
  unfold rstrip; simpl rev; rewrite lstrip_snoc.
  destruct (lstrip (rev s)) as [|d l].
  - simpl; destruct (isspace c); reflexivity.
  - rewrite rev_app_distr; simpl.
    destruct (rev l ++ [d]) eqn:E; [|reflexivity].
    now destruct (rev l).
Qed.

Lemma rstrip_nil : rstrip [] = [].
Proof. reflexivity. Qed.

Lemma strip_cons_nonspace (c : ascii) (s : str) :
  isspace c = false -> strip (c :: s) = c :: rstrip s.
Proof.
  intros Hc; unfold strip; simpl; rewrite Hc, rstrip_cons, Hc.
  now destruct (rstrip s).
Qed.

Lemma length_rstrip (s : str) : length (rstrip s) <= length s.
Proof.
  induction s as [|c s IH]; [reflexivity|].
  rewrite rstrip_cons; destruct (rstrip s); simpl in *;
    [destruct (isspace c); simpl; lia | lia].
Qed.

Lemma join_single (sep l : str) : join sep [l] = l.
Proof. reflexivity. Qed.

Lemma split_not_nil (sep : ascii) (s : str) : split sep s <> [].
Proof.
  induction s as [|c s IH]; simpl; [discriminate|].
  destruct (Ascii.eqb c sep); [discriminate|].
  destruct (split sep s); discriminate.
Qed.

Lemma getitem_ok {A} (xs : list A) (i : nat) :
  i < length xs -> exists x, getitem xs i = Ok x /\ nth_error xs i = Some x.
Proof.
  intros H; unfold getitem.
  destruct (nth_error xs i) eqn:E; [eauto|].
  apply nth_error_None in E; lia.
Qed.

Lemma getitem_inv {A} (xs : list A) (i : nat) (x : A) :
  getitem xs i = Ok x -> nth_error xs i = Some x.
Proof.
  unfold getitem; destruct (nth_error xs i); congruence.
Qed.

Lemma skipn_nth_error {A} (xs : list A) (i : nat) (x : A) :
  nth_error xs i = Some x -> skipn i xs = x :: skipn (S i) xs.
Proof.
  revert xs; induction i as [|i IH]; intros [|y xs] H; simpl in *;
    try discriminate.
  - now inversion H.
  - now apply IH.
Qed.

Lemma slice_to_length (n : nat) (s : str) : length (slice_to n s) <= n.
Proof. unfold slice_to; rewrite length_firstn; lia. Qed.


Lemma slice_to_short (n : nat) (s : str) :
  length s <= n -> slice_to n s = s.
Proof. unfold slice_to; apply firstn_all2. Qed.

(** ** The regex engine: what a match is *)

Lemma plus_bt_sound {A} (p : ascii -> bool) (s : str)
  (k : str -> option A) (x : A) :
  Re.plus_bt p s k = Some x ->
  exists m rest, s = m ++ rest /\ m <> [] /\ forallb p m = true
                 /\ k rest = Some x.
Proof.
  induction s as [|c s IH]; simpl; [discriminate|].
  destruct (p c) eqn:Hc; [|discriminate].
  destruct (Re.plus_bt p s k) eqn:E.
  - intros H; inversion H; subst.
    destruct (IH eq_refl) as (m & rest & -> & _ & Hall & Hk).
    exists (c :: m), rest; simpl; rewrite Hc, Hall; repeat split; easy.
  - intros Hk; exists [c], s; simpl; rewrite Hc; repeat split; easy.
Qed.

(** Every pattern of the fragment consumes at least one character. *)
Lemma bt_sound {A} (r : Re.regex) :
  forall (s : str) (k : str -> option A) (x : A),
  Re.bt r s k = Some x ->
  exists m rest, s = m ++ rest /\ m <> [] /\ k rest = Some x.
Proof.
  induction r as [cs|cs|r1 IH1 r2 IH2|r1 IH1 r2 IH2]; intros s k x; simpl.
  - destruct s as [|c s]; [discriminate|].
    destruct (Re.in_cset cs c); [|discriminate].
    intros Hk; exists [c], s; repeat split; easy.
  - intros H; apply plus_bt_sound in H as (m & rest & ? & ? & _ & ?); eauto.
  - intros H; apply IH1 in H as (m1 & rest1 & -> & Hm1 & H).
    apply IH2 in H as (m2 & rest & -> & _ & H).
    exists (m1 ++ m2), rest; rewrite <- app_assoc; repeat split; auto.
    destruct m1; [easy | discriminate].
  - destruct (Re.bt r1 s k) eqn:E.
    + intros H; inversion H; subst; eauto.
    + eauto.
Qed.

Lemma firstn_app_exact {A} (m rest : list A) :
  firstn (length (m ++ rest) - length rest) (m ++ rest) = m.
Proof.
  rewrite length_app, Nat.add_sub.
  rewrite firstn_app, Nat.sub_diag, firstn_all; simpl.
  apply app_nil_r.
Qed.

Lemma rmatch_sound (r : Re.regex) (s m rest : str) :
  Re.rmatch r s = Some (m, rest) -> s = m ++ rest /\ m <> [].
Proof.
  unfold Re.rmatch; destruct (Re.bt r s Some) as [rest0|] eqn:E;
    [|discriminate].
  apply bt_sound in E as (m0 & rest1 & -> & Hm & Hk).
  inversion Hk; subst rest1; intros H; inversion H; subst.
  now rewrite firstn_app_exact.
Qed.

Lemma rmatch_of_bt (r : Re.regex) (m rest : str) :
  Re.bt r (m ++ rest) Some = Some rest ->
  Re.rmatch r (m ++ rest) = Some (m, rest).
Proof.
  unfold Re.rmatch; intros ->; now rewrite firstn_app_exact.
Qed.

Lemma findall_from_length (r : Re.regex) (fuel : nat) :
  forall s, length (concat (Re.findall_from fuel r s)) <= length s.
Proof.
  induction fuel as [|fuel IH]; intros s; simpl; [lia|].
  destruct s as [|c s]; [reflexivity|].
  destruct (Re.rmatch r (c :: s)) as [[m rest]|] eqn:E.
  - apply rmatch_sound in E as [E _]; rewrite E; simpl concat.
    rewrite !length_app; specialize (IH rest); lia.
  - specialize (IH s); simpl; lia.
Qed.

(** More rounds than characters change nothing. *)
Lemma findall_from_stable (r : Re.regex) (f1 : nat) :
  forall f2 s, length s <= f1 -> length s <= f2 ->
  Re.findall_from f1 r s = Re.findall_from f2 r s.
Proof.
  induction f1 as [|f1 IH]; intros f2 s H1 H2.
  - destruct s; [|simpl in H1; lia]. now destruct f2.
  - destruct f2 as [|f2]; [destruct s; [reflexivity | simpl in H2; lia]|].
    simpl; destruct s as [|c s]; [reflexivity|].
    destruct (Re.rmatch r (c :: s)) as [[m rest]|] eqn:E.
    + apply rmatch_sound in E as [E Hm]; f_equal; apply IH.
      * assert (length (c :: s) = length (m ++ rest)) as L by now rewrite E.
        rewrite length_app in L; destruct m; [easy|]; simpl in *; lia.
      * assert (length (c :: s) = length (m ++ rest)) as L by now rewrite E.
        rewrite length_app in L; destruct m; [easy|]; simpl in *; lia.
    + apply IH; simpl in *; lia.
Qed.

Lemma findall_from_enough (r : Re.regex) (fuel : nat) (s : str) :
  length s <= fuel -> Re.findall_from fuel r s = Re.findall r s.
Proof.
  intros H; unfold Re.findall; now apply findall_from_stable.
Qed.

(** The scan of [re.findall], one step at a time. *)
Lemma findall_cons (r : Re.regex) (c : ascii) (s : str) :
  Re.findall r (c :: s) =
  match Re.rmatch r (c :: s) with
  | Some (m, rest) => m :: Re.findall r rest
  | None => Re.findall r s
  end.
Proof.
  unfold Re.findall at 1; simpl.
  destruct (Re.rmatch r (c :: s)) as [[m rest]|] eqn:E.
  - apply rmatch_sound in E as [E Hm]; f_equal.
    apply findall_from_enough.
    assert (length (c :: s) = length (m ++ rest)) as L by now rewrite E.
    rewrite length_app in L; destruct m; [easy|]; simpl in *; lia.
  - now apply findall_from_enough.
Qed.

Lemma findall_nil (r : Re.regex) : Re.findall r [] = [].
Proof. reflexivity. Qed.

Lemma findall_parts_nonempty (r : Re.regex) (fuel : nat) :
  forall s, Forall (fun m => m <> []) (Re.findall_from fuel r s).
Proof.
  induction fuel as [|fuel IH]; intros s; simpl; [constructor|].
  destruct s as [|c s]; [constructor|].
  destruct (Re.rmatch r (c :: s)) as [[m rest]|] eqn:E; [|apply IH].
  apply rmatch_sound in E as [_ Hm]; constructor; auto.
Qed.

(** ** The inline pattern *)

Lemma takewhile_dropwhile {A} (p : A -> bool) (ls : list A) :
  takewhile p ls ++ dropwhile p ls = ls.
Proof.
  induction ls as [|l ls IH]; simpl; [reflexivity|].
  destruct (p l); simpl; [now rewrite IH | reflexivity].
Qed.

Lemma takewhile_all {A} (p : A -> bool) (ls : list A) :
  forallb p ls = true -> takewhile p ls = ls.
Proof.
  induction ls as [|l ls IH]; simpl; [reflexivity|].
  destruct (p l); simpl; [intros H; now rewrite IH | discriminate].
Qed.

Lemma forallb_takewhile {A} (p : A -> bool) (ls : list A) :
  forallb p (takewhile p ls) = true.
Proof.
  induction ls as [|l ls IH]; simpl; [reflexivity|].
  destruct (p l) eqn:E; simpl; [now rewrite E | reflexivity].
Qed.

(** A greedy run with nothing required behind it takes the longest run. *)
Lemma plus_bt_greedy (p : ascii -> bool) (c : ascii) (s : str) :
  p c = true -> Re.plus_bt p (c :: s) Some = Some (dropwhile p s).
Proof.
  revert c; induction s as [|d s IH]; intros c Hc; simpl; rewrite Hc.
  - reflexivity.
  - destruct (p d) eqn:Hd.
    + specialize (IH d Hd); simpl in IH; rewrite Hd in IH.
      now rewrite IH.
    + reflexivity.
Qed.

Lemma in_cset_nodelim (c : ascii) :
  Re.in_cset (Re.NoneOf ["`"%char; "*"%char; "_"%char]) c = nodelim c.
Proof.
  unfold nodelim, is_delim; simpl; now rewrite orb_false_r, orb_assoc.
Qed.

Lemma plus_bt_ext {A} (p q : ascii -> bool) (s : str)
  (k : str -> option A) :
  (forall c, p c = q c) -> Re.plus_bt p s k = Re.plus_bt q s k.
Proof.
  intros E; induction s as [|c s IH]; simpl; [reflexivity|].
  now rewrite E, IH.
Qed.

(** At a character that is no delimiter the pattern takes the longest run
    of such characters (its last alternative). *)
Lemma rmatch_pattern_plain (c : ascii) (s : str) :
  is_delim c = false ->
  Re.rmatch pattern (c :: s) =
  Some (c :: takewhile nodelim s, dropwhile nodelim s).
Proof.
  intros Hc.
  assert (Re.bt pattern (c :: s) Some = Some (dropwhile nodelim s)) as E.
  { assert (nodelim c = true) as Hn by (unfold nodelim; now rewrite Hc).
    unfold is_delim in Hc.
    apply orb_false_iff in Hc as [Hc H3].
    apply orb_false_iff in Hc as [H1 H2].
    unfold pattern; cbn [Re.bt Re.in_cset]; rewrite H1, H2, H3.
    rewrite (plus_bt_ext _ nodelim _ _ in_cset_nodelim).
    now apply plus_bt_greedy. }
  rewrite <- (takewhile_dropwhile nodelim s) in E |- * at 1.
  change (c :: takewhile nodelim s ++ dropwhile nodelim s)
    with ((c :: takewhile nodelim s) ++ dropwhile nodelim s) in *.
  apply rmatch_of_bt.
  now rewrite E, takewhile_dropwhile.
Qed.

Lemma bt_one_inv {A} (d : ascii) (s : str) (k : str -> option A) (x : A) :
  Re.bt (Re.One (Re.Chr d)) s k = Some x ->
  exists s', s = d :: s' /\ k s' = Some x.
Proof.
  simpl; destruct s as [|c s]; [discriminate|].
  destruct (Ascii.eqb c d) eqn:E; [|discriminate].
  apply Ascii.eqb_eq in E; subst; eauto.
Qed.

(** A match of [d[^d]+d]. *)
Lemma bt_delimited_inv {A} (d : ascii) (s : str) (k : str -> option A)
  (x : A) :
  Re.bt (Re.Cat (Re.One (Re.Chr d))
           (Re.Cat (Re.Plus (Re.NoneOf [d])) (Re.One (Re.Chr d)))) s k
  = Some x ->
  exists body rest, s = (d :: body ++ [d]) ++ rest /\ k rest = Some x.
Proof.
  intros H; change (Re.bt (Re.One (Re.Chr d)) s
    (fun s' => Re.bt (Re.Plus (Re.NoneOf [d])) s'
       (fun s'' => Re.bt (Re.One (Re.Chr d)) s'' k)) = Some x) in H.
  apply bt_one_inv in H as (s' & -> & H).
  apply bt_sound in H as (body & r1 & -> & _ & H).
  apply bt_one_inv in H as (rest & -> & H).
  exists body, rest; split; [|exact H].
  simpl; now rewrite <- app_assoc.
Qed.

(** A match of [\*\*[^*]+\*\*]. *)
Lemma bt_bold_inv {A} (s : str) (k : str -> option A) (x : A) :
  let st := "*"%char in
  Re.bt (Re.Cat (Re.One (Re.Chr st)) (Re.Cat (Re.One (Re.Chr st))
           (Re.Cat (Re.Plus (Re.NoneOf [st]))
              (Re.Cat (Re.One (Re.Chr st)) (Re.One (Re.Chr st)))))) s k
  = Some x ->
  exists body rest,
    s = (st :: (st :: body ++ [st]) ++ [st]) ++ rest /\ k rest = Some x.
Proof.
  intros st H.
  change (Re.bt (Re.One (Re.Chr st)) s
    (fun s1 => Re.bt (Re.One (Re.Chr st)) s1
       (fun s2 => Re.bt (Re.Plus (Re.NoneOf [st])) s2
          (fun s3 => Re.bt (Re.One (Re.Chr st)) s3
             (fun s4 => Re.bt (Re.One (Re.Chr st)) s4 k)))) = Some x) in H.
  apply bt_one_inv in H as (s1 & -> & H).
  apply bt_one_inv in H as (s2 & -> & H).
  apply bt_sound in H as (body & r1 & -> & _ & H).
  apply bt_one_inv in H as (r2 & -> & H).
  apply bt_one_inv in H as (rest & -> & H).
  exists body, rest; split; [|exact H].
  simpl; now rewrite <- !app_assoc.
Qed.

Lemma bt_alt_inv {A} (r1 r2 : Re.regex) (s : str) (k : str -> option A)
  (x : A) :
  Re.bt (Re.Alt r1 r2) s k = Some x ->
  Re.bt r1 s k = Some x \/ Re.bt r2 s k = Some x.
Proof.
  simpl; destruct (Re.bt r1 s k); [left | right]; assumption.
Qed.

(** At a delimiter the pattern matches, if at all, a text that starts and
    ends with that delimiter. *)
Lemma rmatch_pattern_delim (c : ascii) (s m rest : str) :
  is_delim c = true ->
  Re.rmatch pattern (c :: s) = Some (m, rest) ->
  exists x, m = c :: x ++ [c].
Proof.
  intros Hc H.
  pose proof (rmatch_sound _ _ _ _ H) as [Es _].
  unfold Re.rmatch in H.
  destruct (Re.bt pattern (c :: s) Some) as [rest0|] eqn:E; [|discriminate].
  inversion H; subst rest0; clear H.
  assert (forall M, c :: s = M ++ rest -> m = M) as Hm.
  { intros M EM; rewrite EM in Es; now apply app_inv_tail in Es. }
  unfold pattern in E; cbv zeta in E.
  apply bt_alt_inv in E as [E|E].
  { apply bt_delimited_inv in E as (b & r & E & Hr).
    inversion Hr; subst r. pose proof (Hm _ E) as ->.
    inversion E; subst; eauto. }
  apply bt_alt_inv in E as [E|E].
  { apply bt_bold_inv in E as (b & r & E & Hr).
    inversion Hr; subst r. pose proof (Hm _ E) as ->.
    inversion E; subst; eauto. }
  apply bt_alt_inv in E as [E|E].
  { apply bt_delimited_inv in E as (b & r & E & Hr).
    inversion Hr; subst r. pose proof (Hm _ E) as ->.
    inversion E; subst; eauto. }
  apply bt_alt_inv in E as [E|E].
  { apply bt_delimited_inv in E as (b & r & E & Hr).
    inversion Hr; subst r. pose proof (Hm _ E) as ->.
    inversion E; subst; eauto. }
  exfalso; cbn [Re.bt Re.plus_bt] in E.
  rewrite in_cset_nodelim in E; unfold nodelim in E.
  now rewrite Hc in E.
Qed.

(** ** [parse_inline_formatting] *)

(** The two copies build the same dictionary from a part. *)
Lemma rich_text_of_part_same (part : str) :
  SyncProblem.rich_text_of_part part = NotionClient.rich_text_of_part part.
Proof.
  unfold SyncProblem.rich_text_of_part, NotionClient.rich_text_of_part.
  destruct (startswith part "`" && endswith part "`"); [reflexivity|].
  destruct (startswith part "**" && endswith part "**"); [reflexivity|].
  destruct ((startswith part "*" && endswith part "*")
            || (startswith part "_" && endswith part "_")); reflexivity.
Qed.

Lemma for_parts_same (parts : list str) :
  forall acc,
  fold_left
    (fun (rich_text : list rich_text) (part : list ascii) =>
       if is_empty part then rich_text
       else rich_text ++ [SyncProblem.rich_text_of_part part])
    parts acc
  = fold_left
      (fun (rich_text : list rich_text) (part : list ascii) =>
         if is_empty part then rich_text
         else rich_text ++ [NotionClient.rich_text_of_part part])
      parts acc.
Proof.
  induction parts as [|p ps IH]; intros acc; simpl; [reflexivity|].
  now rewrite IH, rich_text_of_part_same.
Qed.

Lemma parse_inline_formatting_same (text : str) :
  SyncProblem.parse_inline_formatting text
  = NotionClient.parse_inline_formatting text.
Proof.
  unfold SyncProblem.parse_inline_formatting,
    NotionClient.parse_inline_formatting.
  cbv zeta; now rewrite for_parts_same.
Qed.

(** The [for] loop appends one dictionary per part. *)
Lemma for_parts (parts : list str) :
  Forall (fun m => m <> []) parts ->
  forall acc,
  fold_left
    (fun (rich_text : list rich_text) (part : list ascii) =>
       if is_empty part then rich_text
       else rich_text ++ [NotionClient.rich_text_of_part part])
    parts acc
  = acc ++ map NotionClient.rich_text_of_part parts.
Proof.
  induction 1 as [|p ps Hp _ IH]; intros acc; simpl.
  - now rewrite app_nil_r.
  - destruct p; [easy|]; simpl is_empty; cbv iota.
    now rewrite IH, <- app_assoc.
Qed.

Lemma parse_inline_formatting_eq (text : str) :
  NotionClient.parse_inline_formatting text =
  match Re.findall pattern text with
  | [] => [plain (slice_to 2000 text)]
  | parts => map NotionClient.rich_text_of_part parts
  end.
Proof.
  unfold NotionClient.parse_inline_formatting; cbv zeta.
  rewrite for_parts by apply findall_parts_nonempty.
  destruct (Re.findall pattern text); reflexivity.
Qed.

Lemma parse_inline_formatting_not_nil (text : str) :
  NotionClient.parse_inline_formatting text <> [].
Proof.
  rewrite parse_inline_formatting_eq.
  destruct (Re.findall pattern text); discriminate.
Qed.

Lemma rich_text_of_part_length (part : str) :
  length (content (NotionClient.rich_text_of_part part)) <= 2000.
Proof.
  unfold NotionClient.rich_text_of_part; cbv zeta.
  destruct (startswith part "`" && endswith part "`");
    [apply slice_to_length|].
  destruct (startswith part "**" && endswith part "**");
    [apply slice_to_length|].
  destruct ((startswith part "*" && endswith part "*")
            || (startswith part "_" && endswith part "_"));
    apply slice_to_length.
Qed.

Lemma parse_inline_formatting_bounded (text : str) (t : rich_text) :
  In t (NotionClient.parse_inline_formatting text) ->
  length (content t) <= 2000.
Proof.
  rewrite parse_inline_formatting_eq.
  destruct (Re.findall pattern text) as [|p ps].
  - intros [<-|[]]; apply slice_to_length.
  - intros H; apply in_map_iff in H as (q & <- & _).
    apply rich_text_of_part_length.
Qed.

Lemma startswith_single (c d : ascii) (s : str) :
  startswith (d :: s) [c] = Ascii.eqb c d.
Proof. simpl; apply andb_true_r. Qed.

Lemma endswith_snoc (c d : ascii) (s : str) :
  endswith (s ++ [d]) [c] = Ascii.eqb c d.
Proof.
  unfold endswith; rewrite rev_app_distr; simpl; apply andb_true_r.
Qed.

(** A part that starts with no delimiter becomes a plain span. *)
Lemma rich_text_of_part_plain (c : ascii) (m : str) :
  is_delim c = false ->
  NotionClient.rich_text_of_part (c :: m) = plain (slice_to 2000 (c :: m)).
Proof.
  unfold is_delim; intros Hc.
  apply orb_false_iff in Hc as [Hc H3].
  apply orb_false_iff in Hc as [H1 H2].
  rewrite Ascii.eqb_sym in H1, H2, H3.
  unfold NotionClient.rich_text_of_part; cbv zeta.
  change (startswith (c :: m) "`") with (Ascii.eqb "`" c && true).
  change (startswith (c :: m) "*") with (Ascii.eqb "*" c && true).
  change (startswith (c :: m) "_") with (Ascii.eqb "_" c && true).
  change (startswith (c :: m) "**")
    with (Ascii.eqb "*" c && startswith m "*").
  now rewrite H1, H2, H3.
Qed.

(** A part that starts and ends with the same delimiter becomes a styled
    span. *)
Lemma rich_text_of_part_styled (d : ascii) (x : str) :
  is_delim d = true ->
  is_plain (NotionClient.rich_text_of_part (d :: x ++ [d])) = false.
Proof.
  intros Hd; unfold NotionClient.rich_text_of_part; cbv zeta.
  cbn [lit list_ascii_of_string].
  change (d :: x ++ [d]) with ((d :: x) ++ [d]).
  rewrite !endswith_snoc.
  change ((d :: x) ++ [d]) with (d :: x ++ [d]).
  rewrite !startswith_single.
  destruct (Ascii.eqb "`" d) eqn:H1; [reflexivity|].
  cbn [andb].
  destruct (startswith _ (_ :: _ :: _) && _); [reflexivity|].
  destruct (Ascii.eqb "*" d) eqn:H2; [reflexivity|].
  destruct (Ascii.eqb "_" d) eqn:H3; [reflexivity|].
  unfold is_delim in Hd; rewrite Ascii.eqb_sym in H1, H2, H3.
  now rewrite H1, H2, H3 in Hd.
Qed.

Lemma dropwhile_head {A} (p : A -> bool) (ls : list A) :
  match dropwhile p ls with
  | [] => True
  | l :: _ => p l = false
  end.
Proof.
  induction ls as [|l ls IH]; simpl; [exact I|].
  destruct (p l) eqn:E; [exact IH | exact E].
Qed.

(** With nothing dropped by the scan, the part found at a delimiter is a
    styled one. *)
Lemma first_part_styled (c : ascii) (s : str) :
  is_delim c = true ->
  concat (Re.findall pattern (c :: s)) = c :: s ->
  match Re.findall pattern (c :: s) with
  | [] => True
  | m :: _ => is_plain (NotionClient.rich_text_of_part m) = false
  end.
Proof.
  intros Hc; rewrite findall_cons.
  destruct (Re.rmatch pattern (c :: s)) as [[m rest]|] eqn:E.
  - intros _; apply (rmatch_pattern_delim _ _ _ _ Hc) in E as [x ->].
    now apply rich_text_of_part_styled.
  - intros H; exfalso.
    pose proof (findall_from_length pattern (length s) s) as L.
    fold (Re.findall pattern s) in L; rewrite H in L; simpl in L; lia.
Qed.

Lemma no_adjacent_plain_parts (n : nat) :
  forall s, length s <= n ->
  concat (Re.findall pattern s) = s ->
  adjacent_plain (map NotionClient.rich_text_of_part (Re.findall pattern s))
  = false.
Proof.
  induction n as [|n IH]; intros s Hn Hs.
  - destruct s; [reflexivity | simpl in Hn; lia].
  - destruct s as [|c s]; [reflexivity|].
    rewrite findall_cons in Hs |- *.
    destruct (Re.rmatch pattern (c :: s)) as [[m rest]|] eqn:E.
    + pose proof (rmatch_sound _ _ _ _ E) as [Es Hm].
      simpl concat in Hs; rewrite Es in Hs.
      apply app_inv_head in Hs.
      assert (length rest <= n) as Hr.
      { assert (length (c :: s) = length (m ++ rest)) as L by now rewrite Es.
        rewrite length_app in L; destruct m; [easy|]; simpl in *; lia. }
      specialize (IH rest Hr Hs).
      destruct (Re.findall pattern rest) as [|m2 ps] eqn:F; [reflexivity|].
      change (adjacent_plain
                (map NotionClient.rich_text_of_part (m :: m2 :: ps)))
        with ((is_plain (NotionClient.rich_text_of_part m)
               && is_plain (NotionClient.rich_text_of_part m2))
              || adjacent_plain
                   (map NotionClient.rich_text_of_part (m2 :: ps))).
      rewrite IH, orb_false_r.
      destruct (is_delim c) eqn:Hc.
      * apply (rmatch_pattern_delim _ _ _ _ Hc) in E as [x ->].
        now rewrite rich_text_of_part_styled.
      * rewrite (rmatch_pattern_plain _ _ Hc) in E.
        injection E as _ Er.
        pose proof (dropwhile_head nodelim s) as Hd; rewrite Er in Hd.
        destruct rest as [|d r]; [rewrite findall_nil in F; discriminate|].
        assert (is_delim d = true) as Hdd
          by (unfold nodelim in Hd; now destruct (is_delim d)).
        pose proof (first_part_styled _ r Hdd) as P.
        rewrite F in P; rewrite (P Hs); apply andb_false_r.
    + exfalso.
      pose proof (findall_from_length pattern (length s) s) as L.
      fold (Re.findall pattern s) in L; rewrite Hs in L; simpl in L; lia.
Qed.

(** A text without delimiters is one part. *)
Lemma findall_no_delim (c : ascii) (s : str) :
  forallb nodelim (c :: s) = true ->
  Re.findall pattern (c :: s) = [c :: s].
Proof.
  simpl; intros H; apply andb_true_iff in H as [Hc Hs].
  rewrite findall_cons, rmatch_pattern_plain
    by (unfold nodelim in Hc; now destruct (is_delim c)).
  pose proof (takewhile_dropwhile nodelim s) as E.
  rewrite (takewhile_all _ _ Hs) in E |- *.
  assert (dropwhile nodelim s = []) as ->
    by (apply (app_inv_head s); now rewrite app_nil_r).
  reflexivity.
Qed.

(** ** The loops over the lines *)

Arguments startswith : simpl never.
Arguments strip : simpl never.
Arguments lit : simpl never.

Lemma skipn_beyond {A} (xs : list A) (i : nat) :
  length xs <= i -> skipn i xs = [].
Proof. intros H; now apply skipn_all2. Qed.

Lemma takewhile_skipn_step {A} (p : A -> bool) (xs : list A) (i : nat)
  (x : A) :
  nth_error xs i = Some x ->
  takewhile p (skipn i xs) =
  if p x then x :: takewhile p (skipn (S i) xs) else [].
Proof.
  intros H; rewrite (skipn_nth_error _ _ _ H); reflexivity.
Qed.

(** The table loop stops behind the maximal run of ['|'] lines and has
    appended that run. *)
Lemma table_loop_spec (lines : list str) (fuel : nat) :
  forall i acc, length lines - i <= fuel ->
  table_loop fuel lines i acc
  = Ok (i + length (table_run lines i), acc ++ table_run lines i).
Proof.
  unfold table_run.
  induction fuel as [|fuel IH]; intros i acc Hf.
  - assert ((i <? length lines) = false) as E by (apply Nat.ltb_ge; lia).
    simpl; rewrite E, skipn_beyond by lia; simpl.
    now rewrite Nat.add_0_r, app_nil_r.
  - simpl; destruct (i <? length lines) eqn:E.
    + apply Nat.ltb_lt in E.
      destruct (getitem_ok lines i E) as (line & G & N).
      rewrite G; simpl; rewrite (takewhile_skipn_step _ _ _ _ N).
      destruct (startswith line "|").
      * rewrite IH by lia; simpl.
        rewrite <- app_assoc, Nat.add_1_r; simpl.
        now rewrite Nat.add_succ_r.
      * simpl; now rewrite Nat.add_0_r, app_nil_r.
    + apply Nat.ltb_ge in E; rewrite skipn_beyond by lia; simpl.
      now rewrite Nat.add_0_r, app_nil_r.
Qed.

(** The fence loop stops at the next line starting with three backticks,
    or behind the last line, and has appended the lines it passed. *)
Lemma code_loop_spec (lines : list str) (fuel : nat) :
  forall i acc, length lines - i <= fuel ->
  let run := takewhile (fun l => negb (startswith l "```")) (skipn i lines) in
  code_loop fuel lines i acc = Ok (i + length run, acc ++ run).
Proof.
  induction fuel as [|fuel IH]; intros i acc Hf.
  - assert ((i <? length lines) = false) as E by (apply Nat.ltb_ge; lia).
    simpl; rewrite E, skipn_beyond by lia; simpl.
    now rewrite Nat.add_0_r, app_nil_r.
  - simpl; destruct (i <? length lines) eqn:E.
    + apply Nat.ltb_lt in E.
      destruct (getitem_ok lines i E) as (line & G & N).
      rewrite G; simpl; rewrite (takewhile_skipn_step _ _ _ _ N).
      destruct (startswith line "```").
      * simpl; now rewrite Nat.add_0_r, app_nil_r.
      * simpl; specialize (IH (i + 1) (acc ++ [line])); simpl in IH.
        rewrite IH by lia.
        rewrite <- app_assoc, Nat.add_1_r; simpl.
        now rewrite Nat.add_succ_r.
    + apply Nat.ltb_ge in E; rewrite skipn_beyond by lia; simpl.
      now rewrite Nat.add_0_r, app_nil_r.
Qed.

Lemma table_spec (lines : list str) (fuel i : nat) (blocks : list block) :
  length lines <= fuel ->
  table fuel lines i blocks
  = Ok (i + length (table_run lines i),
        blocks ++ [code (code_text (table_run lines i)) "plain text"]).
Proof.
  intros Hf; unfold table; cbv zeta.
  now rewrite table_loop_spec by lia.
Qed.

Lemma fence_spec (valid_langs : list str) (lines : list str) (fuel i : nat)
  (line : str) (blocks : list block) :
  length lines <= fuel ->
  fence valid_langs fuel lines i line blocks
  = Ok (i + 1 + length (fence_run lines i) + 1,
        blocks ++
          [code (code_text (fence_run lines i))
             (let lang := or_else (strip (slice_from 3 line)) "plain text" in
              if contains valid_langs lang then lang else "plain text")]).
Proof.
  intros Hf; unfold fence, fence_run; cbv zeta.
  pose proof (code_loop_spec lines fuel (i + 1) []) as S.
  cbv zeta in S; rewrite S by lia; reflexivity.
Qed.

(** The main loop, given a body that advances and keeps an invariant. *)
Lemma while_loop_inv
  (body : list str -> nat -> list block -> result (nat * list block))
  (Q : list block -> Prop) (lines : list str) :
  (forall i blocks, i < length lines -> Q blocks ->
     exists n blocks', body lines i blocks = Ok (i + S n, blocks')
                       /\ Q blocks') ->
  forall fuel i blocks, length lines - i <= fuel -> Q blocks ->
  exists out, while_loop body fuel lines i blocks = Ok out /\ Q out.
Proof.
  intros Hbody; induction fuel as [|fuel IH]; intros i blocks Hf HQ.
  - assert ((i <? length lines) = false) as E by (apply Nat.ltb_ge; lia).
    simpl; rewrite E; eauto.
  - simpl; destruct (i <? length lines) eqn:E; [|eauto].
    apply Nat.ltb_lt in E.
    destruct (Hbody i blocks E HQ) as (n & blocks' & -> & HQ').
    simpl; apply IH; [lia | exact HQ'].
Qed.

(** Two bodies that agree on every line give the same loop. *)
Lemma while_loop_ext
  (body1 body2 : list str -> nat -> list block -> result (nat * list block))
  (lines : list str) :
  (forall i blocks, i < length lines ->
     body1 lines i blocks = body2 lines i blocks) ->
  forall fuel i blocks,
  while_loop body1 fuel lines i blocks = while_loop body2 fuel lines i blocks.
Proof.
  intros Hbody; induction fuel as [|fuel IH]; intros i blocks;
    [reflexivity|].
  simpl; destruct (i <? length lines) eqn:E; [|reflexivity].
  apply Nat.ltb_lt in E; rewrite Hbody by exact E.
  destruct (body2 lines i blocks) as [[i' blocks']| |]; simpl; auto.
Qed.

(** A loop that ends within its budget ends the same way with a larger
    one. *)
Lemma while_loop_more
  (body1 body2 : list str -> nat -> list block -> result (nat * list block))
  (lines : list str) :
  (forall i blocks r, body1 lines i blocks = Ok r ->
     body2 lines i blocks = Ok r) ->
  forall f1 f2 i blocks out, f1 <= f2 ->
  while_loop body1 f1 lines i blocks = Ok out ->
  while_loop body2 f2 lines i blocks = Ok out.
Proof.
  intros Hbody; induction f1 as [|f1 IH]; intros f2 i blocks out Hf.
  - simpl; destruct (i <? length lines) eqn:E; [discriminate|].
    intros H; destruct f2; simpl; now rewrite E.
  - destruct f2 as [|f2]; [lia|].
    simpl; destruct (i <? length lines) eqn:E; [|auto].
    destruct (body1 lines i blocks) as [[i' blocks']| |] eqn:B;
      try discriminate.
    rewrite (Hbody _ _ _ B); simpl; apply IH; lia.
Qed.

(** ** One round of the main loop *)

Create HintDb notion.

Lemma good_of_parse (b : block) (text : str) :
  block_rich_text b = Some (NotionClient.parse_inline_formatting text) ->
  good b.
Proof.
  intros H; split.
  - intros rt E; rewrite H in E; inversion E; subst.
    apply parse_inline_formatting_not_nil.
  - intros rt t E; rewrite H in E; inversion E; subst.
    apply parse_inline_formatting_bounded.
Qed.

Lemma good_code (ls : list str) (lang : str) : good (code (code_text ls) lang).
Proof.
  split.
  - intros rt E; inversion E; discriminate.
  - intros rt t E; inversion E; subst; intros [<-|[]]; apply slice_to_length.
Qed.

Lemma good_divider : good divider.
Proof. split; intros rt; discriminate. Qed.

#[export] Hint Resolve good_code good_divider : notion.
#[export] Hint Extern 1 (good _) =>
  (eapply good_of_parse; reflexivity) : notion.

Lemma table_run_cons (lines : list str) (i : nat) (line : str) :
  nth_error lines i = Some line -> startswith line "|" = true ->
  table_run lines i = line :: table_run lines (S i).
Proof.
  intros N H; unfold table_run.
  now rewrite (takewhile_skipn_step _ _ _ _ N), H.
Qed.

Ltac step_done :=
  solve [ exists 0, []; rewrite app_nil_r; split;
          [reflexivity | constructor]
        | eexists 0, [_]; split;
          [reflexivity
          | apply Forall_cons; [auto with notion | apply Forall_nil]] ].

Ltac split_ifs :=
  repeat (match goal with
          | |- context [if ?b then _ else _] => destruct b eqn:?
          end; try step_done).

(** A round of [markdown_to_blocks] on a line in range returns, moves on by
    at least one line and appends blocks that keep both invariants. *)
Lemma loop_body_progress (fuel : nat) (lines : list str) (i : nat)
  (blocks : list block) :
  i < length lines -> length lines <= fuel ->
  exists n new,
    NotionClient.loop_body fuel lines i blocks = Ok (i + S n, blocks ++ new)
    /\ Forall good new.
Proof.
  intros Hi Hf; unfold NotionClient.loop_body.
  destruct (getitem_ok lines i Hi) as (line & -> & N); cbn [bind].
  rewrite (fence_spec _ _ _ _ _ _ Hf), (table_spec _ _ _ _ Hf).
  split_ifs.
  - rewrite (table_run_cons _ _ _ N) by assumption.
    eexists _, [_]; split;
      [reflexivity | apply Forall_cons; [auto with notion | apply Forall_nil]].
  - eexists (length (fence_run lines i) + 1), [_]; split;
      [|apply Forall_cons; [apply good_code | apply Forall_nil]].
    replace (i + 1 + length (fence_run lines i) + 1)
      with (i + S (length (fence_run lines i) + 1)) by lia.
    reflexivity.
Qed.

Lemma loop_body_progress_sync (fuel : nat) (lines : list str) (i : nat)
  (blocks : list block) :
  i < length lines -> length lines <= fuel ->
  exists n new,
    SyncProblem.loop_body fuel lines i blocks = Ok (i + S n, blocks ++ new)
    /\ Forall good new.
Proof.
  intros Hi Hf; unfold SyncProblem.loop_body.
  destruct (getitem_ok lines i Hi) as (line & -> & N); cbn [bind].
  rewrite (fence_spec _ _ _ _ _ _ Hf), (table_spec _ _ _ _ Hf).
  cbv zeta; rewrite !parse_inline_formatting_same.
  split_ifs.
  - rewrite (table_run_cons _ _ _ N) by assumption.
    eexists _, [_]; split;
      [reflexivity | apply Forall_cons; [auto with notion | apply Forall_nil]].
  - eexists (length (fence_run lines i) + 1), [_]; split;
      [|apply Forall_cons; [apply good_code | apply Forall_nil]].
    replace (i + 1 + length (fence_run lines i) + 1)
      with (i + S (length (fence_run lines i) + 1)) by lia.
    reflexivity.
  - eexists (length (fence_run lines i) + 1), [_]; split;
      [|apply Forall_cons; [apply good_code | apply Forall_nil]].
    replace (i + 1 + length (fence_run lines i) + 1)
      with (i + S (length (fence_run lines i) + 1)) by lia.
    reflexivity.
Qed.

(** The budget of the inner loops does not matter once it covers the
    lines. *)
Lemma loop_body_stable (f1 f2 : nat) (lines : list str) (i : nat)
  (blocks : list block) :
  length lines <= f1 -> length lines <= f2 ->
  NotionClient.loop_body f1 lines i blocks
  = NotionClient.loop_body f2 lines i blocks.
Proof.
  intros H1 H2; unfold NotionClient.loop_body.
  destruct (getitem lines i); cbn [bind]; [|reflexivity..].
  now rewrite !fence_spec, !table_spec by assumption.
Qed.

(** The converter returns, and its blocks keep both invariants. *)
Lemma markdown_to_blocks_good (markdown : str) :
  exists blocks,
    NotionClient.markdown_to_blocks markdown = Ok blocks
    /\ Forall good blocks.
Proof.
  unfold NotionClient.markdown_to_blocks,
    NotionClient.markdown_to_blocks_within; cbv zeta.
  apply while_loop_inv; [|lia|constructor].
  intros i blocks Hi HQ.
  destruct (loop_body_progress _ _ i blocks Hi (le_n _))
    as (n & new & E & Hnew).
  exists n, (blocks ++ new); split; [exact E|].
  apply Forall_app; split; assumption.
Qed.

Lemma markdown_to_blocks_more (markdown : str) (extra : nat)
  (blocks : list block) :
  NotionClient.markdown_to_blocks markdown = Ok blocks ->
  NotionClient.markdown_to_blocks_within
    (length (split nl markdown) + extra) markdown = Ok blocks.
Proof.
  unfold NotionClient.markdown_to_blocks,
    NotionClient.markdown_to_blocks_within; cbv zeta.
  apply while_loop_more; [|lia].
  intros i bs r H.
  rewrite (loop_body_stable _ (length (split nl markdown))) by lia.
  exact H.
Qed.

(** ** Results *)

(** C4: the converter is total. For every input [markdown_to_blocks]
    returns a block list: no subscript raises, the loops end within as many
    rounds as there are lines, and a larger budget gives the same list. The
    empty string gives no block, an unterminated fence a code block. *)
Theorem markdown_to_blocks_total :
  (forall markdown, exists blocks,
     NotionClient.markdown_to_blocks markdown = Ok blocks
     /\ forall extra,
        NotionClient.markdown_to_blocks_within
          (length (split nl markdown) + extra) markdown = Ok blocks)
  /\ NotionClient.markdown_to_blocks "" = Ok []
  /\ NotionClient.markdown_to_blocks unterminated_fence
     = Ok [code [mk_text "x = 1" None] "python"].
Proof.
  split; [|split; vm_compute; reflexivity].
  intros markdown.
  destruct (markdown_to_blocks_good markdown) as (blocks & E & _).
  exists blocks; split; [exact E|].
  intros extra; now apply markdown_to_blocks_more.
Qed.

(** C10: the inline parser drops a delimiter that forms no pair. On
    ["a*b"] the spans are plain ["a"] and plain ["b"], so their contents do
    not add up to the input; on a text without delimiter characters the
    contents add up to the text cut to 2000 characters, in both copies. *)
Theorem unpaired_delimiter_dropped :
  (NotionClient.parse_inline_formatting stray = [plain "a"; plain "b"]
   /\ contents (NotionClient.parse_inline_formatting stray) <> stray
   /\ SyncProblem.parse_inline_formatting stray = [plain "a"; plain "b"])
  /\ (forall text, forallb nodelim text = true ->
      contents (NotionClient.parse_inline_formatting text)
      = slice_to 2000 text
      /\ contents (SyncProblem.parse_inline_formatting text)
         = slice_to 2000 text).
Proof.
  split; [repeat split; vm_compute; (reflexivity || discriminate)|].
  intros text H; rewrite parse_inline_formatting_same.
  assert (NotionClient.parse_inline_formatting text
          = [plain (slice_to 2000 text)]) as ->.
  { rewrite parse_inline_formatting_eq.
    destruct text as [|c s]; [reflexivity|].
    rewrite (findall_no_delim _ _ H); simpl map.
    rewrite rich_text_of_part_plain; [reflexivity|].
    simpl in H; apply andb_true_iff in H as [Hc _].
    unfold nodelim in Hc; now destruct (is_delim c). }
  unfold contents; simpl; now rewrite app_nil_r.
Qed.

Lemma unpaired_delimiter_dropped_witness :
  forallb nodelim hello_world = true
  /\ contents (NotionClient.parse_inline_formatting hello_world)
     = slice_to 2000 hello_world.
Proof.
  split; [reflexivity|].
  apply (proj2 unpaired_delimiter_dropped hello_world); reflexivity.
Defined.

(** C3, as amended: the example parses to six spans, plain ["Hello "],
    bold ["bold"], plain [" and "], code ["code"], plain [" and "], italic
    ["italic"]; and whenever the scan drops no character of the text, no
    two neighbouring spans are both plain. *)
Theorem parse_spans_example :
  NotionClient.parse_inline_formatting span_example
  = [plain "Hello "; bold "bold"; plain " and "; code_span "code";
     plain " and "; italic "italic"]
  /\ (forall text, concat (Re.findall pattern text) = text ->
      adjacent_plain (NotionClient.parse_inline_formatting text) = false
      /\ adjacent_plain (SyncProblem.parse_inline_formatting text) = false).
Proof.
  split; [vm_compute; reflexivity|].
  intros text H; rewrite parse_inline_formatting_same.
  assert (adjacent_plain (NotionClient.parse_inline_formatting text)
          = false) as E; [|now split].
  rewrite parse_inline_formatting_eq.
  destruct (Re.findall pattern text) as [|p ps] eqn:F; [reflexivity|].
  rewrite <- F; apply no_adjacent_plain_parts with (n := length text);
    [lia | now rewrite F].
Qed.

Lemma parse_spans_example_witness :
  concat (Re.findall pattern span_example) = span_example
  /\ adjacent_plain (NotionClient.parse_inline_formatting span_example)
     = false.
Proof.
  split; [reflexivity|].
  apply (proj2 parse_spans_example span_example); reflexivity.
Defined.

(** C3 as stated fails: the example has six spans, not five, and ["a*b"]
    parses to two neighbouring plain spans. *)
Lemma parse_spans_counterexample :
  length (NotionClient.parse_inline_formatting span_example) = 6
  /\ NotionClient.parse_inline_formatting stray = [plain "a"; plain "b"]
  /\ adjacent_plain (NotionClient.parse_inline_formatting stray) = true.
Proof. repeat split. Qed.

Lemma rich_text_of_part_truncates (part : str) :
  exists full,
    (full = part \/ full = slice_between 1 1 part
     \/ full = slice_between 2 2 part)
    /\ content (NotionClient.rich_text_of_part part) = slice_to 2000 full.
Proof.
  unfold NotionClient.rich_text_of_part; cbv zeta.
  destruct (startswith part "`" && endswith part "`"); [eauto|].
  destruct (startswith part "**" && endswith part "**"); [eauto 6|].
  destruct ((startswith part "*" && endswith part "*")
            || (startswith part "_" && endswith part "_")); eauto.
Qed.

(** A text without a delimiter character is one plain run. *)
Lemma parse_no_delim (text : str) :
  forallb nodelim text = true ->
  NotionClient.parse_inline_formatting text = [plain (slice_to 2000 text)].
Proof.
  intros H; rewrite parse_inline_formatting_eq.
  destruct text as [|c s]; [reflexivity|].
  rewrite (findall_no_delim _ _ H); simpl map.
  rewrite rich_text_of_part_plain; [reflexivity|].
  simpl in H; apply andb_true_iff in H as [Hc _].
  unfold nodelim in Hc; now destruct (is_delim c).
Qed.

(** C5, as amended: every block of the output that carries a span list
    carries a non-empty one; a text without a delimiter character
    (backtick, asterisk, underscore), in which no markup can match,
    becomes one plain span that holds the text cut to its first 2000
    characters, in both copies; and so does a text in which the scan finds
    no part at all (the empty text, or delimiter characters that form no
    pair). The line ["hello world"] becomes a paragraph with the one plain
    span ["hello world"]. *)
Theorem span_lists_nonempty :
  (forall markdown, exists blocks,
     NotionClient.markdown_to_blocks markdown = Ok blocks
     /\ Forall spans_nonempty blocks)
  /\ (forall text, forallb nodelim text = true ->
      NotionClient.parse_inline_formatting text
      = [plain (slice_to 2000 text)]
      /\ SyncProblem.parse_inline_formatting text
         = [plain (slice_to 2000 text)])
  /\ (forall text, Re.findall pattern text = [] ->
      NotionClient.parse_inline_formatting text
      = [plain (slice_to 2000 text)])
  /\ NotionClient.markdown_to_blocks hello_world
     = Ok [paragraph [plain hello_world]].
Proof.
  split; [|split; [|split; [|vm_compute; reflexivity]]].
  - intros markdown.
    destruct (markdown_to_blocks_good markdown) as (blocks & E & G).
    exists blocks; split; [exact E|].
    eapply Forall_impl; [|exact G]; now intros b [H _].
  - intros text H; rewrite parse_inline_formatting_same.
    split; exact (parse_no_delim text H).
  - intros text H; now rewrite parse_inline_formatting_eq, H.
Qed.

Lemma span_lists_nonempty_witness :
  (forallb nodelim hello_world = true
   /\ NotionClient.parse_inline_formatting hello_world
      = [plain (slice_to 2000 hello_world)]
   /\ SyncProblem.parse_inline_formatting hello_world
      = [plain (slice_to 2000 hello_world)])
  /\ Re.findall pattern "***" = []
  /\ NotionClient.parse_inline_formatting "***"
     = [plain (slice_to 2000 "***")].
Proof.
  split; [split; [reflexivity|]|split; [reflexivity|]].
  - apply (proj1 (proj2 span_lists_nonempty) hello_world); reflexivity.
  - apply (proj1 (proj2 (proj2 span_lists_nonempty)) "***"); reflexivity.
Defined.

(** C5 as stated fails: a line of 2001 asterisks matches no pattern, and
    its span holds 2000 of them, not the whole line; and in ["a*b"] no
    markup matches either, yet the line becomes two spans. *)
Lemma span_lists_counterexample :
  Re.findall pattern stars = []
  /\ NotionClient.markdown_to_blocks stars
     = Ok [paragraph [plain (repeat "*"%char 2000)]]
  /\ NotionClient.parse_inline_formatting stars <> [plain stars]
  /\ NotionClient.markdown_to_blocks stray
     = Ok [paragraph [plain "a"; plain "b"]].
Proof.
  split; [vm_compute; reflexivity|].
  split; [vm_compute; reflexivity|].
  split; [|vm_compute; reflexivity].
  intros H; apply (f_equal (fun l => length (contents l))) in H.
  vm_compute in H; discriminate.
Qed.



(** ** The branch a line takes *)

Lemma matches_numbered_nondigit (c : ascii) (s : str) :
  isdigit c = false -> Re.matches numbered (c :: s) = false.
Proof.
  intros H; unfold Re.matches, Re.rmatch, numbered.
  cbn [Re.bt Re.plus_bt Re.in_cset]; now rewrite H.
Qed.

(** The horizontal-rule test fails on a line whose second character is not
    a dash. *)
Lemma hr_second_char (c1 c2 : ascii) (rest : str) :
  isspace c1 = false -> Ascii.eqb c2 "-" = false ->
  Py.eqb (strip (c1 :: c2 :: rest)) "---" = false.
Proof.
  intros H1 H2; rewrite strip_cons_nonspace by assumption.
  rewrite rstrip_cons.
  unfold lit; cbn [list_ascii_of_string Py.eqb].
  destruct (rstrip rest); [destruct (isspace c2)|];
    cbn [Py.eqb]; rewrite ?H2, ?andb_false_r; reflexivity.
Qed.

Lemma language_eq (valid_langs : list str) (line : str) :
  (let lang := or_else (strip (slice_from 3 line)) "plain text" in
   if contains valid_langs lang then lang else "plain text")
  = fence_language valid_langs line.
Proof.
  unfold fence_language; cbv zeta.
  destruct (strip (slice_from 3 line)) as [|c t]; cbn [or_else is_empty orb].
  - now destruct (contains valid_langs "plain text").
  - now destruct (contains valid_langs (c :: t)).
Qed.

Ltac decide_tests :=
  repeat match goal with
  | |- context [startswith ?s ?p] =>
      first [ replace (startswith s p) with false by reflexivity
            | replace (startswith s p) with true by reflexivity ]
  | |- context [Py.eqb ?s ?p] =>
      replace (Py.eqb s p) with false by reflexivity
  end.

(** Open a round of the loop on the line at index [i], known by a literal
    prefix. *)
Ltac open_line N H :=
  unfold getitem; rewrite N; cbn [bind];
  let rest := fresh "rest" in
  let E := fresh "E" in
  apply startswith_inv in H as [rest E];
  unfold lit in E; simpl in E; subst.

Ltac close_line :=
  rewrite ?strip_cons_nonspace by reflexivity;
  decide_tests;
  rewrite ?matches_numbered_nondigit by reflexivity;
  cbn [is_empty orb andb negb].

Lemma table_step (fuel : nat) (lines : list str) (i : nat)
  (blocks : list block) (line : str) :
  nth_error lines i = Some line -> startswith line "|" = true ->
  length lines <= fuel ->
  NotionClient.loop_body fuel lines i blocks
  = Ok (i + length (table_run lines i),
        blocks ++ [code (code_text (table_run lines i)) "plain text"]).
Proof.
  intros N H Hf; unfold NotionClient.loop_body.
  rewrite table_spec by assumption.
  open_line N H; close_line; reflexivity.
Qed.

Lemma table_run_maximal (lines : list str) (i : nat) :
  Forall (fun l => startswith l "|" = true) (table_run lines i)
  /\ match nth_error lines (i + length (table_run lines i)) with
     | Some l => startswith l "|" = false
     | None => True
     end.
Proof.
  unfold table_run; rewrite <- nth_error_skipn.
  induction (skipn i lines) as [|l ls [IH1 IH2]]; simpl; [auto|].
  destruct (startswith l "|") eqn:E; simpl; auto.
Qed.

Lemma fence_step (fuel : nat) (lines : list str) (i : nat)
  (blocks : list block) (line : str) :
  nth_error lines i = Some line -> startswith line "```" = true ->
  length lines <= fuel ->
  NotionClient.loop_body fuel lines i blocks
  = Ok (i + 1 + length (fence_run lines i) + 1,
        blocks ++
          [code (code_text (fence_run lines i))
             (fence_language NotionClient.valid_langs line)]).
Proof.
  intros N H Hf; unfold NotionClient.loop_body.
  open_line N H; rewrite fence_spec, language_eq by assumption.
  close_line; reflexivity.
Qed.

Lemma fence_step_sync (fuel : nat) (lines : list str) (i : nat)
  (blocks : list block) (line : str) :
  nth_error lines i = Some line -> startswith line "```" = true ->
  length lines <= fuel ->
  SyncProblem.loop_body fuel lines i blocks
  = Ok (i + 1 + length (fence_run lines i) + 1,
        blocks ++
          [code (code_text (fence_run lines i))
             (fence_language SyncProblem.valid_langs line)]).
Proof.
  intros N H Hf; unfold SyncProblem.loop_body.
  open_line N H; rewrite fence_spec, language_eq by assumption.
  close_line; reflexivity.
Qed.

Lemma heading_4_step (fuel : nat) (lines : list str) (i : nat)
  (blocks : list block) (line : str) :
  nth_error lines i = Some line -> startswith line "#### " = true ->
  NotionClient.loop_body fuel lines i blocks
  = Ok (i + 1,
        blocks ++
          [heading_3
             (NotionClient.parse_inline_formatting
                (strip (slice_from 5 line)))]).
Proof.
  intros N H; unfold NotionClient.loop_body.
  open_line N H; close_line; reflexivity.
Qed.

Lemma heading_1_step (fuel : nat) (lines : list str) (i : nat)
  (blocks : list block) (line : str) :
  nth_error lines i = Some line -> startswith line "# " = true ->
  NotionClient.loop_body fuel lines i blocks = Ok (i + 1, blocks).
Proof.
  intros N H; unfold NotionClient.loop_body.
  open_line N H; close_line; reflexivity.
Qed.

(** C7, as amended: a line starting with ['|'] converts, with the lines
    starting with ['|'] that follow it without interruption, to exactly one
    code block tagged ["plain text"] whose body is the first 2000 characters
    of those lines joined by newlines; the run is maximal, so a blank line
    ends it. Three such lines in a row give one code block, two with a
    blank line between them give two. *)
Theorem table_run_one_code_block :
  (forall fuel lines i blocks line,
     nth_error lines i = Some line -> startswith line "|" = true ->
     length lines <= fuel ->
     NotionClient.loop_body fuel lines i blocks
     = Ok (i + length (table_run lines i),
           blocks ++
             [code [mk_text (slice_to 2000 (join [nl] (table_run lines i)))
                      None] "plain text"])
     /\ Forall (fun l => startswith l "|" = true) (table_run lines i)
     /\ match nth_error lines (i + length (table_run lines i)) with
        | Some l => startswith l "|" = false
        | None => True
        end)
  /\ NotionClient.markdown_to_blocks three_rows
     = Ok [code [mk_text three_rows None] "plain text"]
  /\ NotionClient.markdown_to_blocks two_rows_apart
     = Ok [code [mk_text "|a|b|" None] "plain text";
           code [mk_text "|1|2|" None] "plain text"].
Proof.
  split; [|split; vm_compute; reflexivity].
  intros fuel lines i blocks line N H Hf; split.
  - now apply table_step with line.
  - apply table_run_maximal.
Qed.

Lemma table_run_one_code_block_witness :
  NotionClient.loop_body 3 (split nl three_rows) 0 []
  = Ok (0 + length (table_run (split nl three_rows) 0),
        [] ++
          [code [mk_text (slice_to 2000
                            (join [nl] (table_run (split nl three_rows) 0)))
                   None] "plain text"]).
Proof.
  apply (proj1 table_run_one_code_block 3 (split nl three_rows) 0 []
           (lit "|a|b|")); [reflexivity | reflexivity | vm_compute; lia].
Defined.

(** C7 as stated fails: the body of the code block of a single table line
    of 2001 characters is not that line. *)
Lemma table_run_counterexample :
  table_run (split nl long_row) 0 = [long_row]
  /\ NotionClient.markdown_to_blocks long_row
     <> Ok [code [mk_text (join [nl] (table_run (split nl long_row) 0)) None]
              "plain text"].
Proof.
  split; [vm_compute; reflexivity|].
  intros H.
  apply (f_equal (fun r => match r with
                           | Ok [code [t] _] => length (content t)
                           | _ => 0
                           end)) in H.
  vm_compute in H; discriminate.
Qed.

(** C8: ["#### Deep Title"] converts to a heading-3 block with the text
    ["Deep Title"] and ["# Top"] to no block; a line starting with
    ["#### "] always gives a heading-3 block, a line starting with ["# "]
    is always skipped. *)
Theorem heading_collapse :
  NotionClient.markdown_to_blocks "#### Deep Title"
  = Ok [heading_3 [plain "Deep Title"]]
  /\ NotionClient.markdown_to_blocks "# Top" = Ok []
  /\ (forall fuel lines i blocks line,
        nth_error lines i = Some line -> startswith line "#### " = true ->
        NotionClient.loop_body fuel lines i blocks
        = Ok (i + 1,
              blocks ++
                [heading_3
                   (NotionClient.parse_inline_formatting
                      (strip (slice_from 5 line)))]))
  /\ (forall fuel lines i blocks line,
        nth_error lines i = Some line -> startswith line "# " = true ->
        NotionClient.loop_body fuel lines i blocks = Ok (i + 1, blocks)).
Proof.
  split; [vm_compute; reflexivity|].
  split; [vm_compute; reflexivity|].
  split; intros fuel lines i blocks line N H.
  - now apply heading_4_step.
  - now apply heading_1_step with line.
Qed.

Lemma heading_collapse_witness :
  NotionClient.loop_body 1 [lit "#### Deep Title"] 0 []
  = Ok (0 + 1,
        [] ++
          [heading_3
             (NotionClient.parse_inline_formatting
                (strip (slice_from 5 (lit "#### Deep Title"))))])
  /\ NotionClient.loop_body 1 [lit "# Top"] 0 [] = Ok (0 + 1, []).
Proof.
  split.
  - apply (proj1 (proj2 (proj2 heading_collapse)) 1
             [lit "#### Deep Title"] 0 [] (lit "#### Deep Title"));
      reflexivity.
  - apply (proj2 (proj2 (proj2 heading_collapse)) 1
             [lit "# Top"] 0 [] (lit "# Top")); reflexivity.
Defined.

(** C9: the code block of a fenced run carries the text after the opening
    fence, trimmed, as its language, and ["plain text"] when that text is
    empty or not in the allow-list of the copy; ["ruby"] becomes
    ["plain text"] under any allow-list without it (that of
    sync-problem-to-notion.py), ["python"] is kept under any allow-list
    with it. *)
Theorem fence_language_gating :
  (forall fuel lines i blocks line,
     nth_error lines i = Some line -> startswith line "```" = true ->
     length lines <= fuel ->
     NotionClient.loop_body fuel lines i blocks
     = Ok (i + 1 + length (fence_run lines i) + 1,
           blocks ++
             [code (code_text (fence_run lines i))
                (fence_language NotionClient.valid_langs line)])
     /\ SyncProblem.loop_body fuel lines i blocks
        = Ok (i + 1 + length (fence_run lines i) + 1,
              blocks ++
                [code (code_text (fence_run lines i))
                   (fence_language SyncProblem.valid_langs line)]))
  /\ (forall allow, contains allow "ruby" = false ->
      fence_language allow "```ruby" = "plain text")
  /\ (forall allow, contains allow "python" = true ->
      fence_language allow "```python" = "python")
  /\ SyncProblem.markdown_to_notion_blocks ruby_fence
     = Ok [code [mk_text "x = 1" None] "plain text"]
  /\ NotionClient.markdown_to_blocks ruby_fence
     = Ok [code [mk_text "x = 1" None] "ruby"]
  /\ SyncProblem.markdown_to_notion_blocks python_fence
     = Ok [code [mk_text "x = 1" None] "python"]
  /\ NotionClient.markdown_to_blocks python_fence
     = Ok [code [mk_text "x = 1" None] "python"].
Proof.
  split; [|split; [|split; [|repeat split; vm_compute; reflexivity]]].
  - intros fuel lines i blocks line N H Hf; split.
    + now apply fence_step.
    + now apply fence_step_sync.
  - intros allow H; unfold fence_language.
    replace (strip (slice_from 3 "```ruby")) with (lit "ruby")
      by reflexivity.
    cbv zeta; now rewrite H.
  - intros allow H; unfold fence_language.
    replace (strip (slice_from 3 "```python")) with (lit "python")
      by reflexivity.
    cbv zeta; now rewrite H.
Qed.

Lemma fence_language_gating_witness :
  fence_language SyncProblem.valid_langs "```ruby" = "plain text"
  /\ fence_language SyncProblem.valid_langs "```python" = "python"
  /\ SyncProblem.loop_body 3 (split nl ruby_fence) 0 []
     = Ok (0 + 1 + length (fence_run (split nl ruby_fence) 0) + 1,
           [] ++
             [code (code_text (fence_run (split nl ruby_fence) 0))
                (fence_language SyncProblem.valid_langs "```ruby")]).
Proof.
  split; [|split].
  - apply (proj1 (proj2 fence_language_gating)); reflexivity.
  - apply (proj1 (proj2 (proj2 fence_language_gating))); reflexivity.
  - apply (proj1 fence_language_gating 3 (split nl ruby_fence) 0 []
             (lit "```ruby")); [reflexivity | reflexivity | vm_compute; lia].
Defined.

(** ** The two copies compared *)

(** A checkbox line is a bullet line whose trimmed remainder starts with
    the checkbox. *)
Lemma checkbox_is_bullet (line : str) :
  startswith line "- [ ] " || startswith line "- [x] " = true ->
  startswith line "- " = true
  /\ startswith (strip (slice_from 2 line)) "[ ]"
     || startswith (strip (slice_from 2 line)) "[x]" = true.
Proof.
  intros H; apply orb_true_iff in H as [H|H];
    apply startswith_inv in H as [rest E];
    unfold lit in E; simpl in E; subst line;
    (split; [reflexivity|]);
    unfold slice_from; cbn [skipn];
    rewrite strip_cons_nonspace by reflexivity;
    rewrite !rstrip_cons;
    destruct (rstrip rest); reflexivity.
Qed.

Lemma langs_agree (tag : str) :
  contains ["go" : str; "ruby" : str; "java" : str] tag = false ->
  contains NotionClient.valid_langs (or_else tag "plain text")
  = contains SyncProblem.valid_langs (or_else tag "plain text").
Proof.
  intros H.
  change NotionClient.valid_langs
    with (SyncProblem.valid_langs
          ++ ["go" : str; "ruby" : str; "java" : str]).
  unfold contains in *; rewrite existsb_app.
  destruct tag as [|c t]; cbn [or_else].
  - now rewrite orb_false_r.
  - now rewrite H, orb_false_r.
Qed.

(** On a line outside the three cases of [copies_differ_on] the two loop
    bodies do the same. *)
Lemma loop_bodies_agree (fuel : nat) (lines : list str) (i : nat)
  (blocks : list block) (line : str) :
  nth_error lines i = Some line -> copies_differ_on line = false ->
  SyncProblem.loop_body fuel lines i blocks
  = NotionClient.loop_body fuel lines i blocks.
Proof.
  intros N D; unfold copies_differ_on in D.
  apply orb_false_iff in D as [D D3].
  apply orb_false_iff in D as [D1 D2].
  unfold SyncProblem.loop_body, NotionClient.loop_body, getitem.
  rewrite N; cbn [bind]; cbv zeta.
  rewrite !parse_inline_formatting_same, D2.
  destruct (is_empty (strip line)); [reflexivity|].
  destruct (startswith line "# "); [reflexivity|].
  destruct (startswith line "## "); [reflexivity|].
  destruct (startswith line "### "); [reflexivity|].
  destruct (startswith line "#### "); [reflexivity|].
  destruct (Py.eqb (strip line) "---"); [reflexivity|].
  destruct (startswith line "> "); [reflexivity|].
  destruct (startswith line "- [ ] " || startswith line "- [x] ") eqn:C.
  - apply checkbox_is_bullet in C as [C1 C2].
    now rewrite C1, C2 in D1.
  - destruct (startswith line "- " || startswith line "* ").
    + cbn [andb] in D1; now rewrite D1.
    + destruct (startswith line "|"); [reflexivity|].
      destruct (startswith line "```"); [|reflexivity].
      cbn [andb] in D3; unfold fence; cbv zeta.
      now rewrite (langs_agree _ D3).
Qed.

(** C2, as amended: the two copies of [parse_inline_formatting] are
    extensionally equal, and the two converters give the same blocks on
    every input none of whose lines is a bullet line with a checkbox after
    the marker, a numbered-list line, or a fence tagged go, ruby or java. *)
Theorem copies_agree_elsewhere :
  (forall text,
     SyncProblem.parse_inline_formatting text
     = NotionClient.parse_inline_formatting text)
  /\ (forall markdown,
        forallb (fun l => negb (copies_differ_on l)) (split nl markdown)
        = true ->
        SyncProblem.markdown_to_notion_blocks markdown
        = NotionClient.markdown_to_blocks markdown).
Proof.
  split; [exact parse_inline_formatting_same|].
  intros markdown H.
  unfold SyncProblem.markdown_to_notion_blocks,
    SyncProblem.markdown_to_notion_blocks_within,
    NotionClient.markdown_to_blocks, NotionClient.markdown_to_blocks_within.
  cbv zeta; apply while_loop_ext; intros i blocks Hi.
  destruct (getitem_ok _ i Hi) as (line & _ & N).
  apply loop_bodies_agree with line; [exact N|].
  rewrite forallb_forall in H.
  specialize (H line (nth_error_In _ _ N)).
  now destruct (copies_differ_on line).
Qed.

Lemma copies_agree_elsewhere_witness :
  forallb (fun l => negb (copies_differ_on l)) (split nl agreeing_document)
  = true
  /\ SyncProblem.markdown_to_notion_blocks agreeing_document
     = NotionClient.markdown_to_blocks agreeing_document.
Proof.
  split; [vm_compute; reflexivity|].
  apply (proj2 copies_agree_elsewhere agreeing_document).
  vm_compute; reflexivity.
Defined.

(** C2 as stated fails: on ["1. first"] one copy gives a paragraph, the
    other a numbered item; on ["- [x] done"] one gives nothing, the other a
    checked to-do; on a ruby fence the language tags differ. *)
Lemma copies_differ_counterexample :
  SyncProblem.markdown_to_notion_blocks "1. first"
  <> NotionClient.markdown_to_blocks "1. first"
  /\ SyncProblem.markdown_to_notion_blocks "- [x] done"
     <> NotionClient.markdown_to_blocks "- [x] done"
  /\ SyncProblem.markdown_to_notion_blocks ruby_fence
     <> NotionClient.markdown_to_blocks ruby_fence.
Proof.
  repeat split; vm_compute; discriminate.
Qed.

(** ** The list rules in notion_client.py *)

Lemma isdigit_inv (c : ascii) :
  isdigit c = true ->
  In c ["0"; "1"; "2"; "3"; "4"; "5"; "6"; "7"; "8"; "9"]%char.
Proof.
  destruct c as [[] [] [] [] [] [] [] []]; intros H; vm_compute in H;
    try discriminate; simpl; tauto.
Qed.

Lemma checked_step (fuel : nat) (lines : list str) (i : nat)
  (blocks : list block) (line : str) :
  nth_error lines i = Some line -> startswith line "- [x] " = true ->
  NotionClient.loop_body fuel lines i blocks
  = Ok (i + 1,
        blocks ++
          [to_do (NotionClient.parse_inline_formatting
                    (strip (slice_from 6 line))) true]).
Proof.
  intros N H; unfold NotionClient.loop_body.
  open_line N H; rewrite hr_second_char by reflexivity.
  close_line; reflexivity.
Qed.

Lemma unchecked_step (fuel : nat) (lines : list str) (i : nat)
  (blocks : list block) (line : str) :
  nth_error lines i = Some line -> startswith line "- [ ] " = true ->
  NotionClient.loop_body fuel lines i blocks
  = Ok (i + 1,
        blocks ++
          [to_do (NotionClient.parse_inline_formatting
                    (strip (slice_from 6 line))) false]).
Proof.
  intros N H; unfold NotionClient.loop_body.
  open_line N H; rewrite hr_second_char by reflexivity.
  close_line; reflexivity.
Qed.

Lemma bullet_step (fuel : nat) (lines : list str) (i : nat)
  (blocks : list block) (line : str) :
  nth_error lines i = Some line ->
  startswith line "- " || startswith line "* " = true ->
  startswith line "- [ ] " || startswith line "- [x] " = false ->
  NotionClient.loop_body fuel lines i blocks
  = Ok (i + 1,
        blocks ++
          [bulleted_list_item
             (NotionClient.parse_inline_formatting
                (strip (slice_from 2 line)))]).
Proof.
  intros N H C; unfold NotionClient.loop_body.
  apply orb_true_iff in H as [H|H];
    open_line N H; rewrite hr_second_char by reflexivity;
    rewrite ?C; close_line; reflexivity.
Qed.

Lemma numbered_step (fuel : nat) (lines : list str) (i : nat)
  (blocks : list block) (line : str) :
  nth_error lines i = Some line -> Re.matches numbered line = true ->
  NotionClient.loop_body fuel lines i blocks
  = Ok (i + 1,
        blocks ++
          [numbered_list_item
             (NotionClient.parse_inline_formatting
                (strip (Re.sub_at_start numbered line)))]).
Proof.
  intros N H; unfold NotionClient.loop_body, getitem.
  rewrite N; cbn [bind].
  destruct line as [|c rest]; [discriminate|].
  assert (isdigit c = true) as Hc.
  { destruct (isdigit c) eqn:E; [reflexivity|].
    now rewrite matches_numbered_nondigit in H. }
  rewrite H.
  apply isdigit_inv in Hc; simpl in Hc.
  repeat (destruct Hc as [<-|Hc]; [close_line; reflexivity|]).
  destruct Hc.
Qed.

(** After a greedy run that ends where the class ends, the continuation
    is tried first at the end of the run. *)
Lemma plus_bt_run {A} (p : ascii -> bool) (run rest : str)
  (k : str -> option A) (x : A) :
  run <> [] -> forallb p run = true -> k rest = Some x ->
  match rest with [] => True | c :: _ => p c = false end ->
  Re.plus_bt p (run ++ rest) k = Some x.
Proof.
  intros Hne Hall Hk Hrest; induction run as [|c run IH]; [easy|].
  simpl in Hall |- *; apply andb_true_iff in Hall as [Hc Hall].
  rewrite Hc; destruct run as [|d run].
  - simpl; destruct rest as [|e rest]; simpl; [exact Hk|].
    now rewrite Hrest.
  - now rewrite IH.
Qed.

(** The numbered rule strips the digits, the dot and one space. *)
Lemma numbered_prefix_stripped (digits tail : str) (sp : ascii) :
  digits <> [] -> forallb isdigit digits = true -> isspace sp = true ->
  Re.matches numbered (digits ++ "."%char :: sp :: tail) = true
  /\ Re.sub_at_start numbered (digits ++ "."%char :: sp :: tail) = tail.
Proof.
  intros Hne Hall Hsp.
  assert (Re.bt numbered (digits ++ "."%char :: sp :: tail) Some
          = Some tail) as E.
  { unfold numbered; cbn [Re.bt].
    apply plus_bt_run; try assumption; [|reflexivity].
    cbn [Re.in_cset]; now rewrite Hsp. }
  unfold Re.matches, Re.sub_at_start, Re.rmatch; now rewrite E.
Qed.

(** C1: the list rules hold in notion_client.py and fail in
    sync-problem-to-notion.py, whose bullet rule comes first and swallows
    the checkbox lines: there ["- [x] done"] and ["- [ ] todo"] give no
    block at all, and ["1. first"] gives a paragraph. *)
Theorem checkbox_lines_swallowed :
  SyncProblem.markdown_to_notion_blocks "- [x] done" = Ok []
  /\ SyncProblem.markdown_to_notion_blocks "- [ ] todo" = Ok []
  /\ SyncProblem.markdown_to_notion_blocks "1. first"
     = Ok [paragraph [plain "1. first"]]
  /\ SyncProblem.markdown_to_notion_blocks "- plain"
     = Ok [bulleted_list_item [plain "plain"]]
  /\ NotionClient.markdown_to_blocks "- [x] done"
     = Ok [to_do [plain "done"] true]
  /\ NotionClient.markdown_to_blocks "- [ ] todo"
     = Ok [to_do [plain "todo"] false]
  /\ NotionClient.markdown_to_blocks "- plain"
     = Ok [bulleted_list_item [plain "plain"]]
  /\ NotionClient.markdown_to_blocks "1. first"
     = Ok [numbered_list_item [plain "first"]].
Proof. repeat split; vm_compute; reflexivity. Qed.

(** ** Further properties of the converter *)

Ltac emit_done :=
  solve [ exists 0, []; rewrite app_nil_r; repeat split;
          [simpl; lia | constructor..]
        | eexists 0, [_]; repeat split;
          [simpl; lia | (apply Forall_cons; [exact I | apply Forall_nil])..] ].

Ltac split_emits :=
  repeat (match goal with
          | |- context [if ?b then _ else _] => destruct b eqn:?
          end; try emit_done).

Lemma language_ok_fence (allow : list str) (rt : list rich_text)
  (line : str) :
  language_ok allow (code rt (fence_language allow line)).
Proof.
  unfold fence_language, language_ok; cbv zeta.
  destruct (is_empty (strip (slice_from 3 line))); [left; reflexivity|].
  destruct (contains allow (strip (slice_from 3 line))) eqn:E;
    cbn [orb negb]; [right; exact E | left; reflexivity].
Qed.

(** A round of [markdown_to_blocks] appends at most one block, and a code
    block only with an allowed language. *)
Lemma loop_body_emits (fuel : nat) (lines : list str) (i : nat)
  (blocks : list block) :
  i < length lines -> length lines <= fuel ->
  exists n new,
    NotionClient.loop_body fuel lines i blocks = Ok (i + S n, blocks ++ new)
    /\ length new <= 1
    /\ Forall (language_ok NotionClient.valid_langs) new.
Proof.
  intros Hi Hf; unfold NotionClient.loop_body.
  destruct (getitem_ok lines i Hi) as (line & -> & N); cbn [bind].
  rewrite (fence_spec _ _ _ _ _ _ Hf), (table_spec _ _ _ _ Hf), language_eq.
  split_emits.
  - rewrite (table_run_cons _ _ _ N) by assumption.
    eexists _, [_]; repeat split; [simpl; lia|].
    apply Forall_cons; [now left | apply Forall_nil].
  - eexists (length (fence_run lines i) + 1), [_]; split; [|split].
    + replace (i + 1 + length (fence_run lines i) + 1)
        with (i + S (length (fence_run lines i) + 1)) by lia.
      reflexivity.
    + simpl; lia.
    + apply Forall_cons; [apply language_ok_fence | apply Forall_nil].
Qed.

(** The main loop with an invariant that depends on the index. *)
Lemma while_loop_inv_idx
  (body : list str -> nat -> list block -> result (nat * list block))
  (Q : nat -> list block -> Prop) (lines : list str) :
  (forall i blocks, i < length lines -> Q i blocks ->
     exists n blocks', body lines i blocks = Ok (i + S n, blocks')
                       /\ Q (i + S n) blocks') ->
  forall fuel i blocks, length lines - i <= fuel -> Q i blocks ->
  exists out i', while_loop body fuel lines i blocks = Ok out /\ Q i' out.
Proof.
  intros Hbody; induction fuel as [|fuel IH]; intros i blocks Hf HQ.
  - assert ((i <? length lines) = false) as E by (apply Nat.ltb_ge; lia).
    simpl; rewrite E; eauto.
  - simpl; destruct (i <? length lines) eqn:E; [|eauto].
    apply Nat.ltb_lt in E.
    destruct (Hbody i blocks E HQ) as (n & blocks' & -> & HQ').
    simpl; apply IH; [lia | exact HQ'].
Qed.

Lemma markdown_to_blocks_length (markdown : str) :
  exists blocks,
    NotionClient.markdown_to_blocks markdown = Ok blocks
    /\ length blocks <= length (split nl markdown).
Proof.
  unfold NotionClient.markdown_to_blocks,
    NotionClient.markdown_to_blocks_within; cbv zeta.
  set (lines := split nl markdown).
  destruct (while_loop_inv_idx (NotionClient.loop_body (length lines))
              (fun i bs => length bs <= i /\ length bs <= length lines)
              lines) with (fuel := length lines) (i := 0)
                          (blocks := @nil block)
    as (out & i' & E & _ & H); [|lia|simpl; lia|eauto].
  intros i blocks Hi [H1 H2].
  destruct (loop_body_emits _ lines i blocks Hi (le_n _))
    as (n & new & E & Hn & _).
  exists n, (blocks ++ new); split; [exact E|].
  rewrite length_app; lia.
Qed.

(** X1: the converter never returns more blocks than the input has lines,
    so the caller's batches of 100 blocks cover at most as many lines. *)
Theorem blocks_at_most_lines (markdown : str) :
  exists blocks,
    NotionClient.markdown_to_blocks markdown = Ok blocks
    /\ length blocks <= length (split nl markdown).
Proof.
  exact (markdown_to_blocks_length markdown).
Qed.

(** X2: every code block of the output has a language Notion accepts from
    this script: ["plain text"] or a member of [valid_langs]. *)
Theorem code_languages_allowed (markdown : str) :
  exists blocks,
    NotionClient.markdown_to_blocks markdown = Ok blocks
    /\ Forall (language_ok NotionClient.valid_langs) blocks.
Proof.
  unfold NotionClient.markdown_to_blocks,
    NotionClient.markdown_to_blocks_within; cbv zeta.
  apply while_loop_inv; [|lia|constructor].
  intros i blocks Hi HQ.
  destruct (loop_body_emits _ _ i blocks Hi (le_n _))
    as (n & new & E & _ & Hnew).
  exists n, (blocks ++ new); split; [exact E|].
  apply Forall_app; split; assumption.
Qed.

Ltac emit_done_sync :=
  solve [ exists 0, []; rewrite app_nil_r; repeat split;
          [simpl; lia | constructor..]
        | eexists 0, [_]; repeat split;
          [simpl; lia
          | (apply Forall_cons; [first [exact I | reflexivity]
                                | apply Forall_nil])..] ].

(** A round of [markdown_to_notion_blocks]: at most one block, never a
    checklist or numbered item. *)
Lemma loop_body_emits_sync (fuel : nat) (lines : list str) (i : nat)
  (blocks : list block) :
  i < length lines -> length lines <= fuel ->
  exists n new,
    SyncProblem.loop_body fuel lines i blocks = Ok (i + S n, blocks ++ new)
    /\ length new <= 1
    /\ Forall (language_ok SyncProblem.valid_langs) new
    /\ Forall (fun b => is_list_extra b = false) new.
Proof.
  intros Hi Hf; unfold SyncProblem.loop_body.
  destruct (getitem_ok lines i Hi) as (line & -> & N); cbn [bind].
  rewrite (fence_spec _ _ _ _ _ _ Hf), (table_spec _ _ _ _ Hf), language_eq.
  cbv zeta.
  repeat (match goal with
          | |- context [if ?b then _ else _] => destruct b eqn:?
          end; try emit_done_sync).
  - exfalso.
    match goal with
    | H : startswith line _ || startswith line _ = true |- _ =>
        apply checkbox_is_bullet in H as [H _]
    end.
    match goal with
    | H : startswith line _ || startswith line _ = false |- _ =>
        apply orb_false_iff in H as [H _]; congruence
    end.
  - rewrite (table_run_cons _ _ _ N) by assumption.
    eexists _, [_]; repeat split; [simpl; lia| |].
    + apply Forall_cons; [now left | apply Forall_nil].
    + apply Forall_cons; [reflexivity | apply Forall_nil].
  - eexists (length (fence_run lines i) + 1), [_]; split; [|split; [|split]].
    + replace (i + 1 + length (fence_run lines i) + 1)
        with (i + S (length (fence_run lines i) + 1)) by lia.
      reflexivity.
    + simpl; lia.
    + apply Forall_cons; [apply language_ok_fence | apply Forall_nil].
    + apply Forall_cons; [reflexivity | apply Forall_nil].
Qed.

(** X3: [markdown_to_notion_blocks] of sync-problem-to-notion.py is total
    as well, and its blocks keep the same invariants: span lists are not
    empty and no content has more than 2000 characters. *)
Theorem markdown_to_notion_blocks_total (markdown : str) :
  exists blocks,
    SyncProblem.markdown_to_notion_blocks markdown = Ok blocks
    /\ Forall spans_nonempty blocks
    /\ Forall contents_bounded blocks.
Proof.
  unfold SyncProblem.markdown_to_notion_blocks,
    SyncProblem.markdown_to_notion_blocks_within; cbv zeta.
  destruct (while_loop_inv (SyncProblem.loop_body
                              (length (split nl markdown)))
              (Forall good) (split nl markdown))
    with (fuel := length (split nl markdown)) (i := 0)
         (blocks := @nil block) as (out & E & G);
    [|lia|constructor|].
  - intros i blocks Hi HQ.
    destruct (loop_body_progress_sync _ _ i blocks Hi (le_n _))
      as (n & new & E & Hnew).
    exists n, (blocks ++ new); split; [exact E|].
    apply Forall_app; split; assumption.
  - exists out; split; [exact E|].
    split; (eapply Forall_impl; [|exact G]); now intros b [H1 H2].
Qed.

(** X4: [markdown_to_notion_blocks] never returns a checklist item or a
    numbered item, whatever the input: its checkbox branch cannot be
    reached and it has no numbered rule. *)
Theorem sync_never_emits_list_extras (markdown : str) :
  exists blocks,
    SyncProblem.markdown_to_notion_blocks markdown = Ok blocks
    /\ Forall (fun b => is_list_extra b = false) blocks.
Proof.
  unfold SyncProblem.markdown_to_notion_blocks,
    SyncProblem.markdown_to_notion_blocks_within; cbv zeta.
  apply while_loop_inv; [|lia|constructor].
  intros i blocks Hi HQ.
  destruct (loop_body_emits_sync _ _ i blocks Hi (le_n _))
    as (n & new & E & _ & _ & Hnew).
  exists n, (blocks ++ new); split; [exact E|].
  apply Forall_app; split; assumption.
Qed.

(** ** Line by line *)

Lemma split_lacks_sep (sep : ascii) (s l : str) :
  In l (split sep s) -> lacks sep l = true.
Proof.
  revert l; induction s as [|c s IH]; intros l; simpl.
  - intros [<-|[]]; reflexivity.
  - destruct (Ascii.eqb c sep) eqn:E.
    + intros [<-|H]; [reflexivity | now apply IH].
    + destruct (split sep s) as [|l0 ls] eqn:S.
      * intros [<-|[]]; unfold lacks; simpl; now rewrite E.
      * intros [<-|H].
        -- unfold lacks; simpl; rewrite E; simpl.
           apply IH; now left.
        -- apply IH; now right.
Qed.

Lemma split_single (sep : ascii) (l : str) :
  lacks sep l = true -> split sep l = [l].
Proof.
  induction l as [|c l IH]; [reflexivity|].
  unfold lacks; simpl; intros H; apply andb_true_iff in H as [Hc Hl].
  apply negb_true_iff in Hc; rewrite Hc.
  now rewrite (IH Hl).
Qed.

(** On a line that opens no table and no fence, a round of the loop does
    what it does on that line alone. *)
Lemma loop_body_local (fuel : nat) (lines : list str) (i : nat)
  (blocks : list block) (line : str) :
  nth_error lines i = Some line -> one_line_rule line = true ->
  exists new,
    NotionClient.loop_body fuel lines i blocks = Ok (i + 1, blocks ++ new)
    /\ NotionClient.loop_body 1 [line] 0 [] = Ok (1, new).
Proof.
  intros N H; unfold one_line_rule in H.
  apply andb_true_iff in H as [H1 H2].
  apply negb_true_iff in H1, H2.
  unfold NotionClient.loop_body, getitem.
  rewrite N; cbn [nth_error bind]; rewrite H1, H2.
  repeat (match goal with
          | |- context [if ?b then _ else _] => destruct b eqn:?
          end;
          try solve [ exists []; rewrite app_nil_r; split; reflexivity
                    | eexists [_]; split; reflexivity ]).
Qed.

Lemma line_blocks_of_round (line : str) (new : list block) :
  lacks nl line = true ->
  NotionClient.loop_body 1 [line] 0 [] = Ok (1, new) ->
  line_blocks line = new.
Proof.
  intros L E; unfold line_blocks, NotionClient.markdown_to_blocks,
    NotionClient.markdown_to_blocks_within; cbv zeta.
  rewrite (split_single _ _ L); simpl; now rewrite E.
Qed.

Lemma while_loop_line_by_line (lines : list str) (inner : nat) :
  Forall (fun l => one_line_rule l = true /\ lacks nl l = true) lines ->
  forall fuel i blocks, length lines - i <= fuel ->
  while_loop (NotionClient.loop_body inner) fuel lines i blocks
  = Ok (blocks ++ flat_map line_blocks (skipn i lines)).
Proof.
  intros Hall; induction fuel as [|fuel IH]; intros i blocks Hf.
  - assert ((i <? length lines) = false) as E by (apply Nat.ltb_ge; lia).
    simpl; rewrite E, skipn_beyond by lia; simpl; now rewrite app_nil_r.
  - simpl; destruct (i <? length lines) eqn:E.
    + apply Nat.ltb_lt in E.
      destruct (getitem_ok lines i E) as (line & _ & N).
      rewrite Forall_forall in Hall.
      destruct (Hall line (nth_error_In _ _ N)) as [H1 H2].
      destruct (loop_body_local inner lines i blocks line N H1)
        as (new & -> & R).
      simpl; rewrite IH by lia.
      rewrite (skipn_nth_error _ _ _ N); simpl.
      rewrite (line_blocks_of_round _ _ H2 R), Nat.add_1_r.
      now rewrite app_assoc.
    + apply Nat.ltb_ge in E; rewrite skipn_beyond by lia; simpl.
      now rewrite app_nil_r.
Qed.

(** X5: outside tables and fences the conversion is line by line. If no
    line of the input starts with ['|'] or with three backticks, the blocks
    of the input are the blocks of its lines, each converted alone, in
    order; in particular neighbouring text lines stay separate
    paragraphs. *)
Theorem conversion_line_by_line (markdown : str) :
  forallb one_line_rule (split nl markdown) = true ->
  NotionClient.markdown_to_blocks markdown
  = Ok (flat_map line_blocks (split nl markdown)).
Proof.
  intros H; unfold NotionClient.markdown_to_blocks,
    NotionClient.markdown_to_blocks_within; cbv zeta.
  rewrite while_loop_line_by_line; [reflexivity| |lia].
  rewrite forallb_forall in H; apply Forall_forall; intros l Hl; split.
  - now apply H.
  - now apply split_lacks_sep with markdown.
Qed.

Lemma conversion_line_by_line_witness :
  forallb one_line_rule (split nl plain_document) = true
  /\ NotionClient.markdown_to_blocks plain_document
     = Ok (flat_map line_blocks (split nl plain_document))
  /\ flat_map line_blocks (split nl plain_document)
     = [heading_2 [plain "Title"]; paragraph [plain "first line"];
        paragraph [plain "second line"];
        bulleted_list_item [plain "item"]].
Proof.
  split; [reflexivity|]; split.
  - apply (conversion_line_by_line plain_document); reflexivity.
  - vm_compute; reflexivity.
Defined.

(** ** Fenced runs *)

Lemma while_loop_done
  (body : list str -> nat -> list block -> result (nat * list block))
  (fuel : nat) (lines : list str) (i : nat) (blocks : list block) :
  length lines <= i -> while_loop body fuel lines i blocks = Ok blocks.
Proof.
  intros H.
  assert ((i <? length lines) = false) as E by (apply Nat.ltb_ge; lia).
  destruct fuel; simpl; now rewrite E.
Qed.

Lemma takewhile_app_stop {A} (p : A -> bool) (xs ys : list A) (y : A) :
  forallb p xs = true -> p y = false ->
  takewhile p (xs ++ y :: ys) = xs.
Proof.
  intros Hx Hy; induction xs as [|x xs IH]; simpl in *.
  - now rewrite Hy.
  - apply andb_true_iff in Hx as [H1 H2]; now rewrite H1, IH.
Qed.

(** X6: a fence that is never closed takes the rest of the input. From a
    line starting with three backticks after which no line starts with
    them, the converter appends one code block made of all the lines that
    follow, and nothing after it. *)
Theorem unclosed_fence_takes_rest (fuel : nat) (lines : list str) (i : nat)
  (blocks : list block) (line : str) :
  nth_error lines i = Some line -> startswith line "```" = true ->
  forallb inside_fence (skipn (i + 1) lines) = true ->
  length lines <= fuel ->
  while_loop (NotionClient.loop_body fuel) fuel lines i blocks
  = Ok (blocks ++
          [code (code_text (skipn (i + 1) lines))
             (fence_language NotionClient.valid_langs line)]).
Proof.
  intros N H Hrest Hf.
  assert (i < length lines) as Hi
    by (apply nth_error_Some; now rewrite N).
  destruct fuel as [|fuel]; [lia|].
  cbn [while_loop].
  assert ((i <? length lines) = true) as -> by now apply Nat.ltb_lt.
  rewrite (fence_step _ _ _ _ _ N H Hf); cbn [bind].
  unfold fence_run.
  change (fun l : str => negb (startswith l "```")) with inside_fence.
  rewrite (takewhile_all _ _ Hrest).
  apply while_loop_done; rewrite length_skipn; lia.
Qed.

Lemma unclosed_fence_takes_rest_witness :
  while_loop (NotionClient.loop_body 2) 2 (split nl unterminated_fence) 0 []
  = Ok ([] ++
          [code (code_text (skipn (0 + 1) (split nl unterminated_fence)))
             (fence_language NotionClient.valid_langs "```python")]).
Proof.
  apply (unclosed_fence_takes_rest 2 (split nl unterminated_fence) 0 []
           (lit "```python")); [reflexivity.. | vm_compute; lia].
Defined.

(** X7: a closed fence gives one code block of the lines between the
    fences. The round that meets the opening fence moves behind the closing
    line, whose text after the backticks is dropped, and lines of the run
    that look like table rows or list items stay in the code body. *)
Theorem closed_fence_block (fuel : nat) (pre body post : list str)
  (opening closing : str) (blocks : list block) :
  startswith opening "```" = true -> startswith closing "```" = true ->
  forallb inside_fence body = true ->
  length (pre ++ opening :: body ++ closing :: post) <= fuel ->
  NotionClient.loop_body fuel (pre ++ opening :: body ++ closing :: post)
    (length pre) blocks
  = Ok (length pre + length body + 2,
        blocks ++
          [code (code_text body)
             (fence_language NotionClient.valid_langs opening)]).
Proof.
  intros Ho Hc Hb Hf.
  assert (nth_error (pre ++ opening :: body ++ closing :: post) (length pre)
          = Some opening) as N
    by (rewrite nth_error_app2, Nat.sub_diag by lia; reflexivity).
  rewrite (fence_step _ _ _ _ _ N Ho Hf).
  assert (fence_run (pre ++ opening :: body ++ closing :: post) (length pre)
          = body) as ->.
  { unfold fence_run.
    rewrite Nat.add_1_r, skipn_app, skipn_all2 by lia.
    replace (S (length pre) - length pre) with 1 by lia; simpl.
    apply takewhile_app_stop; [exact Hb|].
    now rewrite Hc. }
  do 2 f_equal; lia.
Qed.

Lemma closed_fence_block_witness :
  NotionClient.loop_body 6 closed_fence_lines 1 []
  = Ok (1 + 2 + 2,
        [code [mk_text (lit "x = 1" ++ [nl] ++ lit "|y|") None] "python"]).
Proof.
  apply (closed_fence_block 6 [lit "intro"] [lit "x = 1"; lit "|y|"]
           [lit "after"] (lit "```python") (lit "``` end") []);
    [reflexivity.. | vm_compute; lia].
Defined.

(** ** Which rule a line falls under *)

Lemma space_not_digit (c : ascii) : isspace c = true -> isdigit c = false.
Proof.
  destruct c as [[] [] [] [] [] [] [] []]; intros H; vm_compute in H |- *;
    congruence.
Qed.

(** A prefix that starts with no whitespace is not the prefix of a line
    that starts with whitespace. *)
Lemma startswith_after_space (c : ascii) (s p : str) :
  isspace c = true ->
  match p with d :: _ => isspace d = false | [] => False end ->
  startswith (c :: s) p = false.
Proof.
  intros Hc Hp; destruct p as [|d p]; [easy|].
  unfold startswith; fold startswith.
  destruct (Ascii.eqb d c) eqn:E; [|reflexivity].
  apply Ascii.eqb_eq in E; congruence.
Qed.

Lemma strip_head (c d : ascii) (s t : str) :
  strip (c :: s) = d :: t -> isspace c = true \/ c = d.
Proof.
  destruct (isspace c) eqn:E; [now left|].
  rewrite strip_cons_nonspace by assumption.
  intros H; inversion H; now right.
Qed.

(** X8: a line is a divider exactly by its trimmed text. Every line whose
    text without surrounding whitespace is three dashes gives a divider
    block, whatever the whitespace around it; four dashes, or dashes with a
    space between them, give a paragraph. *)
Theorem divider_by_trimmed_text :
  (forall fuel lines i blocks line,
     nth_error lines i = Some line ->
     Py.eqb (strip line) "---" = true ->
     NotionClient.loop_body fuel lines i blocks
     = Ok (i + 1, blocks ++ [divider]))
  /\ NotionClient.markdown_to_blocks "  ---  " = Ok [divider]
  /\ NotionClient.markdown_to_blocks "----" = Ok [paragraph [plain "----"]]
  /\ NotionClient.markdown_to_blocks "-- -"
     = Ok [paragraph [plain "-- -"]].
Proof.
  split; [|repeat split; vm_compute; reflexivity].
  intros fuel lines i blocks line N H.
  unfold NotionClient.loop_body, getitem; rewrite N; cbn [bind].
  rewrite H; apply eqb_eq in H.
  destruct line as [|c s]; [discriminate|].
  rewrite H; cbn [is_empty].
  unfold lit in H; cbn [list_ascii_of_string] in H.
  apply strip_head in H as [Hc| ->].
  - rewrite !(startswith_after_space c s _ Hc) by reflexivity.
    reflexivity.
  - decide_tests; reflexivity.
Qed.

Lemma divider_by_trimmed_text_witness :
  NotionClient.loop_body 1 [lit "  ---  "] 0 [] = Ok (0 + 1, [] ++ [divider]).
Proof.
  apply (proj1 divider_by_trimmed_text 1 [lit "  ---  "] 0 []
           (lit "  ---  ")); reflexivity.
Defined.

(** X9: indentation turns every rule off. A line that starts with a
    whitespace character, is not blank and is not a divider becomes a
    paragraph of its trimmed text, whatever marker follows the
    indentation: nested list items, indented headings, quotes, table rows
    and fences are not recognised. *)
Theorem indented_line_is_paragraph (fuel : nat) (lines : list str) (i : nat)
  (blocks : list block) (c : ascii) (s : str) :
  nth_error lines i = Some (c :: s) ->
  isspace c = true ->
  is_empty (strip (c :: s)) = false ->
  Py.eqb (strip (c :: s)) "---" = false ->
  NotionClient.loop_body fuel lines i blocks
  = Ok (i + 1,
        blocks ++
          [paragraph (NotionClient.parse_inline_formatting
                        (strip (c :: s)))]).
Proof.
  intros N Hc He Hd.
  unfold NotionClient.loop_body, getitem; rewrite N; cbn [bind].
  rewrite He, Hd.
  rewrite !(startswith_after_space c s _ Hc) by reflexivity.
  rewrite matches_numbered_nondigit by now apply space_not_digit.
  cbn [orb negb]; reflexivity.
Qed.

Lemma indented_line_is_paragraph_witness :
  NotionClient.loop_body 1 [lit "  - nested"] 0 []
  = Ok (0 + 1, [] ++ [paragraph [plain "- nested"]]).
Proof.
  apply (indented_line_is_paragraph 1 [lit "  - nested"] 0 [] " "%char
           (lit " - nested")); reflexivity.
Defined.

(** X10: headings deeper than level 4 are not collapsed. A line that
    starts with five hashes becomes a paragraph that keeps the hashes. *)
Theorem deep_heading_is_paragraph (fuel : nat) (lines : list str) (i : nat)
  (blocks : list block) (line : str) :
  nth_error lines i = Some line -> startswith line "#####" = true ->
  NotionClient.loop_body fuel lines i blocks
  = Ok (i + 1,
        blocks ++
          [paragraph (NotionClient.parse_inline_formatting (strip line))]).
Proof.
  intros N H; unfold NotionClient.loop_body.
  open_line N H.
  assert (is_empty (strip ("#"%char :: "#"%char :: "#"%char :: "#"%char
                             :: "#"%char :: rest)) = false) as E
    by now rewrite strip_cons_nonspace.
  rewrite E.
  replace (Py.eqb (strip ("#"%char :: "#"%char :: "#"%char :: "#"%char
                            :: "#"%char :: rest)) "---") with false
    by now rewrite strip_cons_nonspace.
  decide_tests.
  rewrite ?matches_numbered_nondigit by reflexivity.
  cbn [orb andb negb]; reflexivity.
Qed.

Lemma deep_heading_is_paragraph_witness :
  NotionClient.loop_body 1 [lit "##### Deep"] 0 []
  = Ok (0 + 1, [] ++ [paragraph [plain "##### Deep"]]).
Proof.
  apply (deep_heading_is_paragraph 1 [lit "##### Deep"] 0 []
           (lit "##### Deep")); reflexivity.
Defined.

(** X11: the rules for level-2 and level-3 headings and for quotes. A line
    starting with ["## "], ["### "] or ["> "] gives a heading-2, heading-3
    or quote block whose spans are the parse of the rest of the line,
    trimmed. *)
Theorem heading_and_quote_rules (fuel : nat) (lines : list str) (i : nat)
  (blocks : list block) (line : str) :
  nth_error lines i = Some line ->
  (startswith line "## " = true ->
   NotionClient.loop_body fuel lines i blocks
   = Ok (i + 1,
         blocks ++
           [heading_2 (NotionClient.parse_inline_formatting
                         (strip (slice_from 3 line)))]))
  /\ (startswith line "### " = true ->
      NotionClient.loop_body fuel lines i blocks
      = Ok (i + 1,
            blocks ++
              [heading_3 (NotionClient.parse_inline_formatting
                            (strip (slice_from 4 line)))]))
  /\ (startswith line "> " = true ->
      NotionClient.loop_body fuel lines i blocks
      = Ok (i + 1,
            blocks ++
              [quote (NotionClient.parse_inline_formatting
                        (strip (slice_from 2 line)))])).
Proof.
  intros N; repeat split; intros H; unfold NotionClient.loop_body;
    open_line N H; close_line; reflexivity.
Qed.

Lemma heading_and_quote_rules_witness :
  NotionClient.loop_body 1 [lit "## Plan"] 0 []
  = Ok (0 + 1, [] ++ [heading_2 [plain "Plan"]])
  /\ NotionClient.loop_body 1 [lit "### Steps"] 0 []
     = Ok (0 + 1, [] ++ [heading_3 [plain "Steps"]])
  /\ NotionClient.loop_body 1 [lit "> wise words"] 0 []
     = Ok (0 + 1, [] ++ [quote [plain "wise words"]]).
Proof.
  split; [|split].
  - apply (proj1 (heading_and_quote_rules 1 [lit "## Plan"] 0 []
                    (lit "## Plan") eq_refl)); reflexivity.
  - apply (proj1 (proj2 (heading_and_quote_rules 1 [lit "### Steps"] 0 []
                           (lit "### Steps") eq_refl))); reflexivity.
  - apply (proj2 (proj2 (heading_and_quote_rules 1 [lit "> wise words"] 0 []
                           (lit "> wise words") eq_refl))); reflexivity.
Defined.

(** ** Inline styles *)

Lemma lacks_in_cset (d : ascii) (body : str) :
  lacks d body = true ->
  forallb (Re.in_cset (Re.NoneOf [d])) body = true.
Proof.
  unfold lacks; induction body as [|c body IH]; simpl; [reflexivity|].
  intros H; apply andb_true_iff in H as [Hc Hb].
  now rewrite orb_false_r, Hc, IH.
Qed.

Lemma bt_alt_left {A} (r1 r2 : Re.regex) (s : str) (k : str -> option A)
  (x : A) :
  Re.bt r1 s k = Some x -> Re.bt (Re.Alt r1 r2) s k = Some x.
Proof. intros H; simpl; now rewrite H. Qed.

Lemma bt_alt_right {A} (r1 r2 : Re.regex) (s : str) (k : str -> option A) :
  Re.bt r1 s k = None -> Re.bt (Re.Alt r1 r2) s k = Re.bt r2 s k.
Proof. intros H; simpl; now rewrite H. Qed.

Lemma bt_one_miss {A} (d c : ascii) (r : Re.regex) (s : str)
  (k : str -> option A) :
  Ascii.eqb c d = false ->
  Re.bt (Re.Cat (Re.One (Re.Chr d)) r) (c :: s) k = None.
Proof. intros H; simpl; now rewrite H. Qed.

Lemma bt_one_hit {A} (d : ascii) (r : Re.regex) (s : str)
  (k : str -> option A) :
  Re.bt (Re.Cat (Re.One (Re.Chr d)) r) (d :: s) k = Re.bt r s k.
Proof. simpl; now rewrite Ascii.eqb_refl. Qed.

(** [d[^d]+d] matches a text without [d] between two [d]. *)
Lemma bt_delimited_hit (d : ascii) (body rest : str) :
  body <> [] -> lacks d body = true ->
  Re.bt (Re.Cat (Re.One (Re.Chr d))
           (Re.Cat (Re.Plus (Re.NoneOf [d])) (Re.One (Re.Chr d))))
    (d :: body ++ d :: rest) Some
  = Some rest.
Proof.
  intros Hne Hl; rewrite bt_one_hit; cbn [Re.bt].
  apply plus_bt_run; [assumption | now apply lacks_in_cset | |].
  - simpl; now rewrite Ascii.eqb_refl.
  - simpl; now rewrite Ascii.eqb_refl.
Qed.

Lemma bt_bold_hit (body rest : str) :
  body <> [] -> lacks "*" body = true ->
  Re.bt (Re.Cat (Re.One (Re.Chr "*")) (Re.Cat (Re.One (Re.Chr "*"))
           (Re.Cat (Re.Plus (Re.NoneOf ["*"%char]))
              (Re.Cat (Re.One (Re.Chr "*")) (Re.One (Re.Chr "*"))))))
    ("*"%char :: "*"%char :: body ++ "*"%char :: "*"%char :: rest) Some
  = Some rest.
Proof.
  intros Hne Hl; rewrite !bt_one_hit; cbn [Re.bt].
  apply plus_bt_run; [assumption | now apply lacks_in_cset | |];
    reflexivity.
Qed.

Lemma slice_between_1 (c d : ascii) (body : str) :
  slice_between 1 1 (c :: body ++ [d]) = body.
Proof.
  unfold slice_between; simpl; rewrite length_app; simpl.
  replace (length body + 1 - 0 - 1) with (length body) by lia.
  rewrite firstn_app, Nat.sub_diag, firstn_all; simpl; apply app_nil_r.
Qed.

Lemma endswith_app (x p : str) : endswith (x ++ p) p = true.
Proof. unfold endswith; rewrite rev_app_distr; apply startswith_app. Qed.

Lemma parse_one_part (m : str) :
  m <> [] -> Re.rmatch pattern m = Some (m, []) ->
  NotionClient.parse_inline_formatting m
  = [NotionClient.rich_text_of_part m].
Proof.
  intros Hne E; rewrite parse_inline_formatting_eq.
  destruct m as [|c m]; [easy|].
  now rewrite findall_cons, E, findall_nil.
Qed.

Lemma slice_between_2 (c1 c2 d1 d2 : ascii) (body : str) :
  slice_between 2 2 (c1 :: c2 :: body ++ [d1; d2]) = body.
Proof.
  unfold slice_between, skipn.
  replace (length (c1 :: c2 :: body ++ [d1; d2]) - 2 - 2)
    with (length body) by (simpl; rewrite length_app; simpl; lia).
  rewrite firstn_app, Nat.sub_diag, firstn_all; simpl; apply app_nil_r.
Qed.

Lemma startswith_cons (c d : ascii) (s p : str) :
  startswith (d :: s) (c :: p) = Ascii.eqb c d && startswith s p.
Proof. reflexivity. Qed.

Lemma part_code (body : str) :
  NotionClient.rich_text_of_part ("`"%char :: body ++ ["`"%char])
  = code_span (slice_to 2000 body).
Proof.
  unfold NotionClient.rich_text_of_part; cbv zeta.
  assert (startswith ("`"%char :: body ++ ["`"%char]) "`" = true) as E1
    by reflexivity.
  assert (endswith ("`"%char :: body ++ ["`"%char]) "`" = true) as E2
    by exact (endswith_app ("`"%char :: body) "`").
  rewrite E1, E2; cbn [andb]; now rewrite slice_between_1.
Qed.

Lemma part_bold (body : str) :
  NotionClient.rich_text_of_part
    ("*"%char :: "*"%char :: body ++ ["*"%char; "*"%char])
  = bold (slice_to 2000 body).
Proof.
  unfold NotionClient.rich_text_of_part; cbv zeta.
  set (m := "*"%char :: "*"%char :: body ++ ["*"%char; "*"%char]).
  assert (startswith m "`" = false) as E0 by reflexivity.
  assert (startswith m "**" = true) as E1 by reflexivity.
  assert (endswith m "**" = true) as E2
    by exact (endswith_app ("*"%char :: "*"%char :: body) "**").
  rewrite E0, E1, E2; cbn [andb]; unfold m; now rewrite slice_between_2.
Qed.

Lemma part_italic_star (b : ascii) (body : str) :
  Ascii.eqb b "*" = false ->
  NotionClient.rich_text_of_part ("*"%char :: (b :: body) ++ ["*"%char])
  = italic (slice_to 2000 (b :: body)).
Proof.
  intros Hb; unfold NotionClient.rich_text_of_part; cbv zeta.
  set (m := "*"%char :: (b :: body) ++ ["*"%char]).
  assert (startswith m "`" = false) as E0 by reflexivity.
  assert (startswith m "**" = false) as E1.
  { unfold m; change (lit "**") with ["*"%char; "*"%char]; simpl app.
    rewrite !startswith_cons, (Ascii.eqb_sym _ b), Hb; reflexivity. }
  assert (startswith m "*" = true) as E2 by reflexivity.
  assert (endswith m "*" = true) as E3
    by exact (endswith_app ("*"%char :: b :: body) "*").
  rewrite E0, E1, E2, E3; cbn [andb orb]; unfold m.
  now rewrite slice_between_1.
Qed.

Lemma part_italic_underscore (body : str) :
  NotionClient.rich_text_of_part ("_"%char :: body ++ ["_"%char])
  = italic (slice_to 2000 body).
Proof.
  unfold NotionClient.rich_text_of_part; cbv zeta.
  set (m := "_"%char :: body ++ ["_"%char]).
  assert (startswith m "`" = false) as E0 by reflexivity.
  assert (startswith m "**" = false) as E1 by reflexivity.
  assert (startswith m "*" = false) as E2 by reflexivity.
  assert (startswith m "_" = true) as E3 by reflexivity.
  assert (endswith m "_" = true) as E4
    by exact (endswith_app ("_"%char :: body) "_").
  rewrite E0, E1, E2, E3, E4; cbn [andb orb]; unfold m.
  now rewrite slice_between_1.
Qed.

(** What the pattern matches at the head of a text that starts with a
    marked run. *)
Lemma rmatch_code (body rest : str) :
  body <> [] -> lacks "`" body = true ->
  Re.rmatch pattern (("`"%char :: body ++ ["`"%char]) ++ rest)
  = Some ("`"%char :: body ++ ["`"%char], rest).
Proof.
  intros Hne Hl; apply rmatch_of_bt.
  unfold pattern; cbv zeta; apply bt_alt_left.
  simpl app; rewrite <- app_assoc; simpl app.
  now apply bt_delimited_hit.
Qed.

Lemma rmatch_bold (body rest : str) :
  body <> [] -> lacks "*" body = true ->
  Re.rmatch pattern
    (("*"%char :: "*"%char :: body ++ ["*"%char; "*"%char]) ++ rest)
  = Some ("*"%char :: "*"%char :: body ++ ["*"%char; "*"%char], rest).
Proof.
  intros Hne Hl; apply rmatch_of_bt.
  unfold pattern; cbv zeta.
  simpl app; rewrite <- app_assoc; simpl app.
  rewrite bt_alt_right by (now apply bt_one_miss).
  apply bt_alt_left; now apply bt_bold_hit.
Qed.

Lemma rmatch_italic_star (b : ascii) (body rest : str) :
  Ascii.eqb b "*" = false -> lacks "*" body = true ->
  Re.rmatch pattern (("*"%char :: (b :: body) ++ ["*"%char]) ++ rest)
  = Some ("*"%char :: (b :: body) ++ ["*"%char], rest).
Proof.
  intros Hb Hl; apply rmatch_of_bt.
  unfold pattern; cbv zeta.
  simpl app; rewrite <- app_assoc; simpl app.
  rewrite bt_alt_right by (now apply bt_one_miss).
  rewrite bt_alt_right by (rewrite bt_one_hit; now apply bt_one_miss).
  apply bt_alt_left.
  apply (bt_delimited_hit "*" (b :: body) rest); [discriminate|].
  unfold lacks in *; simpl; now rewrite Hb, Hl.
Qed.

Lemma rmatch_italic_underscore (body rest : str) :
  body <> [] -> lacks "_" body = true ->
  Re.rmatch pattern (("_"%char :: body ++ ["_"%char]) ++ rest)
  = Some ("_"%char :: body ++ ["_"%char], rest).
Proof.
  intros Hne Hl; apply rmatch_of_bt.
  unfold pattern; cbv zeta.
  simpl app; rewrite <- app_assoc; simpl app.
  rewrite !bt_alt_right by (now apply bt_one_miss).
  apply bt_alt_left; now apply bt_delimited_hit.
Qed.

Lemma parse_whole_part (m : str) :
  m <> [] -> Re.rmatch pattern (m ++ []) = Some (m, []) ->
  NotionClient.parse_inline_formatting m
  = [NotionClient.rich_text_of_part m].
Proof.
  rewrite app_nil_r; apply parse_one_part.
Qed.

(** X12: a text between a pair of markers becomes one span of that style
    holding the text, cut to 2000 characters, and markers of another kind
    inside it stay literal: backticks give a code span, double asterisks a
    bold span, single asterisks or underscores an italic span. *)
Theorem styled_text_is_one_span (body : str) :
  body <> [] ->
  (lacks "`" body = true ->
   NotionClient.parse_inline_formatting ("`"%char :: body ++ ["`"%char])
   = [code_span (slice_to 2000 body)])
  /\ (lacks "*" body = true ->
      NotionClient.parse_inline_formatting
        ("*"%char :: "*"%char :: body ++ ["*"%char; "*"%char])
      = [bold (slice_to 2000 body)])
  /\ (lacks "*" body = true ->
      NotionClient.parse_inline_formatting ("*"%char :: body ++ ["*"%char])
      = [italic (slice_to 2000 body)])
  /\ (lacks "_" body = true ->
      NotionClient.parse_inline_formatting ("_"%char :: body ++ ["_"%char])
      = [italic (slice_to 2000 body)]).
Proof.
  intros Hne; repeat split; intros Hl.
  - rewrite parse_whole_part, part_code;
      [reflexivity | discriminate | now apply rmatch_code].
  - rewrite parse_whole_part, part_bold;
      [reflexivity | discriminate | now apply rmatch_bold].
  - destruct body as [|b body]; [easy|].
    unfold lacks in Hl; simpl in Hl.
    apply andb_true_iff in Hl as [Hb Hl]; apply negb_true_iff in Hb.
    rewrite parse_whole_part, part_italic_star;
      [reflexivity | exact Hb | discriminate
      | now apply rmatch_italic_star].
  - rewrite parse_whole_part, part_italic_underscore;
      [reflexivity | discriminate | now apply rmatch_italic_underscore].
Qed.

Lemma styled_text_is_one_span_witness :
  NotionClient.parse_inline_formatting
    ("`"%char :: lit "a*b_c" ++ ["`"%char])
  = [code_span (slice_to 2000 (lit "a*b_c"))]
  /\ NotionClient.parse_inline_formatting
       ("*"%char :: "*"%char :: lit "a_b" ++ ["*"%char; "*"%char])
     = [bold (slice_to 2000 (lit "a_b"))]
  /\ NotionClient.parse_inline_formatting
       ("*"%char :: lit "a_b" ++ ["*"%char])
     = [italic (slice_to 2000 (lit "a_b"))]
  /\ NotionClient.parse_inline_formatting
       ("_"%char :: lit "a*b" ++ ["_"%char])
     = [italic (slice_to 2000 (lit "a*b"))].
Proof.
  split; [|split; [|split]].
  - apply (proj1 (styled_text_is_one_span (lit "a*b_c")
                    ltac:(discriminate))); reflexivity.
  - apply (proj1 (proj2 (styled_text_is_one_span (lit "a_b")
                           ltac:(discriminate)))); reflexivity.
  - apply (proj1 (proj2 (proj2 (styled_text_is_one_span (lit "a_b")
                                  ltac:(discriminate))))); reflexivity.
  - apply (proj2 (proj2 (proj2 (styled_text_is_one_span (lit "a*b")
                                  ltac:(discriminate))))); reflexivity.
Defined.

Lemma dropwhile_app_stop {A} (p : A -> bool) (xs ys : list A) (y : A) :
  forallb p xs = true -> p y = false ->
  dropwhile p (xs ++ y :: ys) = y :: ys.
Proof.
  intros Hx Hy; induction xs as [|x xs IH]; simpl in *.
  - now rewrite Hy.
  - apply andb_true_iff in Hx as [H1 H2]; now rewrite H1, IH.
Qed.

(** A plain run in front of a delimiter is one part, and the scan goes on
    at the delimiter. *)
Lemma findall_plain_then (a0 d : ascii) (a rest : str) :
  forallb nodelim (a0 :: a) = true -> is_delim d = true ->
  Re.findall pattern ((a0 :: a) ++ d :: rest)
  = (a0 :: a) :: Re.findall pattern (d :: rest).
Proof.
  simpl; intros H Hd; apply andb_true_iff in H as [H0 Ha].
  assert (nodelim d = false) as Hn by (unfold nodelim; now rewrite Hd).
  rewrite findall_cons, rmatch_pattern_plain
    by (unfold nodelim in H0; now destruct (is_delim a0)).
  now rewrite (takewhile_app_stop _ _ _ _ Ha Hn),
    (dropwhile_app_stop _ _ _ _ Ha Hn).
Qed.

(** X13: two underscores inside a word make the text between them italic
    and disappear, as in an identifier written in snake case: plain text,
    an underscore, text without underscore, an underscore and plain text
    parse to a plain, an italic and a plain span. *)
Theorem underscores_inside_words (a b c : str) :
  a <> [] -> forallb nodelim a = true ->
  b <> [] -> lacks "_" b = true ->
  c <> [] -> forallb nodelim c = true ->
  NotionClient.parse_inline_formatting
    (a ++ "_"%char :: b ++ "_"%char :: c)
  = [plain (slice_to 2000 a); italic (slice_to 2000 b);
     plain (slice_to 2000 c)].
Proof.
  intros Ha Hna Hb Hlb Hc Hnc.
  destruct a as [|a0 a]; [easy|]; destruct c as [|c0 c]; [easy|].
  rewrite parse_inline_formatting_eq.
  rewrite findall_plain_then by (assumption || reflexivity).
  replace ("_"%char :: b ++ "_"%char :: c0 :: c)
    with (("_"%char :: b ++ ["_"%char]) ++ c0 :: c)
    by (simpl; now rewrite <- app_assoc).
  change (("_"%char :: b ++ ["_"%char]) ++ c0 :: c)
    with ("_"%char :: (b ++ ["_"%char]) ++ c0 :: c).
  rewrite findall_cons.
  change ("_"%char :: (b ++ ["_"%char]) ++ c0 :: c)
    with (("_"%char :: b ++ ["_"%char]) ++ c0 :: c).
  rewrite rmatch_italic_underscore by assumption.
  rewrite (findall_no_delim _ _ Hnc); simpl map.
  rewrite part_italic_underscore.
  simpl in Hna, Hnc.
  apply andb_true_iff in Hna as [Ha0 _].
  apply andb_true_iff in Hnc as [Hc0 _].
  rewrite !rich_text_of_part_plain;
    [reflexivity | |];
    match goal with
    | H : nodelim ?x = true |- is_delim ?x = false =>
        unfold nodelim in H; now destruct (is_delim x)
    end.
Qed.

Lemma underscores_inside_words_witness :
  NotionClient.parse_inline_formatting
    (lit "max" ++ "_"%char :: lit "retry" ++ "_"%char :: lit "count")
  = [plain (slice_to 2000 (lit "max")); italic (slice_to 2000 (lit "retry"));
     plain (slice_to 2000 (lit "count"))].
Proof.
  apply (underscores_inside_words (lit "max") (lit "retry") (lit "count"));
    (discriminate || reflexivity).
Defined.

(** ** The parser adds no text *)

Lemma slice_between_length (a b : nat) (s : str) :
  length (slice_between a b s) <= length s.
Proof.
  unfold slice_between; rewrite length_firstn, length_skipn; lia.
Qed.

Lemma rich_text_of_part_short (part : str) :
  length (content (NotionClient.rich_text_of_part part)) <= length part.
Proof.
  destruct (rich_text_of_part_truncates part) as (full & H & ->).
  unfold slice_to; rewrite length_firstn.
  destruct H as [->|[->| ->]];
    [lia | pose proof (slice_between_length 1 1 part); lia
    | pose proof (slice_between_length 2 2 part); lia].
Qed.

Lemma contents_of_parts_short (parts : list str) :
  length (contents (map NotionClient.rich_text_of_part parts))
  <= length (concat parts).
Proof.
  unfold contents; induction parts as [|p ps IH]; simpl; [lia|].
  rewrite !length_app; pose proof (rich_text_of_part_short p); lia.
Qed.

(** X14: the inline parser only removes text. The contents of the spans of
    a text, taken together, are never longer than the text. *)
Theorem spans_never_longer_than_text (text : str) :
  length (contents (NotionClient.parse_inline_formatting text))
  <= length text.
Proof.
  rewrite parse_inline_formatting_eq.
  destruct (Re.findall pattern text) as [|p ps] eqn:F.
  - unfold contents, plain; cbn [map content concat].
    rewrite app_nil_r; unfold slice_to; rewrite length_firstn; lia.
  - rewrite <- F.
    pose proof (contents_of_parts_short (Re.findall pattern text)).
    pose proof (findall_from_length pattern (length text) text) as L.
    fold (Re.findall pattern text) in L; lia.
Qed.

(** ** Batches of 100 blocks *)

Lemma range_from_concat {A} (xs : list A) (step fuel : nat) :
  0 < step ->
  forall start, length xs - start <= fuel ->
  concat (map (fun i => Api.slice i (i + step) xs)
            (Api.range_from fuel start (length xs) step))
  = skipn start xs.
Proof.
  intros Hs; induction fuel as [|fuel IH]; intros start Hf; simpl.
  - symmetry; apply skipn_all2; lia.
  - destruct (start <? length xs) eqn:E.
    + simpl; rewrite IH by lia.
      unfold Api.slice; replace (start + step - start) with step by lia.
      rewrite Nat.add_comm, <- skipn_skipn; apply firstn_skipn.
    + apply Nat.ltb_ge in E; symmetry; apply skipn_all2; lia.
Qed.

Lemma range_from_below (fuel step stop : nat) :
  forall start i, In i (Api.range_from fuel start stop step) ->
  start <= i < stop.
Proof.
  induction fuel as [|fuel IH]; intros start i; simpl; [easy|].
  destruct (start <? stop) eqn:E; [|easy].
  apply Nat.ltb_lt in E; intros [<-|H]; [lia|].
  apply IH in H; lia.
Qed.

Lemma range_from_length (fuel stop : nat) :
  forall start, stop - start <= fuel ->
  length (Api.range_from fuel start stop 100) = (stop - start + 99) / 100.
Proof.
  induction fuel as [|fuel IH]; intros start Hf; cbn [Api.range_from].
  - replace (stop - start) with 0 by lia; reflexivity.
  - destruct (start <? stop) eqn:E.
    + apply Nat.ltb_lt in E; cbn [length]; rewrite IH by lia.
      destruct (Nat.le_gt_cases 100 (stop - start)) as [H|H].
      * replace (stop - start + 99)
          with ((stop - (start + 100) + 99) + 1 * 100) by lia.
        rewrite (Nat.div_add _ 1 100) by lia; lia.
      * replace (stop - (start + 100)) with 0 by lia.
        rewrite (Nat.div_small (0 + 99) 100) by lia.
        apply (Nat.div_unique (stop - start + 99) 100 1 (stop - start - 1));
          lia.
    + apply Nat.ltb_ge in E.
      replace (stop - start) with 0 by lia; reflexivity.
Qed.

Lemma slice_length {A} (i j : nat) (xs : list A) :
  length (Api.slice i j xs) <= j - i.
Proof. unfold Api.slice; rewrite length_firstn; lia. Qed.

Lemma slice_not_nil {A} (i step : nat) (xs : list A) :
  0 < step -> i < length xs -> Api.slice i (i + step) xs <> [].
Proof.
  intros Hs Hi H; apply (f_equal (@length A)) in H.
  unfold Api.slice in H; rewrite length_firstn, length_skipn in H.
  simpl in H; lia.
Qed.

Section ApiFacts.

Variables props response : Type.
Variable props_truthy : props -> bool.
Variable resp_id : response -> option str.
Variable resp_truthy : response -> bool.
Variable resp_results : response -> list response.
Variable resp_has_more : response -> bool.
Variable server :
  list (Api.request props) -> Api.request props -> option response.

Local Abbreviation patch_batch token page_id blocks :=
  (fun i =>
     Api.mk_request props Api.PATCH
       (lit "/blocks/" ++ page_id ++ lit "/children") token
       (Api.children_data props (Api.slice i (i + 100) blocks))).

Lemma sent_app (l1 l2 : list (Api.request props)) :
  Api.sent props (l1 ++ l2) = Api.sent props l1 ++ Api.sent props l2.
Proof. unfold Api.sent; now rewrite map_app, concat_app. Qed.

Lemma sent_batches (token page_id : str) (blocks : list block)
  (idxs : list nat) :
  Api.sent props (map (patch_batch token page_id blocks) idxs)
  = concat (map (fun i => Api.slice i (i + 100) blocks) idxs).
Proof.
  unfold Api.sent; rewrite map_map; reflexivity.
Qed.

Local Abbreviation send_batch token page_id blocks :=
  (fun i =>
     let batch := Api.slice i (i + 100) blocks in
     Api.bind props
       (Api.notion_request props response server Api.PATCH
          (lit "/blocks/" ++ page_id ++ lit "/children") token
          (Api.children_data props batch))
       (fun _ => Api.ret props tt)).

Lemma for_each_batches_step (token page_id : str) (blocks : list block)
  (i : nat) (idxs : list nat) (log : list (Api.request props)) :
  Api.for_each props (i :: idxs) (send_batch token page_id blocks) log
  = match server log (patch_batch token page_id blocks i) with
    | Some _ =>
      Api.for_each props idxs (send_batch token page_id blocks)
        (log ++ [patch_batch token page_id blocks i])
    | None => (log ++ [patch_batch token page_id blocks i], Api.Raised)
    end.
Proof.
  cbn [Api.for_each]; unfold Api.bind at 1; cbv zeta.
  unfold Api.bind at 1, Api.notion_request at 1; cbv zeta.
  destruct (server log _); reflexivity.
Qed.

(** The batch loop sends the batches in order and stops at the first
    request that fails. *)
Lemma for_each_batches (token page_id : str) (blocks : list block)
  (idxs : list nat) :
  forall log log' out,
  Api.for_each props idxs (send_batch token page_id blocks) log
  = (log', out) ->
  exists k,
    k <= length idxs
    /\ log' = log ++ map (patch_batch token page_id blocks) (firstn k idxs)
    /\ (out = Api.Returned tt /\ k = length idxs \/ out = Api.Raised).
Proof.
  induction idxs as [|i idxs IH]; intros log log' out E.
  - cbn in E; inversion E; subst.
    exists 0; simpl; rewrite app_nil_r; auto.
  - rewrite for_each_batches_step in E.
    destruct (server log _) as [r|].
    + apply IH in E as (k & Hk & -> & E2).
      exists (S k); split; [simpl; lia|]; split.
      * rewrite <- app_assoc; reflexivity.
      * destruct E2 as [[E2 ->]|E2]; [left | right]; auto.
    + inversion E; subst.
      exists 1; split; [simpl; lia|]; split; [reflexivity | now right].
Qed.

Lemma truthy_false {A} (xs : option (list A)) :
  Api.truthy xs = false -> Api.the_list xs = [].
Proof. destruct xs as [[|x xs]|]; simpl; congruence. Qed.

Lemma first_batch {A} (xs : list A) : Api.slice 0 100 xs = firstn 100 xs.
Proof. reflexivity. Qed.

Lemma batches_small (token page_id : str) (blocks : list block)
  (idxs : list nat) :
  Forall (fun rq => length (Api.children_of props rq) <= 100)
    (map (patch_batch token page_id blocks) idxs).
Proof.
  apply Forall_forall; intros rq H; apply in_map_iff in H as (i & <- & _).
  cbn [Api.children_of Api.data].
  pose proof (slice_length i (i + 100) blocks); lia.
Qed.

Lemma batches_split (blocks : list block) (start k : nat) :
  concat (map (fun i => Api.slice i (i + 100) blocks)
            (firstn k (Api.range start (length blocks) 100)))
  ++ concat (map (fun i => Api.slice i (i + 100) blocks)
               (skipn k (Api.range start (length blocks) 100)))
  = skipn start blocks.
Proof.
  rewrite <- concat_app, <- map_app, firstn_skipn.
  unfold Api.range; apply range_from_concat; lia.
Qed.

(** What [create_page] has sent when it ends, however it ends. *)
Lemma create_page_log (token database_id : str) (properties : props)
  (blocks : option (list block)) (log0 log' : list (Api.request props))
  (out : Api.outcome response) :
  Api.create_page props response resp_id server token database_id properties
    blocks log0 = (log', out) ->
  exists new rest,
    log' = log0 ++ new
    /\ Api.sent props new ++ rest = Api.the_list blocks
    /\ Forall (fun rq => length (Api.children_of props rq) <= 100) new
    /\ (forall r, out = Api.Returned r ->
        rest = []
        /\ length new = 1 + (length (Api.the_list blocks) - 1) / 100)
    /\ out <> Api.Unfinished.
Proof.
  unfold Api.create_page; cbv zeta.
  set (bs := Api.the_list blocks).
  set (rq0 := Api.mk_request props Api.POST (lit "/pages") token
                (Api.page_data props database_id properties
                   (if Api.truthy blocks then Some (Api.slice 0 100 bs)
                    else None))).
  assert (Api.sent props [rq0] = firstn 100 bs) as S0.
  { unfold Api.sent, rq0; cbn [map concat Api.children_of Api.data].
    destruct (Api.truthy blocks) eqn:T.
    - now rewrite app_nil_r.
    - unfold bs; now rewrite (truthy_false _ T). }
  assert (Forall (fun rq => length (Api.children_of props rq) <= 100) [rq0])
    as F0.
  { constructor; [|constructor].
    assert (Api.children_of props rq0 = firstn 100 bs) as ->
      by (unfold Api.sent in S0; simpl in S0; now rewrite app_nil_r in S0).
    rewrite length_firstn; lia. }
  unfold Api.bind at 1, Api.notion_request at 1; cbv zeta.
  fold rq0; destruct (server log0 rq0) as [result|].
  2:{ intros E; inversion E; subst.
      exists [rq0], (skipn 100 bs); rewrite S0, firstn_skipn.
      repeat split; auto; discriminate. }
  destruct (Api.truthy blocks && (100 <? length bs)) eqn:C.
  - apply andb_true_iff in C as [_ C]; apply Nat.ltb_lt in C.
    unfold Api.bind at 1; unfold Api.bind at 1, Api.subscript_id.
    destruct (resp_id result) as [page_id|].
    2:{ cbn; intros E; inversion E; subst.
        exists [rq0], (skipn 100 bs); rewrite S0, firstn_skipn.
        repeat split; auto; discriminate. }
    cbn [Api.ret]; unfold Api.append_batches.
    destruct (Api.for_each props _ _ (log0 ++ [rq0])) as [l o] eqn:B.
    apply for_each_batches in B as (k & Hk & -> & Ho).
    assert (Api.sent props
              ([rq0] ++ map (patch_batch token page_id bs)
                          (firstn k (Api.range 100 (length bs) 100)))
            ++ concat (map (fun i => Api.slice i (i + 100) bs)
                         (skipn k (Api.range 100 (length bs) 100)))
            = bs) as Hsent.
    { rewrite sent_app, S0, sent_batches, <- app_assoc, batches_split.
      apply firstn_skipn. }
    assert (Forall (fun rq => length (Api.children_of props rq) <= 100)
              ([rq0] ++ map (patch_batch token page_id bs)
                          (firstn k (Api.range 100 (length bs) 100))))
      as Hsmall by (apply Forall_app; split; [exact F0 | apply batches_small]).
    intros E.
    exists ([rq0] ++ map (patch_batch token page_id bs)
                       (firstn k (Api.range 100 (length bs) 100))),
      (concat (map (fun i => Api.slice i (i + 100) bs)
                 (skipn k (Api.range 100 (length bs) 100)))).
    destruct Ho as [[-> ->] | ->]; cbn in E; inversion E; subst;
      (split; [now rewrite <- app_assoc|]);
      (split; [exact Hsent|]); (split; [exact Hsmall|]);
      (split; [|discriminate]); intros r Hr; [|discriminate].
    split.
    + now rewrite skipn_all.
    + rewrite firstn_all, length_app, length_map; cbn [length].
      unfold Api.range; rewrite range_from_length by lia.
      replace (length bs - 100 + 99) with (length bs - 1) by lia.
      reflexivity.
  - unfold Api.bind, Api.ret; intros E; inversion E; subst.
    exists [rq0], []; rewrite S0, app_nil_r.
    assert (length bs <= 100) as Hlen.
    { apply andb_false_iff in C as [C|C].
      - unfold bs; rewrite (truthy_false _ C); simpl; lia.
      - apply Nat.ltb_ge in C; lia. }
    split; [reflexivity|].
    split; [now apply firstn_all2|].
    split; [exact F0|].
    split; [|discriminate].
    intros r _; split; [reflexivity|].
    cbn [length]; fold bs.
    rewrite (Nat.div_small (length bs - 1) 100) by lia.
    reflexivity.
Qed.

(** X16: however [create_page] ends, it has not run out of rounds, and the
    blocks it has sent are an initial part of its blocks, in order and
    without repetition, in requests of at most 100 blocks: a failure can
    only leave the end of the document unsent. *)
Theorem create_page_sends_prefix (token database_id : str)
  (properties : props) (blocks : option (list block))
  (log0 log' : list (Api.request props)) (out : Api.outcome response) :
  Api.create_page props response resp_id server token database_id properties
    blocks log0 = (log', out) ->
  out <> Api.Unfinished
  /\ exists new rest,
       log' = log0 ++ new
       /\ Api.sent props new ++ rest = Api.the_list blocks
       /\ Forall (fun rq => length (Api.children_of props rq) <= 100) new.
Proof.
  intros E; apply create_page_log in E
    as (new & rest & E1 & E2 & E3 & _ & E5).
  split; [exact E5|]; exists new, rest; auto.
Qed.

End ApiFacts.

Lemma create_page_sends_prefix_witness :
  snd (Api.create_page unit str Some Api.fails_third "t" "db" tt
         (Some Api.many_blocks) []) <> Api.Unfinished
  /\ exists new rest,
       fst (Api.create_page unit str Some Api.fails_third "t" "db" tt
              (Some Api.many_blocks) []) = [] ++ new
       /\ Api.sent unit new ++ rest = Api.the_list (Some Api.many_blocks)
       /\ Forall (fun rq => length (Api.children_of unit rq) <= 100) new.
Proof.
  apply (create_page_sends_prefix unit str Some Api.fails_third "t" "db" tt
           (Some Api.many_blocks) []).
  vm_compute; reflexivity.
Defined.

Section UpdateFacts.

Variables props response : Type.
Variable props_truthy : props -> bool.
Variable resp_id : response -> option str.
Variable resp_truthy : response -> bool.
Variable resp_results : response -> list response.
Variable resp_has_more : response -> bool.
Variable server :
  list (Api.request props) -> Api.request props -> option response.

Lemma bind_inv {A B} (m : Api.M props A) (f : A -> Api.M props B)
  (log log' : list (Api.request props)) (out : Api.outcome B) :
  Api.bind props m f log = (log', out) ->
  (exists a l1, m log = (l1, Api.Returned a) /\ f a l1 = (log', out))
  \/ (m log = (log', Api.Raised) /\ out = Api.Raised)
  \/ (m log = (log', Api.Unfinished) /\ out = Api.Unfinished).
Proof.
  unfold Api.bind; destruct (m log) as [l1 [a| |]]; intros E.
  - left; eauto.
  - right; left; inversion E; auto.
  - right; right; inversion E; auto.
Qed.

Lemma request_inv (method : Api.http_method) (endpoint token : str)
  (data : Api.payload props) (log log' : list (Api.request props))
  (out : Api.outcome response) :
  Api.notion_request props response server method endpoint token data log
  = (log', out) ->
  log' = log ++ [Api.mk_request props method endpoint token data]
  /\ (out = Api.Raised \/ exists r, out = Api.Returned r).
Proof.
  unfold Api.notion_request; cbv zeta; intros E; inversion E; split;
    [reflexivity|].
  destruct (server log _); eauto.
Qed.

(** What the batch loop has sent when it ends. *)
Lemma append_batches_log (start : nat) (token page_id : str)
  (blocks : list block) (log log' : list (Api.request props))
  (out : Api.outcome unit) :
  Api.append_batches props response server start token page_id blocks log
  = (log', out) ->
  exists new rest,
    log' = log ++ new
    /\ Api.sent props new ++ rest = skipn start blocks
    /\ Forall (fun rq => Api.method props rq = Api.PATCH) new
    /\ Forall (fun rq => length (Api.children_of props rq) <= 100) new
    /\ (out = Api.Returned tt /\ rest = [] \/ out = Api.Raised).
Proof.
  unfold Api.append_batches; intros E.
  apply for_each_batches in E as (k & Hk & -> & Ho).
  eexists _, (concat (map (fun i => Api.slice i (i + 100) blocks)
                        (skipn k (Api.range start (length blocks) 100)))).
  split; [reflexivity|]; split; [|split; [|split]].
  - rewrite sent_batches; apply batches_split.
  - apply Forall_forall; intros rq H.
    apply in_map_iff in H as (i & <- & _); reflexivity.
  - apply batches_small.
  - destruct Ho as [[-> ->] | ->]; [left | right]; auto.
    split; [reflexivity|]; now rewrite skipn_all.
Qed.


Lemma extends_refl (Q : Api.request props -> Prop)
  (log : list (Api.request props)) : Api.extends props Q log log.
Proof. exists []; rewrite app_nil_r; auto. Qed.

Lemma extends_trans (Q : Api.request props -> Prop)
  (l1 l2 l3 : list (Api.request props)) :
  Api.extends props Q l1 l2 -> Api.extends props Q l2 l3 ->
  Api.extends props Q l1 l3.
Proof.
  intros (n1 & -> & H1) (n2 & -> & H2); exists (n1 ++ n2).
  rewrite app_assoc; split; [reflexivity | now apply Forall_app].
Qed.

Lemma grows_ret {A} (Q : Api.request props -> Prop) (a : A) :
  Api.grows props Q (Api.ret props a).
Proof. intros log log' out E; inversion E; apply extends_refl. Qed.

Lemma grows_bind {A B} (Q : Api.request props -> Prop) (m : Api.M props A)
  (f : A -> Api.M props B) :
  Api.grows props Q m -> (forall a, Api.grows props Q (f a)) ->
  Api.grows props Q (Api.bind props m f).
Proof.
  intros Hm Hf log log' out E.
  apply bind_inv in E as [(a & l1 & E1 & E) | [[E1 _] | [E1 _]]].
  - apply (extends_trans Q log l1 log'); [exact (Hm _ _ _ E1)|].
    exact (Hf a _ _ _ E).
  - exact (Hm _ _ _ E1).
  - exact (Hm _ _ _ E1).
Qed.

Lemma grows_try_pass (Q : Api.request props -> Prop) (m : Api.M props unit) :
  Api.grows props Q m -> Api.grows props Q (Api.try_pass props m).
Proof.
  intros Hm log log' out; unfold Api.try_pass.
  destruct (m log) as [l o] eqn:E; apply Hm in E.
  destruct o; intros E'; inversion E'; subst; exact E.
Qed.

Lemma grows_for_each {A} (Q : Api.request props -> Prop) (xs : list A)
  (f : A -> Api.M props unit) :
  (forall x, Api.grows props Q (f x)) ->
  Api.grows props Q (Api.for_each props xs f).
Proof.
  intros Hf; induction xs as [|x xs IH]; cbn [Api.for_each].
  - apply grows_ret.
  - apply grows_bind; auto.
Qed.

Lemma grows_request (Q : Api.request props -> Prop)
  (method : Api.http_method) (endpoint token : str)
  (data : Api.payload props) :
  Q (Api.mk_request props method endpoint token data) ->
  Api.grows props Q
    (Api.notion_request props response server method endpoint token data).
Proof.
  intros H log log' out E; apply request_inv in E as [-> _].
  eexists [_]; split; [reflexivity | repeat constructor; exact H].
Qed.

Lemma grows_subscript_id (Q : Api.request props -> Prop) (r : response) :
  Api.grows props Q (Api.subscript_id props response resp_id r).
Proof.
  unfold Api.subscript_id; destruct (resp_id r); [apply grows_ret|].
  intros log log' out E; inversion E; apply extends_refl.
Qed.

(** The deletion loop only lists and deletes. *)
Lemma delete_children_clears (fuel : nat) (token page_id : str) :
  Api.grows props (Api.clears props)
    (Api.delete_children props response resp_id resp_results resp_has_more
       server fuel token page_id).
Proof.
  induction fuel as [|fuel IH]; cbn [Api.delete_children].
  - intros log log' out E; inversion E; apply extends_refl.
  - apply grows_bind; [apply grows_request; split; auto|].
    intros existing; apply grows_bind.
    + apply grows_for_each; intros block; apply grows_try_pass.
      apply grows_bind; [apply grows_subscript_id|].
      intros id; apply grows_bind; [|intros; apply grows_ret].
      apply grows_request; split; auto.
    + intros _; destruct (resp_has_more existing); [exact IH|].
      apply grows_ret.
Qed.

Lemma bind_cases {A B} (m : Api.M props A) (f : A -> Api.M props B)
  (log log' : list (Api.request props)) (out : Api.outcome B) :
  Api.bind props m f log = (log', out) ->
  exists l1 o1,
    m log = (l1, o1)
    /\ match o1 with
       | Api.Returned a => f a l1 = (log', out)
       | Api.Raised => l1 = log' /\ out = Api.Raised
       | Api.Unfinished => l1 = log' /\ out = Api.Unfinished
       end.
Proof.
  unfold Api.bind; destruct (m log) as [l1 o1]; intros E; exists l1, o1.
  split; [reflexivity|]; destruct o1; inversion E; auto.
Qed.

(** Every request of the batch loop carries a block. *)
Lemma append_batches_nonempty (start : nat) (token page_id : str)
  (blocks : list block) :
  Api.grows props (fun rq => Api.children_of props rq <> [])
    (Api.append_batches props response server start token page_id blocks).
Proof.
  intros log0 log' out E; unfold Api.append_batches in E.
  apply for_each_batches in E as (k & _ & -> & _).
  eexists; split; [reflexivity|].
  apply Forall_forall; intros rq H; apply in_map_iff in H as (i & <- & H).
  cbn [Api.children_of Api.data]; apply slice_not_nil; [lia|].
  assert (In i (Api.range start (length blocks) 100)) as H'.
  { rewrite <- (firstn_skipn k (Api.range _ _ _)).
    apply in_or_app; now left. }
  apply range_from_below in H'; lia.
Qed.

(** The part of [update_page] on the properties adds at most a request
    without blocks. *)
Lemma properties_part_log (token page_id : str) (properties : option props) :
  Api.grows props (fun rq => Api.children_of props rq = [])
    (match properties with
     | Some p =>
       if props_truthy p then
         Api.bind props
           (Api.notion_request props response server Api.PATCH
              (lit "/pages/" ++ page_id) token (Api.properties_data props p))
           (fun r => Api.ret props (Some r))
       else Api.ret props None
     | None => Api.ret props None
     end).
Proof.
  destruct properties as [p|]; [destruct (props_truthy p)|];
    try apply grows_ret.
  apply grows_bind; [|intros; apply grows_ret].
  now apply grows_request.
Qed.

Lemma quiet_sent (new : list (Api.request props)) :
  Forall (fun rq => Api.children_of props rq = []) new ->
  Api.sent props new = [].
Proof.
  induction 1 as [|rq new H _ IH]; [reflexivity|].
  unfold Api.sent in *; cbn [map concat]; now rewrite IH, H.
Qed.

Lemma clears_quiet (new : list (Api.request props)) :
  Forall (Api.clears props) new ->
  Forall (fun rq => Api.children_of props rq = []) new.
Proof.
  apply Forall_impl; intros rq [_ H]; unfold Api.children_of.
  now rewrite H.
Qed.

(** What [update_page] has sent when it ends, with [replace_blocks]. *)
Lemma update_page_replace_log (fuel : nat)
  (token page_id : str) (properties : option props)
  (blocks : option (list block)) (log0 log' : list (Api.request props))
  (out : Api.outcome (response + str)) :
  Api.update_page props props_truthy response resp_id resp_truthy
    resp_results resp_has_more server fuel token page_id properties blocks
    true log0 = (log', out) ->
  exists pre post rest,
    log' = log0 ++ pre ++ post
    /\ Forall (fun rq => Api.children_of props rq = []) pre
    /\ Forall (fun rq => Api.method props rq = Api.PATCH
                         /\ 1 <= length (Api.children_of props rq) <= 100)
         post
    /\ Api.sent props post ++ rest = Api.the_list blocks
    /\ (forall v, out = Api.Returned v -> rest = []).
Proof.
  unfold Api.update_page; cbv zeta; intros E.
  apply bind_cases in E as (l1 & o1 & E1 & E).
  apply properties_part_log in E1 as (head & -> & Hhead).
  assert (forall o : Api.outcome (response + str),
            (forall v, o <> Api.Returned v) ->
            exists pre post rest,
              log0 ++ head = log0 ++ pre ++ post
              /\ Forall (fun rq => Api.children_of props rq = []) pre
              /\ Forall (fun rq => Api.method props rq = Api.PATCH
                           /\ 1 <= length (Api.children_of props rq) <= 100)
                   post
              /\ Api.sent props post ++ rest = Api.the_list blocks
              /\ (forall v, o = Api.Returned v -> rest = [])) as Stop.
  { intros o Ho; exists head, [], (Api.the_list blocks).
    rewrite app_nil_r; repeat split; auto.
    intros v Hv; now apply Ho in Hv. }
  destruct o1 as [result| |];
    [|destruct E as [<- ->]; apply Stop; discriminate
     |destruct E as [<- ->]; apply Stop; discriminate].
  clear Stop.
  apply bind_cases in E as (l2 & o2 & E2 & E).
  assert (exists pre post rest,
            l2 = log0 ++ pre ++ post
            /\ Forall (fun rq => Api.children_of props rq = []) pre
            /\ Forall (fun rq => Api.method props rq = Api.PATCH
                         /\ 1 <= length (Api.children_of props rq) <= 100)
                 post
            /\ Api.sent props post ++ rest = Api.the_list blocks
            /\ (o2 = Api.Returned tt -> rest = []))
    as (pre & post & rest & -> & Hpre & Hpost & Hsent & Hrest).
  { destruct (Api.truthy blocks) eqn:T.
    - apply bind_cases in E2 as (l3 & o3 & E3 & E2).
      apply delete_children_clears in E3 as (dels & -> & Hdels).
      apply clears_quiet in Hdels.
      destruct o3 as [u| |].
      + pose proof (append_batches_nonempty 0 token page_id
                      (Api.the_list blocks) _ _ _ E2) as (new' & N1 & N2).
        apply append_batches_log in E2
          as (new & rest & -> & Hsent & Hp & Hsmall & Ho).
        apply app_inv_head in N1; subst new'.
        exists (head ++ dels), new, rest.
        split; [now rewrite <- !app_assoc|].
        split; [now apply Forall_app|].
        split.
        * apply Forall_forall; intros rq H.
          rewrite Forall_forall in Hp, Hsmall, N2.
          specialize (Hp rq H); specialize (Hsmall rq H).
          specialize (N2 rq H).
          destruct (Api.children_of props rq); [congruence|].
          simpl in *; split; [exact Hp | lia].
        * split; [exact Hsent|].
          intros ->; destruct Ho as [[_ Ho] | Ho]; [exact Ho | discriminate].
      + destruct E2 as [<- ->].
        exists (head ++ dels), [], (Api.the_list blocks).
        rewrite app_nil_r, app_assoc; repeat split; auto.
        * now apply Forall_app.
        * discriminate.
      + destruct E2 as [<- ->].
        exists (head ++ dels), [], (Api.the_list blocks).
        rewrite app_nil_r, app_assoc; repeat split; auto.
        * now apply Forall_app.
        * discriminate.
    - inversion E2; subst.
      exists head, [], []; rewrite app_nil_r; repeat split; auto.
      now rewrite (truthy_false _ T). }
  exists pre, post, rest.
  destruct o2 as [[]| |].
  - inversion E; subst; repeat split; auto.
  - destruct E as [<- ->]; repeat split; auto; discriminate.
  - destruct E as [<- ->]; repeat split; auto; discriminate.
Qed.

(** X18: with [replace_blocks], however [update_page] ends, its requests
    come in two runs. The first run carries no block: the request on the
    properties, then the listing and the deletions. The second run is made
    of PATCH requests that carry between 1 and 100 blocks each, an initial
    part of the blocks in order, all of them when the call returns. So
    nothing is listed or deleted once a block has been appended. *)
Theorem update_page_clears_before_appending (fuel : nat)
  (token page_id : str) (properties : option props)
  (blocks : option (list block)) (log0 log' : list (Api.request props))
  (out : Api.outcome (response + str)) :
  Api.update_page props props_truthy response resp_id resp_truthy
    resp_results resp_has_more server fuel token page_id properties blocks
    true log0 = (log', out) ->
  exists pre post rest,
    log' = log0 ++ pre ++ post
    /\ Forall (fun rq => Api.children_of props rq = []) pre
    /\ Forall (fun rq => Api.method props rq = Api.PATCH
                         /\ 1 <= length (Api.children_of props rq) <= 100)
         post
    /\ Api.sent props post ++ rest = Api.the_list blocks
    /\ (forall v, out = Api.Returned v -> rest = []).
Proof. apply update_page_replace_log. Qed.

Lemma returns_ret {A} (P : A -> Prop) (a : A) :
  P a -> Api.returns props P (Api.ret props a).
Proof. intros H log; exists log, a; auto. Qed.

Lemma returns_bind {A B} (P : A -> Prop) (Q : B -> Prop)
  (m : Api.M props A) (f : A -> Api.M props B) :
  Api.returns props P m -> (forall a, P a -> Api.returns props Q (f a)) ->
  Api.returns props Q (Api.bind props m f).
Proof.
  intros Hm Hf log; destruct (Hm log) as (l1 & a & E1 & Ha).
  destruct (Hf a Ha l1) as (l2 & b & E2 & Hb).
  exists l2, b; unfold Api.bind; rewrite E1; auto.
Qed.

Lemma returns_for_each {A} (xs : list A) (f : A -> Api.M props unit) :
  (forall x, Api.returns props (fun _ => True) (f x)) ->
  Api.returns props (fun _ => True) (Api.for_each props xs f).
Proof.
  intros Hf; induction xs as [|x xs IH]; cbn [Api.for_each].
  - now apply returns_ret.
  - apply (returns_bind (fun _ => True)); auto.
Qed.

Lemma returns_request (P : response -> Prop) (method : Api.http_method)
  (endpoint token : str) (data : Api.payload props) :
  (forall log, exists r,
     server log (Api.mk_request props method endpoint token data) = Some r
     /\ P r) ->
  Api.returns props P
    (Api.notion_request props response server method endpoint token data).
Proof.
  intros H log; destruct (H log) as (r & E & Hr).
  exists (log ++ [Api.mk_request props method endpoint token data]), r.
  unfold Api.notion_request; cbv zeta; rewrite E; auto.
Qed.

(** A request guarded by [try: ... except: pass] returns whether it is
    answered or not, and whether the block has an id or not. *)
Lemma returns_guarded_delete (token : str) (block : response) :
  Api.returns props (fun _ => True)
    (Api.try_pass props
       (Api.bind props (Api.subscript_id props response resp_id block)
          (fun id =>
             Api.bind props
               (Api.notion_request props response server Api.DELETE
                  (lit "/blocks/" ++ id) token (Api.no_data props))
               (fun _ => Api.ret props tt)))).
Proof.
  intros log; unfold Api.try_pass, Api.bind, Api.subscript_id.
  destruct (resp_id block) as [id|]; cbn [Api.ret Api.raise]; eauto.
  unfold Api.notion_request; cbv zeta.
  destruct (server log _); cbn [Api.ret]; eauto.
Qed.

Lemma returns_append_batches (start : nat) (token page_id : str)
  (blocks : list block) :
  (forall log rq, Api.method props rq = Api.PATCH -> server log rq <> None) ->
  Api.returns props (fun _ => True)
    (Api.append_batches props response server start token page_id blocks).
Proof.
  intros H; unfold Api.append_batches; apply returns_for_each; intros i.
  cbv zeta; apply (returns_bind (fun _ => True));
    [|intros; now apply returns_ret].
  apply returns_request; intros log.
  destruct (server log (Api.mk_request props Api.PATCH
                          (lit "/blocks/" ++ page_id ++ lit "/children")
                          token
                          (Api.children_data props
                             (Api.slice i (i + 100) blocks)))) as [r|] eqn:E;
    [eauto|].
  now apply H in E.
Qed.

(** X19: a deletion that fails does not stop [update_page]. When every
    request other than a DELETE is answered and the listing reports no
    further page, the call with [replace_blocks] returns, whatever the
    answers to the DELETE requests are and whether the listed blocks have
    an id or not, and it has sent every block. *)
Theorem update_page_survives_failed_deletes (fuel : nat)
  (token page_id : str) (properties : option props)
  (blocks : option (list block)) (log0 : list (Api.request props)) :
  (forall log rq, Api.method props rq <> Api.DELETE ->
     exists r, server log rq = Some r /\ resp_has_more r = false) ->
  exists new v,
    Api.update_page props props_truthy response resp_id resp_truthy
      resp_results resp_has_more server (S fuel) token page_id properties
      blocks true log0 = (log0 ++ new, Api.Returned v)
    /\ Api.sent props new = Api.the_list blocks.
Proof.
  intros H.
  assert (forall log rq, Api.method props rq = Api.PATCH ->
            server log rq <> None) as Hpatch.
  { intros log rq M; destruct (H log rq) as (r & E & _); congruence. }
  assert (Api.returns props (fun _ => True)
            (Api.update_page props props_truthy response resp_id resp_truthy
               resp_results resp_has_more server (S fuel) token page_id
               properties blocks true)) as R.
  { unfold Api.update_page; cbv zeta.
    apply (returns_bind (fun _ => True)).
    - destruct properties as [p|]; [destruct (props_truthy p)|];
        try now apply returns_ret.
      apply (returns_bind (fun _ => True)); [|intros; now apply returns_ret].
      apply returns_request; intros log.
      destruct (H log (Api.mk_request props Api.PATCH
                         (lit "/pages/" ++ page_id) token
                         (Api.properties_data props p)))
        as (r & E & _); [discriminate | eauto].
    - intros result _; apply (returns_bind (fun _ => True));
        [|intros; now apply returns_ret].
      destruct (Api.truthy blocks); [|now apply returns_ret].
      apply (returns_bind (fun _ => True));
        [|intros; now apply returns_append_batches].
      cbn [Api.delete_children].
      apply (returns_bind (fun r => resp_has_more r = false)).
      + apply returns_request; intros log; apply H; discriminate.
      + intros existing ->; apply (returns_bind (fun _ => True));
          [|intros; now apply returns_ret].
        apply returns_for_each; intros block; apply returns_guarded_delete. }
  destruct (R log0) as (log' & v & E & _).
  pose proof (update_page_replace_log _ _ _ _ _ _ _ _ E)
    as (pre & post & rest & -> & Hpre & _ & Hsent & Hrest).
  rewrite (Hrest v eq_refl), app_nil_r in Hsent.
  exists (pre ++ post), v; split; [exact E|].
  now rewrite sent_app, (quiet_sent _ Hpre).
Qed.

(** X20: the deletion loop of [update_page] ends only when a listing
    reports no further page. When every listing is answered and reports
    more, the call with [replace_blocks] and one block or more never
    returns and sends no block. Either the request on the properties is
    made and fails, and the call raises after that one request; or the call
    does not end within any number of rounds: after [fuel] rounds it has
    made [fuel] listings or more. *)
Theorem update_page_listing_never_ends (fuel : nat) (token page_id : str)
  (properties : option props) (b : block) (bs : list block)
  (log0 : list (Api.request props)) :
  (forall log rq, Api.method props rq = Api.GET ->
     exists r, server log rq = Some r /\ resp_has_more r = true) ->
  exists new out,
    Api.update_page props props_truthy response resp_id resp_truthy
      resp_results resp_has_more server fuel token page_id properties
      (Some (b :: bs)) true log0 = (log0 ++ new, out)
    /\ Api.sent props new = []
    /\ (out = Api.Unfinished
        /\ fuel <= length (filter (fun rq => match Api.method props rq with
                                             | Api.GET => true
                                             | _ => false
                                             end) new)
        \/ out = Api.Raised
           /\ exists p,
                properties = Some p
                /\ props_truthy p = true
                /\ new = [Api.mk_request props Api.PATCH
                            (lit "/pages/" ++ page_id) token
                            (Api.properties_data props p)]
                /\ server log0
                     (Api.mk_request props Api.PATCH
                        (lit "/pages/" ++ page_id) token
                        (Api.properties_data props p)) = None).
Proof.
  intros H.
  set (is_get := fun rq : Api.request props =>
                   match Api.method props rq with
                   | Api.GET => true
                   | _ => false
                   end).
  assert (forall n log, exists new,
            Api.delete_children props response resp_id resp_results
              resp_has_more server n token page_id log
            = (log ++ new, Api.Unfinished)
            /\ Forall (fun rq => Api.children_of props rq = []) new
            /\ n <= length (filter is_get new)) as Loop.
  { induction n as [|n IH]; intros log; cbn [Api.delete_children].
    - exists []; rewrite app_nil_r; repeat split; auto.
    - set (rq := Api.mk_request props Api.GET
                   (lit "/blocks/" ++ page_id ++ lit "/children?page_size=100")
                   token (Api.no_data props)).
      destruct (H log rq eq_refl) as (existing & E & More).
      unfold Api.bind at 1, Api.notion_request at 1; cbv zeta.
      fold rq; rewrite E.
      destruct (returns_for_each (resp_results existing) _
                  (returns_guarded_delete token) (log ++ [rq]))
        as (l1 & [] & E1 & _).
      pose proof E1 as G.
      apply (grows_for_each (Api.clears props)) in G as (dels & -> & Hdels).
      2:{ intros block; apply grows_try_pass.
          apply grows_bind; [apply grows_subscript_id|].
          intros id; apply grows_bind; [|intros; apply grows_ret].
          apply grows_request; split; auto. }
      unfold Api.bind at 1; rewrite E1, More.
      destruct (IH ((log ++ [rq]) ++ dels)) as (new & E2 & Hq & Hn).
      exists ([rq] ++ dels ++ new); rewrite E2, <- !app_assoc.
      split; [reflexivity|]; split.
      + apply Forall_app; split; [repeat constructor|].
        apply Forall_app; split; [now apply clears_quiet | exact Hq].
      + rewrite filter_app, length_app; cbn [filter length].
        unfold is_get at 1; cbn [Api.method rq].
        rewrite filter_app, length_app; simpl; lia. }
  assert (forall head result,
            Forall (fun rq => Api.children_of props rq = []) head ->
            exists new,
              Api.bind props
                (Api.bind props
                   (Api.delete_children props response resp_id resp_results
                      resp_has_more server fuel token page_id)
                   (fun _ =>
                      Api.append_batches props response server 0 token
                        page_id (b :: bs)))
                (fun _ =>
                   Api.ret props
                     (match result with
                      | Some r => if resp_truthy r then inl r else inr page_id
                      | None => inr page_id
                      end)) (log0 ++ head)
              = (log0 ++ new, Api.Unfinished)
              /\ Api.sent props new = []
              /\ fuel <= length (filter is_get new)) as Rest.
  { intros head result Hhead.
    destruct (Loop fuel (log0 ++ head)) as (new & E2 & Hq & Hn).
    exists (head ++ new).
    unfold Api.bind at 1, Api.bind at 1; rewrite E2, app_assoc.
    split; [reflexivity|]; split.
    - apply quiet_sent, Forall_app; auto.
    - rewrite filter_app, length_app; lia. }
  unfold Api.update_page; cbv zeta; unfold Api.bind at 1.
  cbn [Api.truthy Api.the_list].
  destruct properties as [p|]; [destruct (props_truthy p) eqn:T|].
  - unfold Api.bind at 1, Api.notion_request at 1; cbv zeta.
    set (rq := Api.mk_request props Api.PATCH (lit "/pages/" ++ page_id)
                 token (Api.properties_data props p)).
    destruct (server log0 rq) as [r|] eqn:E.
    + cbn [Api.ret].
      destruct (Rest [rq] (Some r)) as (new & E2 & Hs & Hn);
        [repeat constructor|].
      exists new, Api.Unfinished; split; [exact E2|]; split; [exact Hs|].
      left; split; [reflexivity | exact Hn].
    + exists [rq], Api.Raised; split; [reflexivity|]; split; [reflexivity|].
      right; split; [reflexivity|]; exists p; auto.
  - cbn [Api.ret].
    destruct (Rest [] None) as (new & E2 & Hs & Hn); [constructor|].
    rewrite app_nil_r in E2.
    exists new, Api.Unfinished; split; [exact E2|]; split; [exact Hs|].
    left; split; [reflexivity | exact Hn].
  - cbn [Api.ret].
    destruct (Rest [] None) as (new & E2 & Hs & Hn); [constructor|].
    rewrite app_nil_r in E2.
    exists new, Api.Unfinished; split; [exact E2|]; split; [exact Hs|].
    left; split; [reflexivity | exact Hn].
Qed.

(** The deletion loop of the sync script only lists and deletes. *)
Lemma delete_children_sync_clears (fuel : nat) (token page_id : str) :
  Api.grows props (Api.clears props)
    (Api.delete_children_sync props response resp_id resp_results
       resp_has_more server fuel token page_id).
Proof.
  induction fuel as [|fuel IH]; cbn [Api.delete_children_sync].
  - intros log log' out E; inversion E; apply extends_refl.
  - apply grows_bind; [apply grows_request; split; auto|].
    intros existing; apply grows_bind.
    + apply grows_for_each; intros block.
      apply grows_bind; [apply grows_subscript_id|].
      intros id; apply grows_try_pass.
      apply grows_bind; [|intros; apply grows_ret].
      apply grows_request; split; auto.
    + intros _; destruct (resp_has_more existing); [exact IH|].
      apply grows_ret.
Qed.

Lemma try_pass_cases (m : Api.M props unit)
  (log log' : list (Api.request props)) (out : Api.outcome unit) :
  Api.try_pass props m log = (log', out) ->
  out <> Api.Raised /\ exists o, m log = (log', o).
Proof.
  unfold Api.try_pass; destruct (m log) as [l o]; destruct o;
    intros E; inversion E; subst; split; eauto; discriminate.
Qed.

(** What [update_notion_page] has sent when it ends. *)
Lemma update_notion_page_log (fuel : nat)
  (token page_id title priority : str) (blocks : list block)
  (log0 log' : list (Api.request props)) (out : Api.outcome response) :
  Api.update_notion_page props response resp_id resp_results resp_has_more
    server fuel token page_id title priority blocks log0 = (log', out) ->
  exists pre post rest,
    log' = log0 ++ pre ++ post
    /\ Forall (fun rq => Api.children_of props rq = []) pre
    /\ Forall (fun rq => Api.method props rq = Api.PATCH
                         /\ 1 <= length (Api.children_of props rq) <= 100)
         post
    /\ Api.sent props post ++ rest = blocks
    /\ (forall r, out = Api.Returned r -> rest = []).
Proof.
  unfold Api.update_notion_page; intros E.
  apply bind_cases in E as (l1 & o1 & E1 & E).
  apply request_inv in E1 as [-> _].
  set (rq0 := Api.mk_request props Api.PATCH (lit "/pages/" ++ page_id)
                token (Api.problem_properties props title priority)) in *.
  destruct o1 as [result| |].
  2,3: destruct E as [<- ->]; exists [rq0], [], blocks;
       repeat split; auto; discriminate.
  apply bind_cases in E as (l2 & o2 & E2 & E).
  apply try_pass_cases in E2 as [_ (o & E2)].
  apply delete_children_sync_clears in E2 as (dels & -> & Hdels).
  apply clears_quiet in Hdels.
  assert (Forall (fun rq => Api.children_of props rq = []) ([rq0] ++ dels))
    as Hpre by (apply Forall_app; split; [repeat constructor | exact Hdels]).
  destruct o2 as [u| |].
  2,3: destruct E as [<- ->]; exists ([rq0] ++ dels), [], blocks;
       rewrite app_nil_r, app_assoc; repeat split; auto; discriminate.
  apply bind_cases in E as (l3 & o3 & E3 & E).
  destruct blocks as [|b bs].
  - inversion E3; subst; inversion E; subst.
    exists ([rq0] ++ dels), [], []; rewrite app_nil_r, app_assoc.
    repeat split; auto.
  - pose proof (append_batches_nonempty 0 token page_id (b :: bs) _ _ _ E3)
      as (new' & N1 & N2).
    apply append_batches_log in E3
      as (new & rest & -> & Hsent & Hp & Hsmall & Ho).
    apply app_inv_head in N1; subst new'.
    exists ([rq0] ++ dels), new, rest.
    assert (Forall (fun rq => Api.method props rq = Api.PATCH
                      /\ 1 <= length (Api.children_of props rq) <= 100) new)
      as Hpost.
    { apply Forall_forall; intros rq H.
      rewrite Forall_forall in Hp, Hsmall, N2.
      specialize (Hp rq H); specialize (Hsmall rq H); specialize (N2 rq H).
      destruct (Api.children_of props rq); [congruence|].
      simpl in *; split; [exact Hp | lia]. }
    destruct o3 as [[]| |].
    + inversion E; subst; rewrite <- !app_assoc.
      repeat split; auto.
      destruct Ho as [[_ Ho] | Ho]; [intros; exact Ho | discriminate].
    + destruct E as [<- ->]; rewrite <- !app_assoc.
      repeat split; auto; discriminate.
    + destruct E as [<- ->]; rewrite <- !app_assoc.
      repeat split; auto; discriminate.
Qed.


(** X22: clearing the page never stops [update_notion_page]. When every
    PATCH request is answered the call does not raise, whatever happens to
    the listings and the deletions; and when it returns, every block has
    been sent, in order, after all listings and deletions. *)
Theorem update_notion_page_goes_on (fuel : nat)
  (token page_id title priority : str) (blocks : list block)
  (log0 log' : list (Api.request props)) (out : Api.outcome response) :
  (forall log rq, Api.method props rq = Api.PATCH -> server log rq <> None) ->
  Api.update_notion_page props response resp_id resp_results resp_has_more
    server fuel token page_id title priority blocks log0 = (log', out) ->
  out <> Api.Raised
  /\ (forall r, out = Api.Returned r ->
      exists pre post,
        log' = log0 ++ pre ++ post
        /\ Api.sent props pre = []
        /\ Forall (fun rq => Api.method props rq = Api.PATCH) post
        /\ Api.sent props post = blocks).
Proof.
  clear props_truthy resp_truthy; intros Hpatch E; split.
  - unfold Api.update_notion_page in E.
    apply bind_cases in E as (l1 & o1 & E1 & E).
    unfold Api.notion_request in E1; cbv zeta in E1.
    destruct (server log0 _) as [result|] eqn:E0 in E1;
      [|now apply Hpatch in E0].
    inversion E1; subst; clear E1.
    apply bind_cases in E as (l2 & o2 & E2 & E).
    apply try_pass_cases in E2 as [N2 _].
    destruct o2 as [u| |]; [|congruence|destruct E as [_ ->]; discriminate].
    apply bind_cases in E as (l3 & o3 & E3 & E).
    assert (exists u', o3 = Api.Returned u') as (u' & ->).
    { destruct blocks as [|b bs]; [inversion E3; eauto|].
      destruct (returns_append_batches 0 token page_id (b :: bs) Hpatch l2)
        as (l & a & Ea & _).
      rewrite Ea in E3; inversion E3; eauto. }
    inversion E; discriminate.
  - intros r ->; apply update_notion_page_log in E
      as (pre & post & rest & -> & Hpre & Hpost & Hsent & Hrest).
    rewrite (Hrest r eq_refl), app_nil_r in Hsent.
    exists pre, post; split; [reflexivity|].
    split; [now apply quiet_sent|]; split; [|exact Hsent].
    revert Hpost; apply Forall_impl; tauto.
Qed.

Local Abbreviation patch_batch token page_id blocks :=
  (fun i =>
     Api.mk_request props Api.PATCH
       (lit "/blocks/" ++ page_id ++ lit "/children") token
       (Api.children_data props (Api.slice i (i + 100) blocks))).

(** What [create_notion_page] has sent when it ends. *)
Lemma create_notion_page_log (token title priority : str)
  (blocks : list block) (log0 log' : list (Api.request props))
  (out : Api.outcome response) :
  Api.create_notion_page props response resp_id server token title priority
    blocks log0 = (log', out) ->
  out <> Api.Unfinished
  /\ exists tail rest,
       log' = log0
              ++ Api.mk_request props Api.POST (lit "/pages") token
                   (Api.problem_page props title priority
                      (firstn 100 blocks))
                 :: tail
       /\ Api.sent props tail ++ rest = skipn 100 blocks
       /\ Forall (fun rq => Api.method props rq = Api.PATCH
                            /\ length (Api.children_of props rq) <= 100) tail
       /\ (forall r, out = Api.Returned r ->
           rest = [] /\ length tail = (length blocks - 1) / 100).
Proof.
  unfold Api.create_notion_page; intros E.
  apply bind_cases in E as (l1 & o1 & E1 & E).
  apply request_inv in E1 as [-> Ho1]; rewrite first_batch in *.
  destruct o1 as [result| |].
  2:{ destruct E as [<- ->]; split; [discriminate|].
      exists [], (skipn 100 blocks); repeat split; auto; discriminate. }
  2:{ destruct Ho1 as [Ho1 | [r Ho1]]; discriminate. }
  apply bind_cases in E as (l2 & o2 & E2 & E).
  destruct (100 <? length blocks) eqn:C.
  - apply Nat.ltb_lt in C.
    apply bind_cases in E2 as (l3 & o3 & E3 & E2).
    unfold Api.subscript_id in E3.
    destruct (resp_id result) as [page_id|]; inversion E3; subst; clear E3.
    2:{ destruct E2 as [<- ->], E as [<- ->]; split; [discriminate|].
        exists [], (skipn 100 blocks); repeat split; auto; discriminate. }
    unfold Api.append_batches in E2.
    apply for_each_batches in E2 as (k & Hk & -> & Hout).
    assert (Api.sent props
              (map (patch_batch token page_id blocks)
                 (firstn k (Api.range 100 (length blocks) 100)))
            ++ concat (map (fun i => Api.slice i (i + 100) blocks)
                         (skipn k (Api.range 100 (length blocks) 100)))
            = skipn 100 blocks) as Hsent
      by (rewrite sent_batches; apply batches_split).
    assert (Forall (fun rq => Api.method props rq = Api.PATCH
                      /\ length (Api.children_of props rq) <= 100)
              (map (patch_batch token page_id blocks)
                 (firstn k (Api.range 100 (length blocks) 100)))) as Hp.
    { apply Forall_forall; intros rq H.
      apply in_map_iff in H as (i & <- & _); split; [reflexivity|].
      cbn [Api.children_of Api.data].
      pose proof (slice_length i (i + 100) blocks); lia. }
    destruct Hout as [[-> ->] | ->].
    + inversion E; subst; split; [discriminate|].
      eexists _, []; rewrite <- app_assoc; split; [reflexivity|].
      rewrite skipn_all in Hsent; repeat split; auto.
      rewrite firstn_all, length_map.
      unfold Api.range; rewrite range_from_length by lia.
      replace (length blocks - 100 + 99) with (length blocks - 1) by lia.
      reflexivity.
    + destruct E as [<- ->]; split; [discriminate|].
      eexists _, _; rewrite <- app_assoc; split; [reflexivity|].
      split; [exact Hsent|]; split; [exact Hp|]; discriminate.
  - apply Nat.ltb_ge in C.
    inversion E2; subst; inversion E; subst; split; [discriminate|].
    exists [], []; repeat split; auto.
    + now rewrite skipn_all2.
    + now rewrite (Nat.div_small (length blocks - 1) 100) by lia.
Qed.

(** X23: [create_notion_page] starts with one POST request that always
    has the key for the children, with the first 100 blocks (none for an
    empty list); the requests after it are PATCH requests of at most 100
    blocks that carry the following blocks in order. When the call returns
    every block has been sent, in [1 + (n - 1) / 100] requests for [n]
    blocks. *)
Theorem create_notion_page_sends_all (token title priority : str)
  (blocks : list block) (log0 log' : list (Api.request props))
  (r : response) :
  Api.create_notion_page props response resp_id server token title priority
    blocks log0 = (log', Api.Returned r) ->
  exists tail,
    log' = log0
           ++ Api.mk_request props Api.POST (lit "/pages") token
                (Api.problem_page props title priority (firstn 100 blocks))
              :: tail
    /\ Forall (fun rq => Api.method props rq = Api.PATCH
                         /\ length (Api.children_of props rq) <= 100) tail
    /\ Api.sent props tail = skipn 100 blocks
    /\ length tail = (length blocks - 1) / 100.
Proof.
  intros E; apply create_notion_page_log in E
    as (_ & tail & rest & -> & Hsent & Hp & Hr).
  destruct (Hr r eq_refl) as [-> Hn]; rewrite app_nil_r in Hsent.
  exists tail; auto.
Qed.

End UpdateFacts.


Lemma update_page_clears_before_appending_witness :
  exists pre post rest,
    fst (Api.update_page unit (fun _ => true) str Api.id_unless_empty
           (fun _ => true) Api.two_children (fun _ => false)
           Api.fails_deletes 1 "t" "p1" (Some tt) (Some Api.many_blocks)
           true []) = [] ++ pre ++ post
    /\ Forall (fun rq => Api.children_of unit rq = []) pre
    /\ Forall (fun rq => Api.method unit rq = Api.PATCH
                         /\ 1 <= length (Api.children_of unit rq) <= 100)
         post
    /\ Api.sent unit post ++ rest = Api.the_list (Some Api.many_blocks)
    /\ (forall v,
          snd (Api.update_page unit (fun _ => true) str Api.id_unless_empty
                 (fun _ => true) Api.two_children (fun _ => false)
                 Api.fails_deletes 1 "t" "p1" (Some tt)
                 (Some Api.many_blocks) true []) = Api.Returned v ->
          rest = []).
Proof.
  apply (update_page_clears_before_appending unit str (fun _ => true)
           Api.id_unless_empty (fun _ => true) Api.two_children
           (fun _ => false) Api.fails_deletes 1 "t" "p1" (Some tt)
           (Some Api.many_blocks) []).
  vm_compute; reflexivity.
Defined.

Lemma update_page_survives_failed_deletes_witness :
  exists new v,
    Api.update_page unit (fun _ => true) str Api.id_unless_empty
      (fun _ => true) Api.two_children (fun _ => false) Api.fails_deletes 1
      "t" "p1" (Some tt) (Some Api.many_blocks) true []
    = ([] ++ new, Api.Returned v)
    /\ Api.sent unit new = Api.the_list (Some Api.many_blocks).
Proof.
  apply (update_page_survives_failed_deletes unit str (fun _ => true)
           Api.id_unless_empty (fun _ => true) Api.two_children
           (fun _ => false) Api.fails_deletes 0 "t" "p1" (Some tt)
           (Some Api.many_blocks) []).
  intros log rq H; exists (lit "p1"); split; [|reflexivity].
  unfold Api.fails_deletes; destruct (Api.method unit rq);
    [reflexivity | reflexivity | reflexivity | now elim H].
Defined.

Lemma update_page_listing_never_ends_witness :
  exists new out,
    Api.update_page unit (fun _ => true) str Some (fun _ => true)
      Api.two_children (fun _ => true) Api.always_answers 3 "t" "p1"
      (Some tt) (Some (divider :: Api.many_blocks)) true []
    = ([] ++ new, out)
    /\ Api.sent unit new = []
    /\ (out = Api.Unfinished
        /\ 3 <= length (filter (fun rq => match Api.method unit rq with
                                          | Api.GET => true
                                          | _ => false
                                          end) new)
        \/ out = Api.Raised
           /\ exists p,
                Some tt = Some p
                /\ true = true
                /\ new = [Api.mk_request unit Api.PATCH
                            (lit "/pages/" ++ lit "p1") "t"
                            (Api.properties_data unit p)]
                /\ Api.always_answers []
                     (Api.mk_request unit Api.PATCH
                        (lit "/pages/" ++ lit "p1") "t"
                        (Api.properties_data unit p)) = None).
Proof.
  apply (update_page_listing_never_ends unit str (fun _ => true) Some
           (fun _ => true) Api.two_children (fun _ => true)
           Api.always_answers 3 "t" "p1" (Some tt) divider Api.many_blocks
           []).
  intros log rq H; exists (lit "p1"); split; reflexivity.
Defined.


Lemma update_notion_page_goes_on_witness :
  snd (Api.update_notion_page unit str Api.id_unless_empty Api.two_children
         (fun _ => false) Api.always_answers 1 "t" "p1" "Title" "High"
         Api.many_blocks []) <> Api.Raised
  /\ (forall r,
        snd (Api.update_notion_page unit str Api.id_unless_empty
               Api.two_children (fun _ => false) Api.always_answers 1 "t"
               "p1" "Title" "High" Api.many_blocks []) = Api.Returned r ->
        exists pre post,
          fst (Api.update_notion_page unit str Api.id_unless_empty
                 Api.two_children (fun _ => false) Api.always_answers 1 "t"
                 "p1" "Title" "High" Api.many_blocks []) = [] ++ pre ++ post
          /\ Api.sent unit pre = []
          /\ Forall (fun rq => Api.method unit rq = Api.PATCH) post
          /\ Api.sent unit post = Api.many_blocks).
Proof.
  apply (update_notion_page_goes_on unit str Api.id_unless_empty
           Api.two_children (fun _ => false) Api.always_answers 1 "t" "p1"
           "Title" "High" Api.many_blocks []).
  - intros log rq H; discriminate.
  - vm_compute; reflexivity.
Defined.

Lemma create_notion_page_sends_all_witness :
  exists tail,
    fst (Api.create_notion_page unit str Some Api.always_answers "t" "Title"
           "High" Api.many_blocks [])
    = [] ++ Api.mk_request unit Api.POST "/pages" "t"
              (Api.problem_page unit "Title" "High"
                 (firstn 100 Api.many_blocks))
            :: tail
    /\ Forall (fun rq => Api.method unit rq = Api.PATCH
                         /\ length (Api.children_of unit rq) <= 100) tail
    /\ Api.sent unit tail = skipn 100 Api.many_blocks
    /\ length tail = (length Api.many_blocks - 1) / 100.
Proof.
  apply (create_notion_page_sends_all unit str Some Api.always_answers "t"
           "Title" "High" Api.many_blocks [] _ (lit "p1")).
  vm_compute; reflexivity.
Defined.

Section CreatePageFacts.

Variables props response : Type.
Variable resp_id : response -> option str.
Variable resp_url : response -> option str.
Variable server :
  list (Api.request props) -> Api.request props -> option response.

(** The requests that follow the POST request of a new page. *)
Lemma batches_after_post (result : response) (token : str)
  (blocks : list block) (log log' : list (Api.request props))
  (out : Api.outcome unit) :
  (if 100 <? length blocks then
     Api.bind props (Api.subscript_id props response resp_id result)
       (fun page_id =>
          Api.append_batches props response server 100 token page_id blocks)
   else Api.ret props tt) log = (log', out) ->
  out <> Api.Unfinished
  /\ exists tail rest,
       log' = log ++ tail
       /\ Api.sent props tail ++ rest = skipn 100 blocks
       /\ Forall (fun rq => Api.method props rq = Api.PATCH
                            /\ length (Api.children_of props rq) <= 100) tail
       /\ (out = Api.Returned tt ->
           rest = [] /\ length tail = (length blocks - 1) / 100).
Proof.
  destruct (100 <? length blocks) eqn:C; intros E.
  - apply Nat.ltb_lt in C.
    apply bind_cases in E as (l1 & o1 & E1 & E).
    unfold Api.subscript_id in E1.
    destruct (resp_id result) as [page_id|]; inversion E1; subst; clear E1.
    2:{ destruct E as [<- ->]; split; [discriminate|].
        exists [], (skipn 100 blocks); rewrite app_nil_r.
        repeat split; auto; discriminate. }
    pose proof E as G; unfold Api.append_batches in G.
    apply for_each_batches in G as (k & Hk & G & Hout).
    apply append_batches_log in E
      as (tail & rest & -> & Hsent & Hp & Hsmall & Ho).
    apply app_inv_head in G; subst tail.
    split; [destruct Ho as [[-> _] | ->]; discriminate|].
    eexists _, rest; split; [reflexivity|]; split; [exact Hsent|]; split.
    + apply Forall_forall; intros rq H; rewrite Forall_forall in Hp, Hsmall.
      split; auto.
    + intros ->; destruct Ho as [[_ ->] | Ho]; [|discriminate].
      destruct Hout as [[_ ->] | Hout]; [|discriminate].
      split; [reflexivity|].
      rewrite firstn_all, length_map.
      unfold Api.range; rewrite range_from_length by lia.
      replace (length blocks - 100 + 99) with (length blocks - 1) by lia.
      reflexivity.
  - apply Nat.ltb_ge in C; inversion E; subst; split; [discriminate|].
    exists [], []; rewrite app_nil_r; repeat split; auto.
    + now rewrite skipn_all2.
    + now rewrite (Nat.div_small (length blocks - 1) 100) by lia.
Qed.

(** X24: [create_page] of create-page.py with a token and a body that is
    not empty sends the blocks of [markdown_to_blocks body]: the first 100
    with the POST request, which always has the key for the children, the
    others in order in PATCH requests of at most 100 blocks. The two
    conversions of the body agree, no round of the converter is missing,
    and when the call returns all blocks have been sent, in at most
    [(n - 1) / 100] requests after the first for a body of [n] lines. *)
Theorem create_page_sends_conversion (token parent_id name body : str)
  (log0 log' : list (Api.request props))
  (out : Api.outcome CreatePage.created) :
  body <> [] ->
  CreatePage.create_page props response resp_id resp_url server (Some token)
    parent_id name (Some body) log0 = (log', out) ->
  out <> Api.Unfinished
  /\ exists blocks tail rest,
       NotionClient.markdown_to_blocks body = Ok blocks
       /\ log' = log0
                 ++ Api.mk_request props Api.POST (lit "/pages") token
                      (Api.child_page props parent_id name
                         (Some (firstn 100 blocks)))
                    :: tail
       /\ Api.sent props tail ++ rest = skipn 100 blocks
       /\ Forall (fun rq => Api.method props rq = Api.PATCH
                            /\ length (Api.children_of props rq) <= 100) tail
       /\ (forall v, out = Api.Returned v ->
           rest = []
           /\ length tail <= (length (split nl body) - 1) / 100).
Proof.
  intros Hb E.
  destruct (markdown_to_blocks_length body) as (blocks & Eb & Hlen).
  unfold CreatePage.create_page in E.
  assert (Api.truthy (Some body) = true) as T
    by (destruct body; [congruence | reflexivity]).
  rewrite T in E; cbn [Api.the_list] in E.
  rewrite Eb in E; cbn [CreatePage.lift] in E.
  apply bind_cases in E as (l1 & o1 & E1 & E); inversion E1; subst.
  apply bind_cases in E as (l2 & o2 & E2 & E).
  unfold Api.bind, Api.ret in E2; inversion E2; subst; clear E1 E2.
  rewrite first_batch in E.
  apply bind_cases in E as (l3 & o3 & E3 & E).
  apply request_inv in E3 as [-> Ho3].
  destruct o3 as [result| |].
  2:{ destruct E as [<- ->]; split; [discriminate|].
      exists blocks, [], (skipn 100 blocks).
      repeat split; auto; discriminate. }
  2:{ destruct Ho3 as [Ho3 | [r Ho3]]; discriminate. }
  apply bind_cases in E as (l4 & o4 & E4 & E).
  unfold Api.bind at 1, Api.ret at 1 in E4.
  apply batches_after_post in E4
    as (N4 & tail & rest & -> & Hsent & Hp & Hr).
  destruct o4 as [[]| |]; [|destruct E as [<- ->]..].
  - inversion E; subst; split; [discriminate|].
    exists blocks, tail, rest; rewrite <- app_assoc.
    repeat split; auto; destruct (Hr eq_refl) as [-> Hn]; auto.
    rewrite Hn; apply Nat.Div0.div_le_mono; lia.
  - split; [discriminate|].
    exists blocks, tail, rest; rewrite <- app_assoc.
    repeat split; auto; discriminate.
  - congruence.
Qed.

Local Abbreviation patch_batch token page_id blocks :=
  (fun i =>
     Api.mk_request props Api.PATCH
       (lit "/blocks/" ++ page_id ++ lit "/children") token
       (Api.children_data props (Api.slice i (i + 100) blocks))).

(** The requests that follow the POST request when the loop returns: one
    PATCH request per index of [range(100, len(blocks), 100)], to the page
    whose id the answer gives. *)
Lemma batches_after_post_exact (result : response) (token : str)
  (blocks : list block) (log log' : list (Api.request props)) :
  (if 100 <? length blocks then
     Api.bind props (Api.subscript_id props response resp_id result)
       (fun page_id =>
          Api.append_batches props response server 100 token page_id blocks)
   else Api.ret props tt) log = (log', Api.Returned tt) ->
  exists tail,
    log' = log ++ tail
    /\ (length blocks <= 100 -> tail = [])
    /\ (100 < length blocks ->
        exists page_id,
          resp_id result = Some page_id
          /\ tail = map (patch_batch token page_id blocks)
                      (Api.range 100 (length blocks) 100)).
Proof.
  destruct (100 <? length blocks) eqn:C; intros E.
  - apply Nat.ltb_lt in C.
    apply bind_cases in E as (l1 & o1 & E1 & E).
    unfold Api.subscript_id in E1.
    destruct (resp_id result) as [page_id|]; inversion E1; subst; clear E1;
      [|destruct E; discriminate].
    unfold Api.append_batches in E.
    apply for_each_batches in E as (k & Hk & -> & Hout).
    destruct Hout as [[_ ->] | Hout]; [|discriminate].
    rewrite firstn_all.
    eexists; split; [reflexivity|]; split; [lia|].
    intros _; exists page_id; auto.
  - apply Nat.ltb_ge in C; inversion E; subst.
    exists []; rewrite app_nil_r; split; [reflexivity|]; split; [auto | lia].
Qed.

(** X15: when [create_page] returns, its requests are these, in order: one
    POST request to [/pages] that carries the first 100 blocks (and has no
    key for the children when there is no block), answered by the value
    that is returned; then, for more than 100 blocks, one PATCH request
    to the children of the page whose id is in that answer for each index
    100, 200, ... below the number of blocks, carrying the blocks from that
    index up to the next. So every block is sent exactly once and in order,
    in [1 + (n - 1) / 100] requests for [n] blocks. *)
Theorem create_page_sends_all (token database_id : str) (properties : props)
  (blocks : option (list block)) (log0 log' : list (Api.request props))
  (r : response) :
  Api.create_page props response resp_id server token database_id properties
    blocks log0 = (log', Api.Returned r) ->
  let bs := Api.the_list blocks in
  let post :=
    Api.mk_request props Api.POST (lit "/pages") token
      (Api.page_data props database_id properties
         (if Api.truthy blocks then Some (firstn 100 bs) else None)) in
  exists tail,
    log' = log0 ++ post :: tail
    /\ server log0 post = Some r
    /\ (length bs <= 100 -> tail = [])
    /\ (100 < length bs ->
        exists page_id,
          resp_id r = Some page_id
          /\ tail = map (fun i =>
                           Api.mk_request props Api.PATCH
                             (lit "/blocks/" ++ page_id ++ lit "/children")
                             token
                             (Api.children_data props
                                (Api.slice i (i + 100) bs)))
                      (Api.range 100 (length bs) 100))
    /\ Forall (fun rq => Api.method props rq = Api.PATCH
                         /\ 1 <= length (Api.children_of props rq) <= 100)
         tail
    /\ Api.children_of props post ++ Api.sent props tail = bs
    /\ length (post :: tail) = 1 + (length bs - 1) / 100.
Proof.
  intros E bs post; unfold Api.create_page in E; cbv zeta in E.
  fold bs in E; rewrite first_batch in E; fold post in E.
  assert (Api.truthy blocks && (100 <? length bs) = (100 <? length bs)) as T.
  { destruct (Api.truthy blocks) eqn:T; [reflexivity|].
    unfold bs; rewrite (truthy_false _ T); reflexivity. }
  rewrite T in E; clear T.
  apply bind_cases in E as (l1 & o1 & E1 & E).
  unfold Api.notion_request in E1; cbv zeta in E1; fold post in E1.
  destruct (server log0 post) as [result|] eqn:S0; inversion E1; subst;
    clear E1; [|destruct E; discriminate].
  apply bind_cases in E as (l2 & o2 & E2 & E).
  destruct o2 as [[]| |]; [|destruct E; discriminate..].
  inversion E; subst; clear E.
  pose proof E2 as G.
  apply batches_after_post in G
    as (_ & tail' & rest & G & Hsent & Hp & Hr).
  destruct (Hr eq_refl) as [-> Hn]; rewrite app_nil_r in Hsent.
  apply batches_after_post_exact in E2 as (tail & -> & Hsmall & Hbig).
  apply app_inv_head in G; subst tail'.
  exists tail; rewrite <- app_assoc; split; [reflexivity|].
  split; [reflexivity|]; split; [exact Hsmall|]; split; [exact Hbig|].
  assert (Api.children_of props post = firstn 100 bs) as C0.
  { unfold post; cbn [Api.children_of Api.data].
    destruct (Api.truthy blocks) eqn:T; [reflexivity|].
    unfold bs; now rewrite (truthy_false _ T). }
  split; [|split].
  - destruct (Nat.le_gt_cases (length bs) 100) as [L | L].
    + rewrite (Hsmall L); constructor.
    + destruct (Hbig L) as (page_id & _ & ->).
      apply Forall_forall; intros rq H.
      apply in_map_iff in H as (i & <- & H); split; [reflexivity|].
      cbn [Api.children_of Api.data].
      apply range_from_below in H.
      pose proof (slice_length i (i + 100) bs).
      pose proof (slice_not_nil i 100 bs).
      destruct (Api.slice i (i + 100) bs);
        [exfalso; apply H1; [lia | lia | reflexivity]|].
      cbn [length] in *; lia.
  - rewrite C0, Hsent; apply firstn_skipn.
  - cbn [length]; rewrite Hn; reflexivity.
Qed.

End CreatePageFacts.

Lemma create_page_sends_conversion_witness :
  snd (CreatePage.create_page unit str Some (fun _ => None)
         Api.always_answers (Some (lit "t")) "parent" "Notes"
         (Some CreatePage.long_body) []) <> Api.Unfinished
  /\ exists blocks tail rest,
       NotionClient.markdown_to_blocks CreatePage.long_body = Ok blocks
       /\ fst (CreatePage.create_page unit str Some (fun _ => None)
                 Api.always_answers (Some (lit "t")) "parent" "Notes"
                 (Some CreatePage.long_body) [])
          = [] ++ Api.mk_request unit Api.POST "/pages" "t"
                    (Api.child_page unit "parent" "Notes"
                       (Some (firstn 100 blocks)))
                  :: tail
       /\ Api.sent unit tail ++ rest = skipn 100 blocks
       /\ Forall (fun rq => Api.method unit rq = Api.PATCH
                            /\ length (Api.children_of unit rq) <= 100) tail
       /\ (forall v,
             snd (CreatePage.create_page unit str Some (fun _ => None)
                    Api.always_answers (Some (lit "t")) "parent" "Notes"
                    (Some CreatePage.long_body) []) = Api.Returned v ->
             rest = []
             /\ length tail
                <= (length (split nl CreatePage.long_body) - 1) / 100).
Proof.
  apply (create_page_sends_conversion unit str Some (fun _ => None)
           Api.always_answers "t" "parent" "Notes" CreatePage.long_body []).
  - vm_compute; discriminate.
  - vm_compute; reflexivity.
Defined.

Lemma create_page_sends_all_witness :
  let bs := Api.the_list (Some Api.many_blocks) in
  let post :=
    Api.mk_request unit Api.POST "/pages" "t"
      (Api.page_data unit "db" tt
         (if Api.truthy (Some Api.many_blocks) then Some (firstn 100 bs)
          else None)) in
  exists tail,
    fst (Api.create_page unit str Some Api.always_answers "t" "db" tt
           (Some Api.many_blocks) []) = [] ++ post :: tail
    /\ Api.always_answers [] post = Some (lit "p1")
    /\ (length bs <= 100 -> tail = [])
    /\ (100 < length bs ->
        exists page_id,
          Some (lit "p1") = Some page_id
          /\ tail = map (fun i =>
                           Api.mk_request unit Api.PATCH
                             (lit "/blocks/" ++ page_id ++ lit "/children")
                             "t"
                             (Api.children_data unit
                                (Api.slice i (i + 100) bs)))
                      (Api.range 100 (length bs) 100))
    /\ Forall (fun rq => Api.method unit rq = Api.PATCH
                         /\ 1 <= length (Api.children_of unit rq) <= 100)
         tail
    /\ Api.children_of unit post ++ Api.sent unit tail = bs
    /\ length (post :: tail) = 1 + (length bs - 1) / 100.
Proof.
  apply (create_page_sends_all unit str Some Api.always_answers "t" "db" tt
           (Some Api.many_blocks) [] _ (lit "p1")).
  vm_compute; reflexivity.
Defined.
